(** * workload-api-shim: credential decoding, response building, rotation fan-out

    A shallow embedding of [internal/shimserver] (the version with the
    rotation watcher and the broadcaster) and the properties its
    specification states about it.

    The shim is glue around four Go packages: [encoding/pem],
    [crypto/x509], [encoding/base64] and [encoding/json].  Their code is not
    part of the repository, so each package is an interface (a type class)
    listing the functions the shim calls with the types it calls them at;
    the theorems hold for any implementation of the interface, unless they
    name one.

    The instances serve to run the definitions on sample directories.
    [Module Demo] has [encoding/base64] and [encoding/pem] written after
    the packages' code, and small stand-ins for [crypto/x509] and
    [encoding/json].  [Module Documents] has [crypto/x509] on real
    documents: EC private keys on the NIST curves and the URI SANs of a
    certificate.  [Module Credentials] is a directory of such documents. *)

From Stdlib Require Import ZArith.
From Bignums Require Import BigZ.BigZ.
From stdpp Require Import base option list gmap strings fin_maps pretty.

(** ** Bytes, errors and results *)

(** Go's byte slices. *)
Abbreviation bytes := (list Byte.byte).

#[global] Instance byte_eq_dec : EqDecision Byte.byte := Byte.byte_eq_dec.

(** A string literal as file content. *)
Definition bytes_of (s : string) : bytes := String.list_byte_of_string s.

(** Go [error] values.  One constructor per [fmt.Errorf] site of the shim;
    [cause] is the wrapped ([%w]) error.  [OSError] is what [os.ReadFile]
    returns and [LibError] an error made by one of the four packages. *)
Inductive error : Type :=
| OSError (path : string)
| LibError (msg : string)
| ErrRead (name : string) (cause : error)            (* "read %s: %w" *)
| ErrNoPEMBlock (name : string)                      (* "no PEM block in %s" *)
| ErrParseEC (cause : error)                         (* "parse EC private key: %w" *)
| ErrParseRSA (cause : error)                        (* "parse RSA private key: %w" *)
| ErrUnsupportedPEMType (ty name : string)           (* "unsupported PEM block type %q in %s" *)
| ErrParseTrustBundles (cause : error)               (* "parse trust_bundles.json: %w" *)
| ErrLoadCertificates (cause : error)                (* "load certificates: %w" *)
| ErrNoCertificates                                  (* "no certificates found in certificates.pem" *)
| ErrLoadPrivateKey (cause : error)                  (* "load private key: %w" *)
| ErrLoadCA (cause : error)                          (* "load CA certificates: %w" *)
| ErrParseLeaf (cause : error)                       (* "parse leaf certificate: %w" *)
| ErrNoURISANs                                       (* "leaf certificate has no URI SANs" *)
| ErrLoadTrustBundles (cause : error)                (* "load trust bundles: %w" *)
| ErrDecodeX5C (domain : string) (cause : error)     (* "decode x5c entry for domain %s: %w" *)
| ErrMarshalJWTKey (domain : string) (cause : error) (* "marshal jwt key for domain %s: %w" *)
| ErrMarshalJWKS (domain : string) (cause : error).  (* "marshal jwks for domain %s: %w" *)

(** A Go [(T, error)] pair in which exactly one side is meaningful. *)
Inductive result (A : Type) : Type :=
| Ok (a : A)
| Err (e : error).
Arguments Ok {A} a.
Arguments Err {A} e.

(** Sequencing with the early [return nil, err]. *)
#[global] Instance result_bind : MBind result := λ A B k r,
  match r with
  | Ok a => k a
  | Err e => Err e
  end.

#[global] Instance result_ret : MRet result := λ A a, Ok a.

#[global] Instance result_fmap : FMap result := λ A B f r,
  match r with
  | Ok a => Ok (f a)
  | Err e => Err e
  end.

(** [wrap f r] is the Go idiom [if err != nil { return nil, fmt.Errorf("...: %w", err) }]. *)
Definition wrap {A : Type} (f : error → error) (r : result A) : result A :=
  match r with
  | Ok a => Ok a
  | Err e => Err (f e)
  end.

Definition is_Ok {A : Type} (r : result A) : Prop := ∃ a, r = Ok a.
Definition is_Err {A : Type} (r : result A) : Prop := ∃ e, r = Err e.

(** ** The data model of the Go packages and of the shim *)

(** [pem.Block]. *)
Record Block : Type := mkBlock {
  BlockType : string;                       (* Type *)
  Headers : list (string * string);
  Bytes : bytes
}.

(** [url.URL], the components a SPIFFE identifier has. *)
Record URL : Type := mkURL {
  Scheme : string;
  Host : string;
  Path : string
}.

(** The [String] method of [url.URL], on a URL made of scheme, host and path. *)
Definition URL_String (u : URL) : string := Scheme u +:+ "://" +:+ Host u +:+ Path u.

(** [x509.Certificate], the one field the shim reads. *)
Record Certificate : Type := mkCertificate {
  URIs : list URL
}.

Record trustKey : Type := mkTrustKey {
  Use : string;
  Kty : string;
  Crv : string;
  X : string;
  Y : string;
  X5C : list string
}.

Record trustDomainEntry : Type := mkTrustDomainEntry {
  Keys : list trustKey;
  SpiffeSequence : Z
}.

Record trustBundlesFile : Type := mkTrustBundlesFile {
  TrustDomains : gmap string trustDomainEntry
}.

(** [workloadv1.X509SVID] and the three response messages. *)
Record X509SVID : Type := mkX509SVID {
  SpiffeId : string;
  X509Svid : bytes;
  X509SvidKey : bytes;
  Bundle : bytes
}.

Record X509SVIDResponse : Type := mkX509SVIDResponse {
  Svids : list X509SVID
}.

Record X509BundlesResponse : Type := mkX509BundlesResponse {
  X509Bundles : gmap string bytes             (* Bundles *)
}.

Record JWTBundlesResponse : Type := mkJWTBundlesResponse {
  JWTBundles : gmap string bytes              (* Bundles *)
}.

(** The credential directory: file name to content.  A name that is not in
    the map is a file [os.ReadFile] fails on. *)
Abbreviation CredsDir := (gmap string bytes).

Definition ReadFile (fs : CredsDir) (name : string) : result bytes :=
  match fs !! name with
  | Some data => Ok data
  | None => Err (OSError name)
  end.

(** ** The packages the shim calls *)

(** [encoding/pem].  [pem_Decode data] is [(block, rest)]; the two laws are
    the package's documented contract: with no block found the whole input
    comes back as [rest], and a block found consumes input. *)
Class PemPkg : Type := {
  pem_Decode : bytes → option Block * bytes;
  pem_Decode_nil : ∀ data rest, pem_Decode data = (None, rest) → rest = data;
  pem_Decode_shrinks : ∀ data block rest,
    pem_Decode data = (Some block, rest) → length rest < length data
}.

(** A private key as [x509.MarshalPKCS8PrivateKey] takes it ([any]): the
    shim passes it an [ecdsa.PrivateKey] or an [rsa.PrivateKey]. *)
Inductive privateKey (ecKey rsaKey : Type) : Type :=
| ECDSAKey (k : ecKey)
| RSAKey (k : rsaKey).
Arguments ECDSAKey {ecKey rsaKey} k.
Arguments RSAKey {ecKey rsaKey} k.

(** [crypto/x509].  [x509_ParsePKCS8PrivateKey] is not called by the shim;
    it is the package's reading of a PKCS#8 document and says which
    documents encode which key. *)
Class X509Pkg : Type := {
  ecKey : Type;
  rsaKey : Type;
  x509_ParseCertificate : bytes → result Certificate;
  x509_ParseECPrivateKey : bytes → result ecKey;
  x509_ParsePKCS1PrivateKey : bytes → result rsaKey;
  x509_MarshalPKCS8PrivateKey : privateKey ecKey rsaKey → result bytes;
  x509_ParsePKCS8PrivateKey : bytes → result (privateKey ecKey rsaKey)
}.

(** [encoding/base64], [StdEncoding.DecodeString]. *)
Class Base64Pkg : Type := {
  base64_DecodeString : string → result bytes
}.

(** [encoding/json] at the three types the shim uses it at: [Unmarshal]
    into a [trustBundlesFile], [Marshal] of a [trustKey], and [Marshal] of
    the anonymous [struct { Keys []json.RawMessage }]. *)
Class JsonPkg : Type := {
  json_Unmarshal : bytes → result trustBundlesFile;
  json_Marshal_trustKey : trustKey → result bytes;
  json_Marshal_jwks : list bytes → result bytes
}.

(** The Go runtime's [range] over a map: every entry once, in an order the
    language leaves open. *)
Class MapRange : Type := {
  range_order : ∀ {K : Type} `{Countable K} {V : Type}, gmap K V → list (K * V);
  range_order_perm : ∀ {K : Type} `{Countable K} {V : Type} (m : gmap K V),
    range_order m ≡ₚ map_to_list m
}.

(** ** Credential decoder *)

Section Decoder.
Context {pem : PemPkg} {x509 : X509Pkg} {json : JsonPkg}.

(** The loop of [loadPEMDERs]:
    [for len(data) > 0 { block, data = pem.Decode(data); if block == nil { break }; ders = append(ders, block.Bytes) }].
    [fuel] bounds the iterations.  An iteration that finds a block uses up
    input ([pem_Decode_shrinks]), so [length data] iterations are never
    all taken: more fuel changes nothing ([decodeLoop_fuel]), and the
    result is that of the loop run to its end ([decodeLoop_decoded]). *)
Fixpoint decodeLoop (fuel : nat) (data : bytes) (ders : list bytes) : list bytes :=
  match fuel with
  | O => ders
  | S fuel' =>
      match data with
      | [] => ders
      | _ :: _ =>
          match pem_Decode data with
          | (None, _) => ders
          | (Some block, rest) => decodeLoop fuel' rest (ders ++ [Bytes block])
          end
      end
  end.

Definition loadPEMDERs (fs : CredsDir) (name : string) : result (list bytes) :=
  data ← wrap (ErrRead name) (ReadFile fs name);
  Ok (decodeLoop (length data) data []).

Definition loadPrivateKeyPKCS8DER (fs : CredsDir) (name : string) : result bytes :=
  data ← wrap (ErrRead name) (ReadFile fs name);
  match pem_Decode data with
  | (None, _) => Err (ErrNoPEMBlock name)
  | (Some block, _) =>
      if decide (BlockType block = "PRIVATE KEY") then
        Ok (Bytes block)
      else if decide (BlockType block = "EC PRIVATE KEY") then
        key ← wrap ErrParseEC (x509_ParseECPrivateKey (Bytes block));
        x509_MarshalPKCS8PrivateKey (ECDSAKey key)
      else if decide (BlockType block = "RSA PRIVATE KEY") then
        key ← wrap ErrParseRSA (x509_ParsePKCS1PrivateKey (Bytes block));
        x509_MarshalPKCS8PrivateKey (RSAKey key)
      else
        Err (ErrUnsupportedPEMType (BlockType block) name)
  end.

Definition loadTrustBundles (fs : CredsDir) : result trustBundlesFile :=
  data ← wrap (ErrRead "trust_bundles.json") (ReadFile fs "trust_bundles.json");
  wrap ErrParseTrustBundles (json_Unmarshal data).

(** [concatDERs]: [for _, d := range ders { out = append(out, d...) }]. *)
Definition concatDERs (ders : list bytes) : bytes :=
  fold_left (λ out d, out ++ d) ders [].

End Decoder.

(** ** Response builder *)

Section Builder.
Context {pem : PemPkg} {x509 : X509Pkg} {b64 : Base64Pkg} {json : JsonPkg}
        {rng : MapRange}.

Definition buildX509SVIDResponse (fs : CredsDir) : result X509SVIDResponse :=
  certDERs ← wrap ErrLoadCertificates (loadPEMDERs fs "certificates.pem");
  match certDERs with
  | [] => Err ErrNoCertificates
  | leafDER :: _ =>
      keyDER ← wrap ErrLoadPrivateKey (loadPrivateKeyPKCS8DER fs "private_key.pem");
      caDERs ← wrap ErrLoadCA (loadPEMDERs fs "ca_certificates.pem");
      leaf ← wrap ErrParseLeaf (x509_ParseCertificate leafDER);
      match URIs leaf with
      | [] => Err ErrNoURISANs
      | uri :: _ =>
          Ok {| Svids := [ {| SpiffeId := URL_String uri;
                              X509Svid := concatDERs certDERs;
                              X509SvidKey := keyDER;
                              Bundle := concatDERs caDERs |} ] |}
      end
  end.

(** [for _, b64cert := range key.X5C { ... }] of [buildX509BundlesResponse]. *)
Fixpoint decodeX5C (domain : string) (x5c : list string) (ders : list bytes)
  : result (list bytes) :=
  match x5c with
  | [] => Ok ders
  | b64cert :: x5c' =>
      der ← wrap (ErrDecodeX5C domain) (base64_DecodeString b64cert);
      decodeX5C domain x5c' (ders ++ [der])
  end.

(** [for _, key := range entry.Keys { if key.Use != "x509-svid" { continue }; ... }]. *)
Fixpoint x509KeyDERs (domain : string) (keys : list trustKey) (ders : list bytes)
  : result (list bytes) :=
  match keys with
  | [] => Ok ders
  | key :: keys' =>
      if decide (Use key ≠ "x509-svid") then x509KeyDERs domain keys' ders
      else
        ders' ← decodeX5C domain (X5C key) ders;
        x509KeyDERs domain keys' ders'
  end.

(** [for domain, entry := range tb.TrustDomains { ... }] of
    [buildX509BundlesResponse], over the entries in the order [range]
    yields them. *)
Fixpoint rangeX509Domains (localTD : string)
    (entries : list (string * trustDomainEntry)) (bundles : gmap string bytes)
  : result (gmap string bytes) :=
  match entries with
  | [] => Ok bundles
  | (domain, entry) :: entries' =>
      let tdKey := "spiffe://" +:+ domain in
      if decide (tdKey = localTD) then rangeX509Domains localTD entries' bundles
      else
        ders ← x509KeyDERs domain (Keys entry) [];
        if decide (0 < length ders)
        then rangeX509Domains localTD entries' (<[tdKey := concatDERs ders]> bundles)
        else rangeX509Domains localTD entries' bundles
  end.

Definition buildX509BundlesResponse (fs : CredsDir) : result X509BundlesResponse :=
  certDERs ← wrap ErrLoadCertificates (loadPEMDERs fs "certificates.pem");
  match certDERs with
  | [] => Err ErrNoCertificates
  | leafDER :: _ =>
      leaf ← wrap ErrParseLeaf (x509_ParseCertificate leafDER);
      match URIs leaf with
      | [] => Err ErrNoURISANs
      | uri :: _ =>
          let localTD := "spiffe://" +:+ Host uri in
          caDERs ← wrap ErrLoadCA (loadPEMDERs fs "ca_certificates.pem");
          let bundles : gmap string bytes := {[ localTD := concatDERs caDERs ]} in
          tb ← wrap ErrLoadTrustBundles (loadTrustBundles fs);
          bundles' ← rangeX509Domains localTD (range_order (TrustDomains tb)) bundles;
          Ok {| X509Bundles := bundles' |}
      end
  end.

(** [for _, key := range entry.Keys { if key.Use != "jwt-svid" { continue }; ... }]
    of [buildJWTBundlesResponse]. *)
Fixpoint jwtKeys (domain : string) (keys : list trustKey) (out : list bytes)
  : result (list bytes) :=
  match keys with
  | [] => Ok out
  | key :: keys' =>
      if decide (Use key ≠ "jwt-svid") then jwtKeys domain keys' out
      else
        b ← wrap (ErrMarshalJWTKey domain) (json_Marshal_trustKey key);
        jwtKeys domain keys' (out ++ [b])
  end.

(** [for domain, entry := range tb.TrustDomains { ... }] of
    [buildJWTBundlesResponse]. *)
Fixpoint rangeJWTDomains (entries : list (string * trustDomainEntry))
    (bundles : gmap string bytes) : result (gmap string bytes) :=
  match entries with
  | [] => Ok bundles
  | (domain, entry) :: entries' =>
      keys ← jwtKeys domain (Keys entry) [];
      if decide (length keys = 0) then rangeJWTDomains entries' bundles
      else
        jwksJSON ← wrap (ErrMarshalJWKS domain) (json_Marshal_jwks keys);
        rangeJWTDomains entries' (<["spiffe://" +:+ domain := jwksJSON]> bundles)
  end.

Definition buildJWTBundlesResponse (fs : CredsDir) : result JWTBundlesResponse :=
  tb ← wrap ErrLoadTrustBundles (loadTrustBundles fs);
  bundles ← rangeJWTDomains (range_order (TrustDomains tb)) ∅;
  Ok {| JWTBundles := bundles |}.

End Builder.

(** ** Broadcast hub *)

(** A Go channel of [struct{}]: the values carry nothing, so a channel is
    its capacity and the number of values in its buffer. *)
Record chan : Type := mkChan {
  cap : nat;
  buffered : nat
}.

(** [make(chan struct{}, n)]. *)
Definition make_chan (n : nat) : chan := {| cap := n; buffered := 0 |}.

(** [ch <- struct{}{}] on its own: [None] when the send has to wait. *)
Definition chan_send (ch : chan) : option chan :=
  if decide (buffered ch < cap ch)
  then Some {| cap := cap ch; buffered := S (buffered ch) |}
  else None.

(** [<-ch]: [None] when the receive has to wait. *)
Definition chan_recv (ch : chan) : option chan :=
  match buffered ch with
  | O => None
  | S n => Some {| cap := cap ch; buffered := n |}
  end.

(** [select { case ch <- struct{}{}: default: }]. *)
Definition select_send_default (ch : chan) : chan :=
  match chan_send ch with
  | Some ch' => ch'
  | None => ch
  end.

(** Go's [int] on the 64-bit targets the shim is built for. *)
Definition wrap_int (z : Z) : Z := ((z + 2 ^ 63) `mod` 2 ^ 64 - 2 ^ 63)%Z.

(** Channels are references: [chans] is the store they live in, and the
    broadcaster's [subs] maps a subscription id to a channel's address. *)
Record broadcaster : Type := mkBroadcaster {
  chans : gmap nat chan;
  subs : gmap Z nat;
  next : Z
}.

Definition newBroadcaster : broadcaster :=
  {| chans := ∅; subs := ∅; next := 0 |}.

Section Hub.
Context {rng : MapRange}.

(** Returns the id and the address of the receive end. *)
Definition subscribe (b : broadcaster) : Z * nat * broadcaster :=
  let id := next b in
  let ch := fresh (dom (chans b)) in
  (id, ch,
   {| chans := <[ch := make_chan 1]> (chans b);
      subs := <[id := ch]> (subs b);
      next := wrap_int (next b + 1) |}).

Definition unsubscribe (id : Z) (b : broadcaster) : broadcaster :=
  {| chans := chans b; subs := delete id (subs b); next := next b |}.

(** [for _, ch := range b.subs { select { case ch <- struct{}{}: default: } }]. *)
Definition broadcast (b : broadcaster) : broadcaster :=
  {| chans := foldl (λ store '(_, ch), alter select_send_default ch store)
                    (chans b) (range_order (subs b));
     subs := subs b;
     next := next b |}.

(** A subscriber takes the pending notification off its channel. *)
Definition receive (ch : nat) (b : broadcaster) : option broadcaster :=
  c ← chans b !! ch;
  c' ← chan_recv c;
  Some {| chans := <[ch := c']> (chans b); subs := subs b; next := next b |}.

(** What can happen to the hub, one call at a time (each of [subscribe],
    [unsubscribe] and [broadcast] runs under [b.mu]). *)
Inductive hub_step : broadcaster → broadcaster → Prop :=
| step_subscribe b : hub_step b (subscribe b).2
| step_unsubscribe b id : hub_step b (unsubscribe id b)
| step_broadcast b : hub_step b (broadcast b)
| step_receive b ch b' : receive ch b = Some b' → hub_step b b'.

Definition hub_reachable (b : broadcaster) : Prop := rtc hub_step newBroadcaster b.

End Hub.

(** A channel as [subscribe] makes them, with nothing or one value in it. *)
Definition single_slot (ch : chan) : Prop := cap ch = 1 ∧ buffered ch ≤ 1.

(** Every channel there is has one slot. *)
Definition hub_inv (b : broadcaster) : Prop :=
  map_Forall (λ _ ch, single_slot ch) (chans b).

(** The sends of one [broadcast], over the channels in the order given. *)
Definition send_all (store : gmap nat chan) (targets : list (Z * nat)) : gmap nat chan :=
  foldl (λ store '(_, ch), alter select_send_default ch store) store targets.

(** ** Session handler *)

Inductive code : Type := Internal | Unimplemented | InvalidArgument.

(** What a handler returns to the RPC runtime when it is not [nil]: a
    [status.Errorf(code, "%v", err)], or the error of [stream.Send] as it is. *)
Inductive rpcError : Type :=
| Status (c : code) (e : error)
| SendError (e : error).

(** Where a streaming handler is: before its first build, between the first
    send and [subscribe], in the [for { select { ... } }] loop holding its
    subscription, or returned. *)
Inductive phase : Type :=
| Start
| Sent
| Live (id : Z) (rotated : nat)
| Returned (ret : option rpcError).

Record session (R : Type) : Type := mkSession {
  at_phase : phase;
  sent : list R;                         (* payloads the client got, oldest first *)
  logged : list (string * error)         (* log.Printf lines, oldest first *)
}.
Arguments mkSession {R} _ _ _.
Arguments at_phase {R} _.
Arguments sent {R} _.
Arguments logged {R} _.

Definition new_session {R : Type} : session R :=
  {| at_phase := Start; sent := []; logged := [] |}.

(** What the handler meets next.  [fs] is the directory as the build finds
    it and [send] what [stream.Send] answers should the handler call it. *)
Inductive input : Type :=
| Invoke (fs : CredsDir) (send : option error)
| Subscribe
| Rotated (fs : CredsDir) (send : option error)     (* case <-rotated *)
| Done.                                       (* case <-stream.Context().Done() *)

Section Session.
Context {rng : MapRange} {R : Type}.
Variable name : string.                (* the handler's name in its log lines *)
Variable build : CredsDir → result R.

(** One step of a streaming handler; [None] when the input cannot occur in
    the phase the handler is in (a [Rotated] with nothing in the channel). *)
Definition session_step (b : broadcaster) (s : session R) (i : input)
  : option (broadcaster * session R) :=
  match at_phase s, i with
  | Start, Invoke fs send =>
      match build fs with
      | Err err =>
          Some (b, mkSession (Returned (Some (Status Internal err))) (sent s) (logged s))
      | Ok resp =>
          match send with
          | Some err => Some (b, mkSession (Returned (Some (SendError err))) (sent s) (logged s))
          | None => Some (b, mkSession Sent (sent s ++ [resp]) (logged s))
          end
      end
  | Sent, Subscribe =>
      let '(id, rotated, b') := subscribe b in
      Some (b', mkSession (Live id rotated) (sent s) (logged s))
  | Live id rotated, Done =>
      Some (unsubscribe id b, mkSession (Returned None) (sent s) (logged s))
  | Live id rotated, Rotated fs send =>
      b' ← receive rotated b;
      match build fs with
      | Err err =>
          Some (b', mkSession (Live id rotated) (sent s)
                              (logged s ++ [(name +:+ ": reload failed", err)]))
      | Ok resp =>
          match send with
          | Some err =>
              Some (unsubscribe id b',
                    mkSession (Returned (Some (SendError err))) (sent s) (logged s))
          | None => Some (b', mkSession (Live id rotated) (sent s ++ [resp]) (logged s))
          end
      end
  | _, _ => None
  end.

(** A run of the handler over a sequence of inputs. *)
Fixpoint session_run (b : broadcaster) (s : session R) (inputs : list input)
  : option (broadcaster * session R) :=
  match inputs with
  | [] => Some (b, s)
  | i :: inputs' =>
      '(b', s') ← session_step b s i;
      session_run b' s' inputs'
  end.

End Session.

Section Handlers.
Context {pem : PemPkg} {x509 : X509Pkg} {b64 : Base64Pkg} {json : JsonPkg}
        {rng : MapRange}.

Definition FetchX509SVID := session_step "FetchX509SVID" buildX509SVIDResponse.
Definition FetchX509Bundles := session_step "FetchX509Bundles" buildX509BundlesResponse.
Definition FetchJWTBundles := session_step "FetchJWTBundles" buildJWTBundlesResponse.

(** The three streaming operations, to speak of all of them at once. *)
Inductive operation : Type := SVIDStream | X509BundleStream | JWTBundleStream.

Definition response_of (op : operation) : Type :=
  match op with
  | SVIDStream => X509SVIDResponse
  | X509BundleStream => X509BundlesResponse
  | JWTBundleStream => JWTBundlesResponse
  end.

Definition name_of (op : operation) : string :=
  match op with
  | SVIDStream => "FetchX509SVID"
  | X509BundleStream => "FetchX509Bundles"
  | JWTBundleStream => "FetchJWTBundles"
  end.

Definition build_of (op : operation) : CredsDir → result (response_of op) :=
  match op with
  | SVIDStream => buildX509SVIDResponse
  | X509BundleStream => buildX509BundlesResponse
  | JWTBundleStream => buildJWTBundlesResponse
  end.

Definition Fetch (op : operation)
  : broadcaster → session (response_of op) → input
    → option (broadcaster * session (response_of op)) :=
  match op with
  | SVIDStream => FetchX509SVID
  | X509BundleStream => FetchX509Bundles
  | JWTBundleStream => FetchJWTBundles
  end.

End Handlers.

(** ** Instances to run the definitions on *)

Module Demo.

(** *** [encoding/base64] *)

Definition b64_value (c : Byte.byte) : option N :=
  let n := Byte.to_N c in
  if decide (65 ≤ n ≤ 90)%N then Some (n - 65)%N            (* A-Z *)
  else if decide (97 ≤ n ≤ 122)%N then Some (n - 71)%N      (* a-z *)
  else if decide (48 ≤ n ≤ 57)%N then Some (n + 4)%N        (* 0-9 *)
  else if decide (n = 43)%N then Some 62%N                  (* + *)
  else if decide (n = 47)%N then Some 63%N                  (* / *)
  else None.

Definition pad : Byte.byte := Byte.x3d.                     (* = *)

(** Four characters to three bytes; the last group may end in one or two
    padding characters. *)
Fixpoint b64_groups (l : bytes) : option bytes :=
  match l with
  | [] => Some []
  | c1 :: c2 :: c3 :: c4 :: l' =>
      v1 ← b64_value c1;
      v2 ← b64_value c2;
      if decide (c3 = pad ∧ c4 = pad ∧ l' = []) then
        o1 ← Byte.of_N (v1 * 4 + v2 / 16);
        Some [o1]
      else
        v3 ← b64_value c3;
        o1 ← Byte.of_N (v1 * 4 + v2 / 16);
        o2 ← Byte.of_N ((v2 `mod` 16) * 16 + v3 / 4);
        if decide (c4 = pad ∧ l' = []) then Some [o1; o2]
        else
          v4 ← b64_value c4;
          o3 ← Byte.of_N ((v3 `mod` 4) * 64 + v4);
          tl ← b64_groups l';
          Some (o1 :: o2 :: o3 :: tl)
  | _ => None
  end%N.

Definition is_newline (c : Byte.byte) : bool :=
  bool_decide (c = Byte.x0a ∨ c = Byte.x0d).

(** [StdEncoding.Decode]: line breaks are skipped, padding is required. *)
Definition b64_decode (l : bytes) : option bytes :=
  b64_groups (filter (λ c, is_newline c = false) l).

#[export] Instance base64 : Base64Pkg := {|
  base64_DecodeString s :=
    match b64_decode (bytes_of s) with
    | Some der => Ok der
    | None => Err (LibError "illegal base64 data")
    end
|}.

(** *** [encoding/pem]

    [Decode] after the package's source: the loop that looks for the next
    [-----BEGIN] line, reads the type, the [key: value] header lines and
    the base64 body up to the matching [-----END] line, and on anything
    that does not fit goes on ([continue]) to the next [-----BEGIN].  Text
    that is not a well-formed block is skipped, also a malformed block in
    front of a well-formed one. *)

(** [bytes.HasPrefix] with the rest: [bytes.CutPrefix]. *)
Fixpoint cut_prefix (p data : bytes) : option bytes :=
  match p, data with
  | [], _ => Some data
  | c :: p', d :: data' => if decide (c = d) then cut_prefix p' data' else None
  | _ :: _, [] => None
  end.

Definition has_prefix (p data : bytes) : bool := bool_decide (is_Some (cut_prefix p data)).

(** [bytes.HasSuffix]. *)
Definition has_suffix (s data : bytes) : bool := has_prefix (reverse s) (reverse data).

(** [bytes.Index]: where the first [sep] in [data] starts. *)
Fixpoint index (sep data : bytes) : option nat :=
  if has_prefix sep data then Some 0
  else
    match data with
    | [] => None
    | _ :: data' => S <$> index sep data'
    end.

(** [bytes.Cut], the text after the first [sep]. *)
Definition after (sep data : bytes) : option bytes :=
  i ← index sep data; Some (drop (i + length sep) data).

(** [bytes.Cut], both sides. *)
Definition cut (sep data : bytes) : option (bytes * bytes) :=
  i ← index sep data; Some (take i data, drop (i + length sep) data).

Fixpoint drop_while (f : Byte.byte → bool) (data : bytes) : bytes :=
  match data with
  | [] => []
  | c :: data' => if f c then drop_while f data' else data
  end.

Definition is_blank (c : Byte.byte) : bool :=
  bool_decide (c = Byte.x20 ∨ c = Byte.x09).                (* space, tab *)

(** [bytes.TrimRight(data, " \t")]. *)
Definition trim_right (data : bytes) : bytes :=
  reverse (drop_while is_blank (reverse data)).

Definition is_space (c : Byte.byte) : bool :=
  bool_decide (c ∈ [Byte.x09; Byte.x0a; Byte.x0b; Byte.x0c; Byte.x0d; Byte.x20]).

(** [bytes.TrimSpace], on ASCII text. *)
Definition trim_space (data : bytes) : bytes :=
  reverse (drop_while is_space (reverse (drop_while is_space data))).

(** [removeSpacesAndTabs]. *)
Definition removeSpacesAndTabs (data : bytes) : bytes :=
  filter (λ c, is_blank c = false) data.

Definition nl : bytes := [Byte.x0a].
Definition cr : bytes := [Byte.x0d].
Definition colon : bytes := bytes_of ":".
Definition pemStart : bytes := nl ++ bytes_of "-----BEGIN ".
Definition pemEnd : bytes := nl ++ bytes_of "-----END ".
Definition pemEndOfLine : bytes := bytes_of "-----".

(** [getLine]: the first line of [data] without its line end ([\n] or
    [\r\n]) and without blanks at its end, and the text after the line. *)
Definition getLine (data : bytes) : bytes * bytes :=
  match index nl data with
  | None => (trim_right data, [])
  | Some i =>
      let line := take i data in
      (trim_right (if has_suffix cr line then take (i - 1) data else line),
       drop (i + 1) data)
  end.

(** [p.Headers[key] = val]. *)
Fixpoint set_header (key val : string) (hs : list (string * string))
  : list (string * string) :=
  match hs with
  | [] => [(key, val)]
  | (k, v) :: hs' =>
      if decide (k = key) then (key, val) :: hs' else (k, v) :: set_header key val hs'
  end.

(** The loop over the header lines.  [None] is its [return nil, data]: the
    input ends in the headers.  Every turn takes a line off [rest], so
    [length rest + 1] turns are never all used. *)
Fixpoint headers (fuel : nat) (rest : bytes) (hs : list (string * string))
  : option (list (string * string) * bytes) :=
  match fuel with
  | O => None
  | S fuel' =>
      match rest with
      | [] => None
      | _ :: _ =>
          let '(line, next) := getLine rest in
          match cut colon line with
          | None => Some (hs, rest)
          | Some (key, val) =>
              headers fuel' next
                (set_header (String.string_of_list_byte (trim_space key))
                            (String.string_of_list_byte (trim_space val)) hs)
          end
      end
  end.

(** What one turn of the loop of [Decode] comes to. *)
Inductive attempt : Type :=
| Found (p : Block) (rest : bytes)       (* return p, rest *)
| Continue (rest : bytes)                (* continue *)
| NotFound.                              (* return nil, data *)

(** The text after the next [-----BEGIN]: at the very start of [rest]
    without the line break in front of it, else with it. *)
Definition begin (rest : bytes) : option bytes :=
  if has_prefix (drop 1 pemStart) rest
  then Some (drop (length pemStart - 1) rest)
  else after pemStart rest.

(** One turn of the loop, from the text [rest] not yet looked at. *)
Definition try_block (rest : bytes) : attempt :=
  match begin rest with
  | None => NotFound
  | Some rest =>
      let '(typeLine, rest) := getLine rest in
      if negb (has_suffix pemEndOfLine typeLine) then Continue rest
      else
        let typeLine := take (length typeLine - length pemEndOfLine) typeLine in
        match headers (S (length rest)) rest [] with
        | None => NotFound
        | Some (hs, rest) =>
            match (if bool_decide (hs = []) && has_prefix (drop 1 pemEnd) rest
                   then Some (0, length pemEnd - 1)
                   else i ← index pemEnd rest; Some (i, i + length pemEnd)) with
            | None => Continue rest
            | Some (endIndex, endTrailerIndex) =>
                let endTrailer := drop endTrailerIndex rest in
                let endTrailerLen := length typeLine + length pemEndOfLine in
                if decide (length endTrailer < endTrailerLen) then Continue rest
                else
                  let restOfEndLine := drop endTrailerLen endTrailer in
                  let endTrailer := take endTrailerLen endTrailer in
                  if negb (has_prefix typeLine endTrailer)
                     || negb (has_suffix pemEndOfLine endTrailer) then Continue rest
                  else if negb (bool_decide ((getLine restOfEndLine).1 = [])) then Continue rest
                  else
                    match b64_decode (removeSpacesAndTabs (take endIndex rest)) with
                    | None => Continue rest
                    | Some der =>
                        Found {| BlockType := String.string_of_list_byte typeLine;
                                 Headers := hs; Bytes := der |}
                              (getLine (drop (endIndex + length pemEnd - 1) rest)).2
                    end
            end
        end
  end.

(** The loop of [Decode].  Every turn takes a [-----BEGIN] off [rest], so
    [length data + 1] turns are never all used ([decode_loop_fuel]). *)
Fixpoint decode_loop (fuel : nat) (data rest : bytes) : option Block * bytes :=
  match fuel with
  | O => (None, data)
  | S fuel' =>
      match try_block rest with
      | Found p rest' => (Some p, rest')
      | Continue rest' => decode_loop fuel' data rest'
      | NotFound => (None, data)
      end
  end.

Definition decode (data : bytes) : option Block * bytes :=
  decode_loop (S (length data)) data data.

Lemma cut_prefix_length p data r :
  cut_prefix p data = Some r → length data = length p + length r.
Proof.
  revert data. induction p as [|c p IH]; intros [|d data] H; simplify_eq/=; auto.
  case_decide; [|done]. apply IH in H. lia.
Qed.

Lemma has_prefix_length p data : has_prefix p data = true → length p ≤ length data.
Proof.
  unfold has_prefix. intros H. apply bool_decide_eq_true in H as [r H].
  apply cut_prefix_length in H. lia.
Qed.

Lemma index_bound sep data i : index sep data = Some i → i + length sep ≤ length data.
Proof.
  revert i. induction data as [|d data IH]; intros i; simpl.
  - destruct (has_prefix sep []) eqn:E; [|done]. intros [= <-].
    apply has_prefix_length in E. simpl in *. lia.
  - destruct (has_prefix sep (d :: data)) eqn:E.
    + intros [= <-]. apply has_prefix_length in E. simpl in *. lia.
    + destruct (index sep data) as [j|]; [|done]. intros [= <-].
      specialize (IH _ eq_refl). simpl. lia.
Qed.

Lemma after_length sep data r :
  after sep data = Some r → length r + length sep ≤ length data.
Proof.
  unfold after. destruct (index sep data) as [i|] eqn:E; [|done]. intros [= <-].
  apply index_bound in E. rewrite length_drop. lia.
Qed.

Lemma getLine_length data : length (getLine data).2 ≤ length data.
Proof.
  unfold getLine. destruct (index nl data) as [i|]; simpl; [|lia].
  rewrite length_drop. lia.
Qed.

Lemma getLine_shrinks data : data ≠ [] → length (getLine data).2 < length data.
Proof.
  intros Hne. unfold getLine. destruct (index nl data) as [i|] eqn:E; simpl.
  - apply index_bound in E. rewrite length_drop. simpl in E. lia.
  - destruct data; [done|simpl; lia].
Qed.

Lemma headers_length fuel rest hs hs' rest' :
  headers fuel rest hs = Some (hs', rest') → length rest' ≤ length rest.
Proof.
  revert rest hs. induction fuel as [|fuel IH]; intros rest hs H; [done|].
  simpl in H. destruct rest as [|c rest]; [done|].
  destruct (getLine (c :: rest)) as [line next] eqn:E.
  destruct (cut colon line) as [[key val]|].
  - apply IH in H. pose proof (getLine_length (c :: rest)) as Hl.
    rewrite E in Hl. simpl in *. lia.
  - by simplify_eq.
Qed.

(** More turns than [rest] has bytes are never used. *)
Lemma headers_fuel fuel rest hs :
  length rest < fuel → headers fuel rest hs = headers (S (length rest)) rest hs.
Proof.
  enough (∀ n fuel1 fuel2 rest hs, length rest < n → length rest < fuel1 →
            length rest < fuel2 → headers fuel1 rest hs = headers fuel2 rest hs) as H.
  { intros Hlt. apply (H (S (length rest))); lia. }
  clear. intros n. induction n as [|n IH]; intros fuel1 fuel2 rest hs Hn H1 H2; [lia|].
  destruct fuel1 as [|fuel1]; [lia|]. destruct fuel2 as [|fuel2]; [lia|].
  simpl. destruct rest as [|c rest]; [done|].
  pose proof (getLine_shrinks (c :: rest) ltac:(done)) as Hs.
  destruct (getLine (c :: rest)) as [line next]. simpl in Hs.
  destruct (cut colon line) as [[key val]|]; [|done].
  apply IH; simpl in *; lia.
Qed.

Lemma begin_shrinks rest r : begin rest = Some r → length r < length rest.
Proof.
  unfold begin. destruct (has_prefix (drop 1 pemStart) rest) eqn:E.
  - intros [= <-]. apply has_prefix_length in E. rewrite length_drop.
    cbn in E |- *. lia.
  - intros H. apply after_length in H. cbn in H. lia.
Qed.

Lemma try_block_shrinks rest :
  match try_block rest with
  | Found _ rest' | Continue rest' => length rest' < length rest
  | NotFound => True
  end.
Proof.
  unfold try_block.
  destruct (begin rest) as [r1|] eqn:E1; [|done]. apply begin_shrinks in E1.
  pose proof (getLine_length r1) as H2.
  destruct (getLine r1) as [typeLine r2]. simpl in H2.
  destruct (negb (has_suffix pemEndOfLine typeLine)); [lia|].
  destruct (headers (S (length r2)) r2 []) as [[hs r3]|] eqn:E3; [|done].
  apply headers_length in E3.
  destruct (if bool_decide (hs = []) && has_prefix (drop 1 pemEnd) r3
            then Some (0, length pemEnd - 1)
            else i ← index pemEnd r3; Some (i, i + length pemEnd))
    as [[endIndex endTrailerIndex]|]; [|lia].
  pose proof (getLine_length (drop (endIndex + length pemEnd - 1) r3)) as H5.
  rewrite length_drop in H5. change (length pemEnd) with 10 in H5.
  repeat case_match; simplify_eq; lia.
Qed.

Lemma decode_loop_None fuel data rest r :
  decode_loop fuel data rest = (None, r) → r = data.
Proof.
  revert rest. induction fuel as [|fuel IH]; intros rest; simpl; [congruence|].
  destruct (try_block rest); [congruence|apply IH|congruence].
Qed.

Lemma decode_loop_Some fuel data rest p r :
  decode_loop fuel data rest = (Some p, r) → length r < length rest.
Proof.
  revert rest. induction fuel as [|fuel IH]; intros rest; simpl; [congruence|].
  pose proof (try_block_shrinks rest) as Hs.
  destruct (try_block rest) as [p' r'|r'|]; [|intros H; apply IH in H; lia|congruence].
  by intros [= <- <-].
Qed.

(** More turns than [rest] has bytes are never used. *)
Lemma decode_loop_fuel fuel data rest :
  length rest < fuel → decode_loop fuel data rest = decode_loop (S (length rest)) data rest.
Proof.
  enough (∀ n fuel1 fuel2 rest, length rest < n → length rest < fuel1 →
            length rest < fuel2 → decode_loop fuel1 data rest = decode_loop fuel2 data rest)
    as H.
  { intros Hlt. apply (H (S (length rest))); lia. }
  intros n. induction n as [|n IH]; intros fuel1 fuel2 rest' Hn H1 H2; [lia|].
  destruct fuel1 as [|fuel1]; [lia|]. destruct fuel2 as [|fuel2]; [lia|].
  simpl. pose proof (try_block_shrinks rest') as Hs.
  destruct (try_block rest'); [done| |done]. apply IH; lia.
Qed.

#[export] Program Instance pem : PemPkg := {| pem_Decode := decode |}.
Next Obligation. intros data rest. apply decode_loop_None. Qed.
Next Obligation. intros data block rest. apply decode_loop_Some. Qed.


(** *** [crypto/x509], a stand-in

    Stand-ins for the ASN.1 documents, small enough to read: a
    certificate is the byte [0x30] followed by the text of its URI SAN
    (none when nothing follows); a key is one byte of secret, the SEC1
    document of an EC key [d] is [E d], the PKCS#1 document of an RSA key
    is [R d], and the PKCS#8 document [x509.MarshalPKCS8PrivateKey] writes
    is [8 E d] or [8 R d].  None of these is a document the package would
    read; the real ones are in [Module Documents]. *)

Definition slash : bytes := bytes_of "/".

Definition parse_uri (text : bytes) : option URL :=
  '(scheme, r) ← cut (bytes_of "://") text;
  match cut slash r with
  | Some (host, path) =>
      Some {| Scheme := String.string_of_list_byte scheme;
              Host := String.string_of_list_byte host;
              Path := String.string_of_list_byte (slash ++ path) |}
  | None =>
      Some {| Scheme := String.string_of_list_byte scheme;
              Host := String.string_of_list_byte r;
              Path := EmptyString |}
  end.

Definition parse_certificate (der : bytes) : result Certificate :=
  match der with
  | Byte.x30 :: [] => Ok {| URIs := [] |}
  | Byte.x30 :: text =>
      match parse_uri text with
      | Some u => Ok {| URIs := [u] |}
      | None => Err (LibError "x509: malformed certificate")
      end
  | _ => Err (LibError "x509: malformed certificate")
  end.

Definition tagEC : Byte.byte := Byte.x45.                   (* E *)
Definition tagRSA : Byte.byte := Byte.x52.                  (* R *)
Definition tagPKCS8 : Byte.byte := Byte.x38.                (* 8 *)

Definition parse_tagged (tag : Byte.byte) (msg : string) (der : bytes)
  : result Byte.byte :=
  match der with
  | [t; d] => if decide (t = tag) then Ok d else Err (LibError msg)
  | _ => Err (LibError msg)
  end.

Definition marshal_pkcs8 (k : privateKey Byte.byte Byte.byte) : result bytes :=
  match k with
  | ECDSAKey d => Ok [tagPKCS8; tagEC; d]
  | RSAKey d => Ok [tagPKCS8; tagRSA; d]
  end.

Definition parse_pkcs8 (der : bytes) : result (privateKey Byte.byte Byte.byte) :=
  match der with
  | t8 :: t :: d :: _ =>
      if decide (t8 = tagPKCS8 ∧ t = tagEC) then Ok (ECDSAKey d)
      else if decide (t8 = tagPKCS8 ∧ t = tagRSA) then Ok (RSAKey d)
      else Err (LibError "x509: failed to parse private key")
  | _ => Err (LibError "x509: failed to parse private key")
  end.

#[export] Instance x509 : X509Pkg := {|
  ecKey := Byte.byte;
  rsaKey := Byte.byte;
  x509_ParseCertificate := parse_certificate;
  x509_ParseECPrivateKey := parse_tagged tagEC "x509: failed to parse EC private key";
  x509_ParsePKCS1PrivateKey := parse_tagged tagRSA "x509: failed to parse private key";
  x509_MarshalPKCS8PrivateKey := marshal_pkcs8;
  x509_ParsePKCS8PrivateKey := parse_pkcs8
|}.

(** *** [encoding/json], a stand-in *)

Definition dq : string := String (Ascii.ascii_of_nat 34) EmptyString.
Definition quoted (s : string) : string := dq +:+ s +:+ dq.
Definition field (name value : string) : string := quoted name +:+ ":" +:+ value.

Fixpoint commas (items : list string) : string :=
  match items with
  | [] => EmptyString
  | [x] => x
  | x :: items' => x +:+ "," +:+ commas items'
  end.

Definition array (items : list string) : string := "[" +:+ commas items +:+ "]".
Definition object (fields : list string) : string := "{" +:+ commas fields +:+ "}".

(** [json.Marshal] of a [trustKey] (plain text in every field; a [nil]
    slice is written [null]). *)
Definition render_key (k : trustKey) : string :=
  object [ field "use" (quoted (Use k)); field "kty" (quoted (Kty k));
           field "crv" (quoted (Crv k)); field "x" (quoted (X k));
           field "y" (quoted (Y k));
           field "x5c" (match X5C k with
                        | [] => "null"
                        | x5c => array (quoted <$> x5c)
                        end) ].

Definition render_entry (e : trustDomainEntry) : string :=
  object [ field "keys" (array (render_key <$> Keys e));
           field "spiffe_sequence" (pretty (SpiffeSequence e)) ].

(** The document [trust_bundles.json] holds for [tb]. *)
Definition render_file (tb : trustBundlesFile) : string :=
  object [ field "trust_domains"
             (object ((λ '(domain, e), field domain (render_entry e))
                        <$> map_to_list (TrustDomains tb))) ].

(** [json.Unmarshal] on the documents in [known], on [{}], and on nothing
    else: enough to read back what [render_file] wrote. *)
Definition unmarshal (known : list trustBundlesFile) (data : bytes)
  : result trustBundlesFile :=
  if decide (data = bytes_of "{}") then Ok {| TrustDomains := ∅ |}
  else
    match list_find (λ tb, bytes_of (render_file tb) = data) known with
    | Some (_, tb) => Ok tb
    | None => Err (LibError "json: cannot unmarshal")
    end.

Definition json_with (known : list trustBundlesFile) : JsonPkg := {|
  json_Unmarshal := unmarshal known;
  json_Marshal_trustKey k := Ok (bytes_of (render_key k));
  json_Marshal_jwks keys :=
    Ok (bytes_of (object [ field "keys" (array (String.string_of_list_byte <$> keys)) ]))
|}.

(** *** [range] *)

#[export] Instance range : MapRange := {|
  range_order K _ _ V m := map_to_list m;
  range_order_perm K _ _ V m := reflexivity _
|}.

End Demo.

(** ** [crypto/x509] on real documents

    EC private keys and the URI SANs of a certificate, in DER.  The key
    functions follow the package's [parseECPrivateKey],
    [marshalECPrivateKeyWithOID], [ParsePKCS8PrivateKey] and
    [MarshalPKCS8PrivateKey] step by step, over a reader of DER elements
    and the curves P-224, P-256, P-384 and P-521.  Two parts of the package
    are left out: RSA keys (the instance answers every RSA document with
    an error), and what [ParseCertificate] checks in a certificate besides
    reading its URI SANs (a document is accepted when the path to the SAN
    extension can be walked). *)

Module Documents.

(** *** DER *)

Definition tagINTEGER : Byte.byte := Byte.x02.
Definition tagBITSTRING : Byte.byte := Byte.x03.
Definition tagOCTETSTRING : Byte.byte := Byte.x04.
Definition tagOID : Byte.byte := Byte.x06.
Definition tagSEQUENCE : Byte.byte := Byte.x30.
Definition tagExplicit0 : Byte.byte := Byte.xa0.            (* [0], constructed *)
Definition tagExplicit1 : Byte.byte := Byte.xa1.            (* [1], constructed *)
Definition tagExplicit3 : Byte.byte := Byte.xa3.            (* [3], constructed *)
Definition tagURI : Byte.byte := Byte.x86.                  (* [6], primitive *)

Definition byte_Z (b : Byte.byte) : Z := Z.of_N (Byte.to_N b).
Definition Z_byte (z : Z) : Byte.byte := default Byte.x00 (Byte.of_N (Z.to_N (z `mod` 256))).

(** [big.Int.SetBytes]: the big-endian number. *)
Definition be_Z (l : bytes) : Z := fold_left (λ n b, n * 256 + byte_Z b)%Z l 0%Z.

(** [big.Int.FillBytes]: the big-endian number in [size] bytes. *)
Fixpoint Z_be (size : nat) (z : Z) : bytes :=
  match size with
  | O => []
  | S size' => Z_be size' (z / 256) ++ [Z_byte z]
  end.

(** The big-endian number in as few bytes as it takes (none for [0]). *)
Definition Z_be_minimal (z : Z) : bytes := Z_be (Z.to_nat ((Z.log2 z + 8) / 8)) z.

(** The length octets: one octet below 128, else the count of octets and
    the number, in as few octets as it takes. *)
Definition read_length (data : bytes) : option (nat * bytes) :=
  match data with
  | [] => None
  | b :: rest =>
      if decide (byte_Z b < 128)%Z then Some (Z.to_nat (byte_Z b), rest)
      else
        let k := Z.to_nat (byte_Z b - 128) in
        let v := be_Z (take k rest) in
        if decide (k = 0 ∨ length rest < k) then None
        else if decide (v < 128 ∨ v < 256 ^ (Z.of_nat k - 1))%Z then None
        else Some (Z.to_nat v, drop k rest)
  end.

Definition write_length (n : nat) : bytes :=
  if decide (n < 128) then [Z_byte (Z.of_nat n)]
  else
    let l := Z_be_minimal (Z.of_nat n) in
    Z_byte (128 + Z.of_nat (length l)) :: l.

(** One element: its identifier octet, its contents, and what follows it.
    Tag numbers above 30, which take more than one identifier octet, are
    not read. *)
Definition read_element (data : bytes) : option (Byte.byte * bytes * bytes) :=
  match data with
  | [] => None
  | tag :: r =>
      if decide (byte_Z tag `mod` 32 = 31)%Z then None
      else
        '(len, r') ← read_length r;
        if decide (len ≤ length r') then Some (tag, take len r', drop len r') else None
  end.

Definition element (tag : Byte.byte) (contents : bytes) : bytes :=
  tag :: write_length (length contents) ++ contents.

(** The contents of an element that must have the identifier [tag]. *)
Definition expect (tag : Byte.byte) (data : bytes) : option (bytes * bytes) :=
  '(t, contents, rest) ← read_element data;
  if decide (t = tag) then Some (contents, rest) else None.

(** An INTEGER: two's complement, in as few octets as it takes. *)
Definition minimal_INTEGER (c : bytes) : bool :=
  match c with
  | [] => false
  | [_] => true
  | b0 :: b1 :: _ =>
      negb (bool_decide ((byte_Z b0 = 0 ∧ byte_Z b1 < 128)
                         ∨ (byte_Z b0 = 255 ∧ 128 ≤ byte_Z b1))%Z)
  end.

Definition read_INTEGER (data : bytes) : option (Z * bytes) :=
  '(c, rest) ← expect tagINTEGER data;
  if negb (minimal_INTEGER c) then None
  else if decide (byte_Z (default Byte.x00 (head c)) < 128)%Z then Some (be_Z c, rest)
  else Some (be_Z c - 256 ^ Z.of_nat (length c), rest)%Z.

(** A BIT STRING: the count of unused bits, then the bits. *)
Definition read_BITSTRING (data : bytes) : option (bytes * bytes) :=
  '(c, rest) ← expect tagBITSTRING data;
  match c with
  | [] => None
  | unused :: bits =>
      if decide (7 < byte_Z unused ∨ (bits = [] ∧ byte_Z unused ≠ 0))%Z then None
      else Some (bits, rest)
  end.

(** *** The NIST curves *)

Inductive curve : Type := P224 | P256 | P384 | P521.

#[export] Instance curve_eq_dec : EqDecision curve.
Proof. solve_decision. Defined.

(** [elliptic.CurveParams]; [a] is [-3] on these curves. *)
Record CurveParams : Type := mkCurveParams {
  Curve_P : Z;
  Curve_N : Z;
  Curve_B : Z;
  Curve_Gx : Z;
  Curve_Gy : Z;
  Curve_BitSize : Z
}.

Definition Params (c : curve) : CurveParams :=
  match c with
  | P224 =>
      {| Curve_P := 0xffffffffffffffffffffffffffffffff000000000000000000000001;
         Curve_N := 0xffffffffffffffffffffffffffff16a2e0b8f03e13dd29455c5c2a3d;
         Curve_B := 0xb4050a850c04b3abf54132565044b0b7d7bfd8ba270b39432355ffb4;
         Curve_Gx := 0xb70e0cbd6bb4bf7f321390b94a03c1d356c21122343280d6115c1d21;
         Curve_Gy := 0xbd376388b5f723fb4c22dfe6cd4375a05a07476444d5819985007e34;
         Curve_BitSize := 224 |}
  | P256 =>
      {| Curve_P := 0xffffffff00000001000000000000000000000000ffffffffffffffffffffffff;
         Curve_N := 0xffffffff00000000ffffffffffffffffbce6faada7179e84f3b9cac2fc632551;
         Curve_B := 0x5ac635d8aa3a93e7b3ebbd55769886bc651d06b0cc53b0f63bce3c3e27d2604b;
         Curve_Gx := 0x6b17d1f2e12c4247f8bce6e563a440f277037d812deb33a0f4a13945d898c296;
         Curve_Gy := 0x4fe342e2fe1a7f9b8ee7eb4a7c0f9e162bce33576b315ececbb6406837bf51f5;
         Curve_BitSize := 256 |}
  | P384 =>
      {| Curve_P := 0xfffffffffffffffffffffffffffffffffffffffffffffffffffffffffffffffeffffffff0000000000000000ffffffff;
         Curve_N := 0xffffffffffffffffffffffffffffffffffffffffffffffffc7634d81f4372ddf581a0db248b0a77aecec196accc52973;
         Curve_B := 0xb3312fa7e23ee7e4988e056be3f82d19181d9c6efe8141120314088f5013875ac656398d8a2ed19d2a85c8edd3ec2aef;
         Curve_Gx := 0xaa87ca22be8b05378eb1c71ef320ad746e1d3b628ba79b9859f741e082542a385502f25dbf55296c3a545e3872760ab7;
         Curve_Gy := 0x3617de4a96262c6f5d9e98bf9292dc29f8f41dbd289a147ce9da3113b5f0b8c00a60b1ce1d7e819d7a431d7c90ea0e5f;
         Curve_BitSize := 384 |}
  | P521 =>
      {| Curve_P := 0x1ffffffffffffffffffffffffffffffffffffffffffffffffffffffffffffffffffffffffffffffffffffffffffffffffffffffffffffffffffffffffffffffffff;
         Curve_N := 0x1fffffffffffffffffffffffffffffffffffffffffffffffffffffffffffffffffa51868783bf2f966b7fcc0148f709a5d03bb5c9b8899c47aebb6fb71e91386409;
         Curve_B := 0x51953eb9618e1c9a1f929a21a0b68540eea2da725b99b315f3b8b489918ef109e156193951ec7e937b1652c0bd3bb1bf073573df883d2c34f1ef451fd46b503f00;
         Curve_Gx := 0xc6858e06b70404e9cd9e3ecb662395b4429c648139053fb521f828af606b4d3dbaa14b5e77efe75928fe1dc127a2ffa8de3348b3c1856a429bf97e7e31c2e5bd66;
         Curve_Gy := 0x11839296a789a3bc0045c8a5fb42c7d1bd998f54449579b446817afbd17273e662c97ee72995ef42640c550b9013fad0761353c7086a272c24088be94769fd16650;
         Curve_BitSize := 521 |}
  end.

(** The contents of the curves' object identifiers. *)
Definition oidNamedCurve (c : curve) : bytes :=
  match c with
  | P224 => [Byte.x2b; Byte.x81; Byte.x04; Byte.x00; Byte.x21]
  | P256 => [Byte.x2a; Byte.x86; Byte.x48; Byte.xce; Byte.x3d; Byte.x03; Byte.x01; Byte.x07]
  | P384 => [Byte.x2b; Byte.x81; Byte.x04; Byte.x00; Byte.x22]
  | P521 => [Byte.x2b; Byte.x81; Byte.x04; Byte.x00; Byte.x23]
  end.

Definition namedCurveFromOID (oid : bytes) : option curve :=
  list_find (λ c, oidNamedCurve c = oid) [P224; P256; P384; P521] ≫= λ '(_, c), Some c.

(** [id-ecPublicKey], 1.2.840.10045.2.1. *)
Definition oidPublicKeyECDSA : bytes :=
  [Byte.x2a; Byte.x86; Byte.x48; Byte.xce; Byte.x3d; Byte.x02; Byte.x01].

(** The group law, on machine numbers.  A point is [(x, y)] or the point
    at infinity, [None]. *)
Section Group.
Variable p : bigZ.
Variable bits : nat.

(** The inverse modulo [p], by Euclid's algorithm. *)
Fixpoint euclid (fuel : nat) (r0 r1 t0 t1 : bigZ) : bigZ :=
  match fuel with
  | O => t0
  | S fuel' =>
      if BigZ.eqb r1 0 then t0
      else
        let q := BigZ.div r0 r1 in
        euclid fuel' r1 (BigZ.sub r0 (BigZ.mul q r1)) t1 (BigZ.sub t0 (BigZ.mul q t1))
  end.

Definition inverse (a : bigZ) : bigZ :=
  BigZ.modulo (euclid (2 * bits + 2) p (BigZ.modulo a p) 0 1)%bigZ p.

Definition add (p1 p2 : option (bigZ * bigZ)) : option (bigZ * bigZ) :=
  match p1, p2 with
  | None, _ => p2
  | _, None => p1
  | Some (x1, y1), Some (x2, y2) =>
      let slope (l : bigZ) :=
        let x3 := ((l * l - x1 - x2) mod p)%bigZ in
        Some (x3, ((l * (x1 - x3) - y1) mod p)%bigZ) in
      if BigZ.eqb x1 x2 then
        if BigZ.eqb ((y1 + y2) mod p)%bigZ 0 then None
        else slope (((3 * x1 * x1 - 3) * inverse (2 * y1)) mod p)%bigZ
      else slope (((y2 - y1) * inverse (x2 - x1)) mod p)%bigZ
  end.

Fixpoint mul (k : positive) (g : option (bigZ * bigZ)) : option (bigZ * bigZ) :=
  match k with
  | xH => g
  | xO k' => let q := mul k' g in add q q
  | xI k' => let q := mul k' g in add (add q q) g
  end.

End Group.

(** [Curve.ScalarBaseMult]: [k] times the base point; the point at infinity
    comes back as [(0, 0)]. *)
Definition ScalarBaseMult (c : curve) (k : Z) : Z * Z :=
  let cp := Params c in
  match k with
  | Zpos k =>
      match mul (BigZ.of_Z (Curve_P cp)) (Z.to_nat (Curve_BitSize cp)) k
              (Some (BigZ.of_Z (Curve_Gx cp), BigZ.of_Z (Curve_Gy cp))) with
      | Some (x, y) => (BigZ.to_Z x, BigZ.to_Z y)
      | None => (0, 0)%Z
      end
  | _ => (0, 0)%Z
  end.

(** [Curve.IsOnCurve]. *)
Definition IsOnCurve (c : curve) (x y : Z) : bool :=
  let cp := Params c in
  bool_decide (0 ≤ x < Curve_P cp ∧ 0 ≤ y < Curve_P cp
               ∧ (x, y) ≠ (0, 0)
               ∧ (y * y) `mod` Curve_P cp
                 = (x * x * x - 3 * x + Curve_B cp) `mod` Curve_P cp)%Z.

(** The byte length of a coordinate and of a private scalar. *)
Definition byteLen (c : curve) : nat := Z.to_nat ((Curve_BitSize (Params c) + 7) / 8).

(** [elliptic.Marshal]: the uncompressed point. *)
Definition Marshal (c : curve) (x y : Z) : bytes :=
  Byte.x04 :: Z_be (byteLen c) x ++ Z_be (byteLen c) y.

(** *** EC private keys *)

(** [ecdsa.PrivateKey]. *)
Record PrivateKey : Type := mkPrivateKey {
  Curve : curve;
  PubX : Z;                                 (* PublicKey.X *)
  PubY : Z;                                 (* PublicKey.Y *)
  D : Z
}.

Definition lib {A : Type} (msg : string) (o : option A) : result A :=
  match o with
  | Some a => Ok a
  | None => Err (LibError msg)
  end.

(** The fields of an [ECPrivateKey]: version, private key octets, and the
    curve, if the document names it.  The public key, if there, has to be
    a BIT STRING and is not looked at further; elements after it are let
    pass, as is what follows the document. *)
Definition read_ecPrivateKey (der : bytes) : option (Z * bytes * option bytes) :=
  '(body, _) ← expect tagSEQUENCE der;
  '(version, r1) ← read_INTEGER body;
  '(priv, r2) ← expect tagOCTETSTRING r1;
  '(oid, r3) ← match read_element r2 with
               | Some (t, c, r3) =>
                   if decide (t = tagExplicit0) then
                     '(oid, _) ← expect tagOID c; Some (Some oid, r3)
                   else Some (None, r2)
               | None => if decide (r2 = []) then Some (None, r2) else None
               end;
  _ ← match read_element r3 with
      | Some (t, c, _) =>
          if decide (t = tagExplicit1) then _ ← read_BITSTRING c; Some ()
          else Some ()
      | None => if decide (r3 = []) then Some () else None
      end;
  Some (version, priv, oid).

(** [parseECPrivateKey(namedCurveOID, der)]. *)
Definition parseECPrivateKey (namedCurveOID : option bytes) (der : bytes)
  : result PrivateKey :=
  '(version, priv, oid) ← lib "x509: failed to parse EC private key" (read_ecPrivateKey der);
  if decide (version ≠ 1%Z) then Err (LibError "x509: unknown EC private key version")
  else
    c ← lib "x509: unknown elliptic curve"
          (namedCurveFromOID (default (default [] oid) namedCurveOID));
    let k := be_Z priv in
    if decide (Curve_N (Params c) ≤ k)%Z then
      Err (LibError "x509: invalid elliptic curve private key value")
    else if decide (be_Z (take (length priv - byteLen c) priv) ≠ 0%Z) then
      Err (LibError "x509: invalid private key length")
    else
      let '(x, y) := ScalarBaseMult c k in
      Ok {| Curve := c; PubX := x; PubY := y; D := k |}.

(** [marshalECPrivateKeyWithOID(key, nil)]. *)
Definition marshalECPrivateKey (key : PrivateKey) : result bytes :=
  if IsOnCurve (Curve key) (PubX key) (PubY key) then
    Ok (element tagSEQUENCE
          (element tagINTEGER [Byte.x01]
           ++ element tagOCTETSTRING (Z_be (byteLen (Curve key)) (D key))
           ++ element tagExplicit1
                (element tagBITSTRING
                   (Byte.x00 :: Marshal (Curve key) (PubX key) (PubY key)))))
  else Err (LibError "invalid elliptic key public key").

(** [MarshalPKCS8PrivateKey] of an [ecdsa.PrivateKey]. *)
Definition marshalPKCS8 (key : PrivateKey) : result bytes :=
  inner ← marshalECPrivateKey key;
  Ok (element tagSEQUENCE
        (element tagINTEGER [Byte.x00]
         ++ element tagSEQUENCE
              (element tagOID oidPublicKeyECDSA
               ++ element tagOID (oidNamedCurve (Curve key)))
         ++ element tagOCTETSTRING inner)).

(** The fields of a [PrivateKeyInfo]: algorithm, its parameters, and the
    private key octets. *)
Definition read_pkcs8 (der : bytes) : option (bytes * bytes * bytes) :=
  '(body, _) ← expect tagSEQUENCE der;
  '(_, r1) ← read_INTEGER body;
  '(algo, r2) ← expect tagSEQUENCE r1;
  '(oid, params) ← expect tagOID algo;
  '(priv, _) ← expect tagOCTETSTRING r2;
  Some (oid, params, priv).

(** [ParsePKCS8PrivateKey], for the algorithm [id-ecPublicKey]. *)
Definition parsePKCS8 (der : bytes) : result PrivateKey :=
  '(oid, params, priv) ← lib "x509: failed to parse private key" (read_pkcs8 der);
  if decide (oid = oidPublicKeyECDSA) then
    parseECPrivateKey (fst <$> expect tagOID params) priv
  else Err (LibError "x509: PKCS#8 wrapping contained private key with unknown algorithm").

(** *** The URI SANs of a certificate *)

(** [id-ce-subjectAltName], 2.5.29.17. *)
Definition oidExtensionSubjectAltName : bytes := [Byte.x55; Byte.x1d; Byte.x11].

(** The elements of a SEQUENCE OF, one after the other. *)
Fixpoint elements (fuel : nat) (data : bytes) : option (list (Byte.byte * bytes)) :=
  match fuel, data with
  | _, [] => Some []
  | O, _ => None
  | S fuel', _ =>
      '(t, c, rest) ← read_element data;
      tl ← elements fuel' rest;
      Some ((t, c) :: tl)
  end.

(** The element with the identifier [tag] at the head of [data], if it is
    there. *)
Definition optional (tag : Byte.byte) (data : bytes) : option bytes * bytes :=
  match expect tag data with
  | Some (c, rest) => (Some c, rest)
  | None => (None, data)
  end.

(** The extensions of a certificate: [tbsCertificate] field by field up to
    the [[3]] element. *)
Definition read_extensions (der : bytes) : option (list (Byte.byte * bytes)) :=
  '(cert, _) ← expect tagSEQUENCE der;
  '(tbs, _) ← expect tagSEQUENCE cert;
  let '(_, r0) := optional tagExplicit0 tbs in             (* version *)
  '(_, r1) ← read_INTEGER r0;                              (* serialNumber *)
  '(_, r2) ← expect tagSEQUENCE r1;                        (* signature *)
  '(_, r3) ← expect tagSEQUENCE r2;                        (* issuer *)
  '(_, r4) ← expect tagSEQUENCE r3;                        (* validity *)
  '(_, r5) ← expect tagSEQUENCE r4;                        (* subject *)
  '(_, r6) ← expect tagSEQUENCE r5;                        (* subjectPublicKeyInfo *)
  let '(_, r7) := optional Byte.x81 r6 in                  (* issuerUniqueID *)
  let '(_, r8) := optional Byte.x82 r7 in                  (* subjectUniqueID *)
  match optional tagExplicit3 r8 with
  | (Some exts, _) =>
      '(seq, _) ← expect tagSEQUENCE exts;
      elements (length seq) seq
  | (None, _) => Some []
  end.

(** The value of the extension [oid] among [exts]. *)
Fixpoint extension (oid : bytes) (exts : list (Byte.byte * bytes)) : option bytes :=
  match exts with
  | [] => None
  | (_, ext) :: exts' =>
      match expect tagOID ext with
      | Some (id, r) =>
          if decide (id = oid) then
            fst <$> expect tagOCTETSTRING (optional Byte.x01 r).2   (* critical, extnValue *)
          else extension oid exts'
      | None => extension oid exts'
      end
  end.

(** The texts of the [uniformResourceIdentifier] names of a certificate. *)
Definition uriSANs (der : bytes) : option (list bytes) :=
  exts ← read_extensions der;
  match extension oidExtensionSubjectAltName exts with
  | None => Some []
  | Some value =>
      '(names, _) ← expect tagSEQUENCE value;
      names ← elements (length names) names;
      Some (snd <$> filter (λ n, n.1 = tagURI) names)
  end.

(** [ParseCertificate], as far as the field [URIs] goes: the certificate's
    other fields are passed over, not checked. *)
Definition parseCertificate (der : bytes) : result Certificate :=
  texts ← lib "x509: malformed certificate" (uriSANs der);
  uris ← lib "x509: cannot parse URI" (mapM Demo.parse_uri texts);
  Ok {| URIs := uris |}.

(** The package on EC keys.  RSA documents are not covered: the instance
    answers every one of them with an error. *)
#[export] Instance x509 : X509Pkg := {|
  ecKey := PrivateKey;
  rsaKey := Empty_set;
  x509_ParseCertificate := parseCertificate;
  x509_ParseECPrivateKey := parseECPrivateKey None;
  x509_ParsePKCS1PrivateKey _ := Err (LibError "x509: RSA keys are not covered");
  x509_MarshalPKCS8PrivateKey k :=
    match k with
    | ECDSAKey key => marshalPKCS8 key
    | RSAKey key => match key with end
    end;
  x509_ParsePKCS8PrivateKey der := ECDSAKey <$> parsePKCS8 der
|}.

End Documents.

(** ** The error taxonomy

    The specification sorts errors into kinds; [kind_of] reads that sorting
    onto the decoder's error sites.  Errors the taxonomy has no name for
    (a marshalling failure of [crypto/x509], the builders' wrappers) have
    no kind. *)

Inductive errorKind : Type := IOError | ParseError | UnsupportedFormat | MissingIdentity.

Definition kind_of (e : error) : option errorKind :=
  match e with
  | ErrRead _ _ => Some IOError
  | ErrNoPEMBlock _ | ErrParseEC _ | ErrParseRSA _ | ErrParseTrustBundles _
  | ErrParseLeaf _ => Some ParseError
  | ErrUnsupportedPEMType _ _ => Some UnsupportedFormat
  | ErrNoURISANs => Some MissingIdentity
  | _ => None
  end.

(** ** Key documents

    [malformed_key block]: the package's parser for the format the block is
    labelled with rejects the block's bytes.  [converted_key block k]: the
    block is an EC or RSA document and parses to the key [k]. *)

Section KeyDocuments.
Context {x509 : X509Pkg}.

Definition malformed_key (block : Block) : Prop :=
  (BlockType block = "PRIVATE KEY" ∧ is_Err (x509_ParsePKCS8PrivateKey (Bytes block)))
  ∨ (BlockType block = "EC PRIVATE KEY" ∧ is_Err (x509_ParseECPrivateKey (Bytes block)))
  ∨ (BlockType block = "RSA PRIVATE KEY" ∧ is_Err (x509_ParsePKCS1PrivateKey (Bytes block))).

Inductive converted_key (block : Block) : privateKey ecKey rsaKey → Prop :=
| converted_ec k :
    BlockType block = "EC PRIVATE KEY" →
    x509_ParseECPrivateKey (Bytes block) = Ok k → converted_key block (ECDSAKey k)
| converted_rsa k :
    BlockType block = "RSA PRIVATE KEY" →
    x509_ParsePKCS1PrivateKey (Bytes block) = Ok k → converted_key block (RSAKey k).

End KeyDocuments.

Section Certificates.
Context {pem : PemPkg} {x509 : X509Pkg}.

(** [certificates.pem] holds no certificate the builders could use: it
    cannot be read, or no PEM block is found in it, or its first block
    is not a certificate. *)
Definition no_valid_certificate (fs : CredsDir) : Prop :=
  fs !! "certificates.pem" = None
  ∨ loadPEMDERs fs "certificates.pem" = Ok []
  ∨ ∃ der ders e, loadPEMDERs fs "certificates.pem" = Ok (der :: ders)
                  ∧ x509_ParseCertificate der = Err e.

End Certificates.

(** ** What a trust domain contributes

    The bundle builders loop over the trust domains, and for a domain over
    its keys and their [x5c] entries.  The functions below say what one
    domain contributes, without the loops: the keys of the use in question,
    their entries decoded or marshalled in order (the first failure is the
    error), and the map entry made of them, if any. *)

Definition trust_domain_id (domain : string) : string := "spiffe://" +:+ domain.

(** The [x5c] entries of the [x509-svid] keys, key by key. *)
Definition x509_x5c (keys : list trustKey) : list string :=
  concat (X5C <$> filter (λ key, Use key = "x509-svid") keys).

Definition jwt_svid_keys (keys : list trustKey) : list trustKey :=
  filter (λ key, Use key = "jwt-svid") keys.

Section Contributions.
Context {b64 : Base64Pkg} {json : JsonPkg}.

Fixpoint decode_entries (x5c : list string) : result (list bytes) :=
  match x5c with
  | [] => Ok []
  | b64cert :: x5c' =>
      der ← base64_DecodeString b64cert;
      ders ← decode_entries x5c';
      Ok (der :: ders)
  end.

Fixpoint marshal_keys (keys : list trustKey) : result (list bytes) :=
  match keys with
  | [] => Ok []
  | key :: keys' =>
      doc ← json_Marshal_trustKey key;
      docs ← marshal_keys keys';
      Ok (doc :: docs)
  end.

(** The X.509 bundle of a federated domain: none for the local domain and
    for a domain without [x5c] entries. *)
Definition federated_bundle (localTD : string) (de : string * trustDomainEntry)
  : result (option bytes) :=
  if decide (trust_domain_id de.1 = localTD) then Ok None
  else
    ders ← wrap (ErrDecodeX5C de.1) (decode_entries (x509_x5c (Keys de.2)));
    if decide (0 < length ders) then Ok (Some (concatDERs ders)) else Ok None.

(** The JWT bundle of a domain: none for a domain without [jwt-svid] keys. *)
Definition jwt_bundle (de : string * trustDomainEntry) : result (option bytes) :=
  docs ← wrap (ErrMarshalJWTKey de.1) (marshal_keys (jwt_svid_keys (Keys de.2)));
  if decide (length docs = 0) then Ok None
  else
    jwksJSON ← wrap (ErrMarshalJWKS de.1) (json_Marshal_jwks docs);
    Ok (Some jwksJSON).

End Contributions.

(** A loop that asks each element for a contribution and stores it under
    the element's key, stopping at the first error. *)
Section Collect.
Context {A : Type}.
Variable key : A → string.
Variable contribution : A → result (option bytes).

Fixpoint collect (l : list A) (m : gmap string bytes) : result (gmap string bytes) :=
  match l with
  | [] => Ok m
  | a :: l' =>
      c ← contribution a;
      collect l' (match c with
                  | Some v => <[key a := v]> m
                  | None => m
                  end)
  end.

End Collect.

(** A trust domain entry without the keys of other uses than [jwt-svid]. *)
Definition only_jwt_svid (entry : trustDomainEntry) : trustDomainEntry :=
  {| Keys := jwt_svid_keys (Keys entry); SpiffeSequence := SpiffeSequence entry |}.

Definition strip_other_uses (tb : trustBundlesFile) : trustBundlesFile :=
  {| TrustDomains := only_jwt_svid <$> TrustDomains tb |}.

(** [encoding/json] with [f] applied to what [Unmarshal] returns. *)
Definition with_Unmarshal_then (f : trustBundlesFile → trustBundlesFile) (P : JsonPkg)
  : JsonPkg :=
  {| json_Unmarshal data := f <$> @json_Unmarshal P data;
     json_Marshal_trustKey := @json_Marshal_trustKey P;
     json_Marshal_jwks := @json_Marshal_jwks P |}.

(** ** Variations of the packages

    To say that a result does not depend on something a package returns,
    the package is changed there and the result compared. *)

Definition retype_block (f : string → string) (b : Block) : Block :=
  {| BlockType := f (BlockType b); Headers := Headers b; Bytes := Bytes b |}.

(** [encoding/pem] with every block's type label [T] turned into [f T]. *)
Program Definition retype (f : string → string) (P : PemPkg) : PemPkg :=
  {| pem_Decode data :=
       ((retype_block f <$> (@pem_Decode P data).1), (@pem_Decode P data).2) |}.
Next Obligation.
  intros f P data rest H. simpl in H.
  destruct (@pem_Decode P data) as [[b|] r] eqn:E; simpl in H.
  - discriminate H.
  - injection H as <-. by apply (@pem_Decode_nil P) in E.
Qed.
Next Obligation.
  intros f P data block rest H. simpl in H.
  destruct (@pem_Decode P data) as [[b|] r] eqn:E; simpl in H.
  - injection H as _ <-. by apply (@pem_Decode_shrinks P) in E.
  - discriminate H.
Qed.

(** [crypto/x509] with [g] for [x509.ParseCertificate]. *)
Definition with_ParseCertificate (g : bytes → result Certificate) (P : X509Pkg) : X509Pkg :=
  {| ecKey := @ecKey P;
     rsaKey := @rsaKey P;
     x509_ParseCertificate := g;
     x509_ParseECPrivateKey := @x509_ParseECPrivateKey P;
     x509_ParsePKCS1PrivateKey := @x509_ParsePKCS1PrivateKey P;
     x509_MarshalPKCS8PrivateKey := @x509_MarshalPKCS8PrivateKey P;
     x509_ParsePKCS8PrivateKey := @x509_ParsePKCS8PrivateKey P |}.

(** ** Sample directories *)

Module Samples.
Import Demo.

Definition nl : string := String (Ascii.ascii_of_nat 10) EmptyString.

(** One armored block. *)
Definition armor (ty body : string) : bytes :=
  bytes_of ("-----BEGIN " +:+ ty +:+ "-----" +:+ nl +:+ body +:+ nl
            +:+ "-----END " +:+ ty +:+ "-----" +:+ nl).

(** The leaf, with the URI SAN [spiffe://example.org/workload]. *)
Definition leaf_pem : bytes :=
  armor "CERTIFICATE" "MHNwaWZmZTovL2V4YW1wbGUub3JnL3dvcmtsb2Fk".
(** A CA certificate (no URI SAN). *)
Definition ca_pem : bytes := armor "CERTIFICATE" "MA==".

(** The key [7] in its three formats. *)
Definition key_ec_pem : bytes := armor "EC PRIVATE KEY" "RQc=".
Definition key_rsa_pem : bytes := armor "RSA PRIVATE KEY" "Ugc=".
Definition key_ec_pkcs8_pem : bytes := armor "PRIVATE KEY" "OEUH".
Definition key_rsa_pkcs8_pem : bytes := armor "PRIVATE KEY" "OFIH".
(** A [PRIVATE KEY] block holding the single byte [0x00]. *)
Definition key_garbage_pem : bytes := armor "PRIVATE KEY" "AA==".
Definition key_dsa_pem : bytes := armor "DSA PRIVATE KEY" "AA==".
Definition key_ec_garbage_pem : bytes := armor "EC PRIVATE KEY" "AA==".

Definition jwt_key : trustKey :=
  {| Use := "jwt-svid"; Kty := "EC"; Crv := "P-256"; X := "eA"; Y := "eQ"; X5C := [] |}.
Definition x509_key (x5c : list string) : trustKey :=
  {| Use := "x509-svid"; Kty := "EC"; Crv := "P-256"; X := "eA"; Y := "eQ"; X5C := x5c |}.
Definition enc_key : trustKey :=
  {| Use := "enc"; Kty := "EC"; Crv := "P-256"; X := "eA"; Y := "eQ"; X5C := ["AAEC"] |}.

(** One federated domain with a [jwt-svid] key and no [x509-svid] key. *)
Definition tb_jwt_only : trustBundlesFile :=
  {| TrustDomains := {[ "other.org" := {| Keys := [jwt_key]; SpiffeSequence := 1 |} ]} |}.

(** The local domain named again, and a federated domain with keys of
    three uses. *)
Definition tb_mixed : trustBundlesFile :=
  {| TrustDomains :=
       {[ "example.org" := {| Keys := [x509_key ["AAEC"]]; SpiffeSequence := 1 |};
          "other.org" := {| Keys := [enc_key; x509_key ["AAEC"; "MA=="]; jwt_key];
                            SpiffeSequence := 2 |} ]} |}.

(** A federated domain whose second [x5c] entry is not base64, next to a
    well-formed one. *)
Definition tb_bad_x5c : trustBundlesFile :=
  {| TrustDomains :=
       {[ "good.org" := {| Keys := [x509_key ["AAEC"]]; SpiffeSequence := 1 |};
          "other.org" := {| Keys := [x509_key ["AAEC"; "!!"]]; SpiffeSequence := 1 |} ]} |}.

(** A federated domain whose only [x5c] entry is the empty string. *)
Definition tb_empty_entry : trustBundlesFile :=
  {| TrustDomains :=
       {[ "other.org" := {| Keys := [x509_key [EmptyString]]; SpiffeSequence := 1 |} ]} |}.

#[export] Instance json : JsonPkg :=
  json_with [tb_jwt_only; tb_mixed; tb_bad_x5c; tb_empty_entry].

Definition dir_with (tb : bytes) : CredsDir :=
  {[ "certificates.pem" := leaf_pem;
     "private_key.pem" := key_ec_pem;
     "ca_certificates.pem" := ca_pem;
     "trust_bundles.json" := tb ]}.

Definition dir_jwt_only : CredsDir := dir_with (bytes_of (render_file tb_jwt_only)).
Definition dir_mixed : CredsDir := dir_with (bytes_of (render_file tb_mixed)).
Definition dir_bad_x5c : CredsDir := dir_with (bytes_of (render_file tb_bad_x5c)).

(** Only [trust_bundles.json], holding the empty document. *)
Definition dir_no_certificates : CredsDir := {[ "trust_bundles.json" := bytes_of "{}" ]}.

(** [certificates.pem] holding text that is no PEM block. *)
Definition dir_garbled_certificates : CredsDir :=
  <["certificates.pem" := bytes_of "not a certificate"]> dir_jwt_only.

Definition dir_with_key (key : bytes) : CredsDir :=
  <["private_key.pem" := key]> dir_jwt_only.

(** The three formats of the key side by side, the PKCS#8 one as the
    marshaller writes it. *)
Definition dir_three_keys : CredsDir :=
  {[ "pkcs8.pem" := key_ec_pkcs8_pem; "pkcs8_rsa.pem" := key_rsa_pkcs8_pem;
     "ec.pem" := key_ec_pem; "rsa.pem" := key_rsa_pem ]}.

(** [certificates.pem] with a [PRIVATE KEY] block after the leaf. *)
Definition dir_key_in_chain : CredsDir :=
  <["certificates.pem" := leaf_pem ++ key_ec_pkcs8_pem]> dir_jwt_only.

(** [certificates.pem] cut off in the middle of its second block. *)
Definition truncated_chain : bytes :=
  leaf_pem ++ bytes_of ("-----BEGIN CERTIFICATE-----" +:+ nl +:+ "MA").
Definition dir_truncated_chain : CredsDir :=
  <["certificates.pem" := truncated_chain]> dir_jwt_only.

(** The directory in the middle of a rotation: the key file is not there. *)
Definition dir_no_key : CredsDir := delete "private_key.pem" dir_jwt_only.
Definition err_no_key : error :=
  ErrLoadPrivateKey (ErrRead "private_key.pem" (OSError "private_key.pem")).

(** The SVID of [dir_jwt_only]. *)
Definition resp_svid : X509SVIDResponse :=
  {| Svids := [ {| SpiffeId := "spiffe://example.org/workload";
                   X509Svid := Byte.x30 :: bytes_of "spiffe://example.org/workload";
                   X509SvidKey := [tagPKCS8; tagEC; Byte.x07];
                   Bundle := [Byte.x30] |} ] |}.

(** The hub with one subscription (id [0], channel [0]), before and after a
    [broadcast], and an SVID session holding that subscription. *)
Definition hub_one : broadcaster := (subscribe newBroadcaster).2.
Definition hub_one_notified : broadcaster := broadcast hub_one.
Definition session_live : session X509SVIDResponse :=
  {| at_phase := Live 0 0; sent := [resp_svid]; logged := [] |}.

(** Two subscriptions (channels [0] and [1]). *)
Definition hub_two : broadcaster := (subscribe hub_one).2.

(** What the X.509 bundle build answers in [dir_mixed]. *)
Definition resp_bundles_mixed : X509BundlesResponse :=
  {| X509Bundles :=
       {[ "spiffe://example.org" := [Byte.x30];
          "spiffe://other.org" := [Byte.x00; Byte.x01; Byte.x02; Byte.x30] ]} |}.

(** The key set of [other.org]: its one [jwt-svid] key. *)
Definition jwks_other : bytes :=
  bytes_of (object [ field "keys" (array [render_key jwt_key]) ]).

(** What the JWT bundle build answers in [dir_mixed] and in [dir_jwt_only]. *)
Definition resp_jwt : JWTBundlesResponse :=
  {| JWTBundles := {[ "spiffe://other.org" := jwks_other ]} |}.

Definition leaf_der : bytes := Byte.x30 :: bytes_of "spiffe://example.org/workload".

(** What the SVID build answers in [dir_key_in_chain]. *)
Definition resp_key_in_chain : X509SVIDResponse :=
  {| Svids := [ {| SpiffeId := "spiffe://example.org/workload";
                   X509Svid := leaf_der ++ [tagPKCS8; tagEC; Byte.x07];
                   X509SvidKey := [tagPKCS8; tagEC; Byte.x07];
                   Bundle := [Byte.x30] |} ] |}.

(** A certificate parser that knows the leaf and nothing else. *)
Definition parse_leaf_only (der : bytes) : result Certificate :=
  if decide (der = leaf_der) then parse_certificate der
  else Err (LibError "not the leaf").

End Samples.

(** ** More to state properties with *)

(** An SVID with another CA bundle. *)
Definition with_Bundle (bundle : bytes) (svid : X509SVID) : X509SVID :=
  {| SpiffeId := SpiffeId svid; X509Svid := X509Svid svid;
     X509SvidKey := X509SvidKey svid; Bundle := bundle |}.

(** Two directories hold the same file under [name] (or both none). *)
Definition same_file (name : string) (fs fs' : CredsDir) : Prop := fs' !! name = fs !! name.

(** ** More sample directories *)

Module Samples2.
Import Demo Samples.

(** [dir_jwt_only] with other trust bundles and a file no build reads. *)
Definition dir_other_bundles : CredsDir :=
  <["trust_bundles.json" := bytes_of (render_file tb_mixed)]>
    (<["README" := bytes_of "rotated by the issuer"]> dir_jwt_only).

Definition dir_no_ca : CredsDir := delete "ca_certificates.pem" dir_jwt_only.

(** The trust bundle document cut short. *)
Definition dir_broken_bundles : CredsDir :=
  <["trust_bundles.json" := bytes_of "{"]> dir_jwt_only.

(** A CA bundle file with text and no block. *)
Definition no_blocks : bytes := bytes_of "# no certificates yet".

(** The leaf is a certificate without URI SAN. *)
Definition dir_leaf_without_uri : CredsDir :=
  <["certificates.pem" := ca_pem]> dir_jwt_only.

(** The local domain's entry and a key of use [enc] hold [x5c] entries
    that are not base64; the [x509-svid] key of [other.org] is well-formed. *)
Definition bad_enc_key : trustKey :=
  {| Use := "enc"; Kty := "EC"; Crv := "P-256"; X := "eA"; Y := "eQ"; X5C := ["!!"] |}.
Definition tb_harmless : trustBundlesFile :=
  {| TrustDomains :=
       {[ "example.org" := {| Keys := [x509_key ["!!"]]; SpiffeSequence := 1 |};
          "other.org" := {| Keys := [bad_enc_key; x509_key ["AAEC"]];
                            SpiffeSequence := 1 |} ]} |}.

(** Two federated domains, both with an [x5c] entry that is not base64. *)
Definition tb_two_bad : trustBundlesFile :=
  {| TrustDomains :=
       {[ "first.org" := {| Keys := [x509_key ["!!"]]; SpiffeSequence := 1 |};
          "second.org" := {| Keys := [x509_key ["!!"]]; SpiffeSequence := 1 |} ]} |}.

Definition json2 : JsonPkg := json_with [tb_harmless; tb_two_bad].

Definition dir_harmless : CredsDir := dir_with (bytes_of (render_file tb_harmless)).
Definition dir_two_bad : CredsDir := dir_with (bytes_of (render_file tb_two_bad)).

(** [range] in the opposite order of [Demo.range]. *)
Definition range_backwards : MapRange := {|
  range_order K _ _ V m := reverse (map_to_list m);
  range_order_perm K _ _ V m := reverse_Permutation (map_to_list m)
|}.

End Samples2.

(** ** More about the hub *)

(** Every subscription has its channel in the store, and no two
    subscriptions have the same channel. *)
Definition hub_linked (b : broadcaster) : Prop :=
  (∀ id ch, subs b !! id = Some ch → is_Some (chans b !! ch))
  ∧ (∀ id1 id2 ch, subs b !! id1 = Some ch → subs b !! id2 = Some ch → id1 = id2).

Section HubCounted.
Context {rng : MapRange}.

(** The states of the hub after [k] calls of [subscribe] (and any number of
    the other calls). *)
Inductive hub_reached : nat → broadcaster → Prop :=
| reached_new : hub_reached 0 newBroadcaster
| reached_subscribe k b : hub_reached k b → hub_reached (S k) (subscribe b).2
| reached_unsubscribe k b id : hub_reached k b → hub_reached k (unsubscribe id b)
| reached_broadcast k b : hub_reached k b → hub_reached k (broadcast b)
| reached_receive k b ch b' : hub_reached k b → receive ch b = Some b' → hub_reached k b'.

End HubCounted.

(** ** A handler and the rotations around it *)

(** What happens around one handler: an input of its own, or the watcher's
    timer calling [s.bcast.broadcast()]. *)
Inductive sys_event : Type :=
| Handler (i : input)
| Rotation.

Fixpoint rotations (evs : list sys_event) : nat :=
  match evs with
  | [] => 0
  | Rotation :: evs' => S (rotations evs')
  | Handler _ :: evs' => rotations evs'
  end.

Section System.
Context {rng : MapRange} {R : Type}.
Variable name : string.
Variable build : CredsDir → result R.

Definition system_step (b : broadcaster) (s : session R) (ev : sys_event)
  : option (broadcaster * session R) :=
  match ev with
  | Handler i => session_step name build b s i
  | Rotation => Some (broadcast b, s)
  end.

Fixpoint system_run (b : broadcaster) (s : session R) (evs : list sys_event)
  : option (broadcaster * session R) :=
  match evs with
  | [] => Some (b, s)
  | ev :: evs' =>
      '(b', s') ← system_step b s ev;
      system_run b' s' evs'
  end.

(** The subscriptions as the handler found them, and its own while it
    holds one. *)
Definition lifecycle_inv (subs0 : gmap Z nat) (b : broadcaster) (s : session R) : Prop :=
  match at_phase s with
  | Live id ch => subs0 !! id = None ∧ subs b = <[id := ch]> subs0
  | _ => subs b = subs0 ∧ (at_phase s = Start ∨ at_phase s = Sent → subs0 !! next b = None)
  end.

(** What the client has got and what the log holds, against the rotations
    so far, with the notification still in the channel counted in. *)
Definition updates_inv (r : nat) (b : broadcaster) (s : session R) : Prop :=
  hub_inv b
  ∧ match at_phase s with
    | Start => sent s = [] ∧ logged s = []
    | Sent => length (sent s) + length (logged s) ≤ 1
    | Live id ch =>
        subs b !! id = Some ch
        ∧ ∃ c, chans b !! ch = Some c
               ∧ length (sent s) + length (logged s) + buffered c ≤ 1 + r
    | Returned _ => length (sent s) + length (logged s) ≤ 1 + r
    end.

End System.

(** ** A sample life of a handler *)

Module Samples3.
Import Demo Samples.

(** First response, subscription, a rotation met with the key file
    missing, a rotation met with the directory whole. *)
Definition life : list sys_event :=
  [ Handler (Invoke dir_jwt_only None); Handler Subscribe;
    Rotation; Handler (Rotated dir_no_key None);
    Rotation; Handler (Rotated dir_jwt_only None) ].

Definition hub_after_life : broadcaster :=
  {| chans := {[ 0 := {| cap := 1; buffered := 0 |} ]}; subs := {[ 0%Z := 0 ]}; next := 1 |}.

Definition session_after_life : session X509SVIDResponse :=
  {| at_phase := Live 0 0;
     sent := [resp_svid; resp_svid];
     logged := [("FetchX509SVID: reload failed", err_no_key)] |}.

(** The same hub after the client has gone. *)
Definition hub_after_done : broadcaster :=
  {| chans := {[ 0 := {| cap := 1; buffered := 0 |} ]}; subs := ∅; next := 1 |}.

Definition session_after_done : session X509SVIDResponse :=
  {| at_phase := Returned None;
     sent := [resp_svid; resp_svid];
     logged := [("FetchX509SVID: reload failed", err_no_key)] |}.

Definition session_sent : session X509SVIDResponse :=
  {| at_phase := Sent; sent := [resp_svid]; logged := [] |}.

End Samples3.

(** ** Rotation watcher

    [startWatcher]'s goroutine, once the watcher is set up.  The package
    [fsnotify] delivers events and errors on two channels; [time.AfterFunc]
    makes a timer whose function the runtime runs when it expires unless
    the timer was stopped first.  Expiry is an input here like the events:
    the 100ms are not measured. *)

(** [fsnotify.Op], a bit mask, with the package's values. *)
Definition Op_Create : N := 1.
Definition Op_Write : N := 2.
Definition Op_Remove : N := 4.
Definition Op_Rename : N := 8.
Definition Op_Chmod : N := 16.

(** [event.Has(h)], for the one-bit masks it is asked here. *)
Definition Op_Has (op h : N) : bool := negb (N.land op h =? 0)%N.

Inductive timer_state : Type := Pending | Fired | Stopped.

Inductive watcher_log : Type :=
| LogPushing                    (* "credentials rotated, pushing update to connected streams" *)
| LogWatcherError (err : error). (* "credential watcher error: %v" *)

Record watcher : Type := mkWatcher {
  looping : bool;                    (* the goroutine is in its [for] loop *)
  debounce : option nat;             (* var debounce *time.Timer; [None] is nil *)
  timers : gmap nat timer_state;     (* the timers [time.AfterFunc] has made *)
  wlog : list watcher_log;
  hub : broadcaster                  (* s.bcast *)
}.

Inductive watcher_event : Type :=
| FsEvent (op : N)              (* case event, ok := <-w.Events, with ok *)
| EventsClosed                  (* the same, with !ok *)
| WatchError (err : error)      (* case err, ok := <-w.Errors, with ok *)
| ErrorsClosed                  (* the same, with !ok *)
| TimerFires (t : nat).         (* the runtime runs the function of timer [t] *)

(** [debounce.Stop()]. *)
Definition timer_stop (t : nat) (ts : gmap nat timer_state) : gmap nat timer_state :=
  match ts !! t with
  | Some Pending => <[t := Stopped]> ts
  | _ => ts
  end.

Section Watcher.
Context {rng : MapRange}.

(** The goroutine as it starts. *)
Definition watcher_start (b : broadcaster) : watcher :=
  {| looping := true; debounce := None; timers := ∅; wlog := []; hub := b |}.

(** One turn of the [select], or one timer expiring; [None] when the input
    cannot occur (the loop has returned, the timer is not pending). *)
Definition watcher_step (w : watcher) (ev : watcher_event) : option watcher :=
  match ev with
  | FsEvent op =>
      if looping w then
        if Op_Has op Op_Write || Op_Has op Op_Create then
          let ts := match debounce w with
                    | Some t => timer_stop t (timers w)
                    | None => timers w
                    end in
          let t' := fresh (dom ts) in
          Some {| looping := true; debounce := Some t'; timers := <[t' := Pending]> ts;
                  wlog := wlog w; hub := hub w |}
        else Some w
      else None
  | EventsClosed | ErrorsClosed =>
      if looping w then
        Some {| looping := false; debounce := debounce w; timers := timers w;
                wlog := wlog w; hub := hub w |}
      else None
  | WatchError err =>
      if looping w then
        Some {| looping := true; debounce := debounce w; timers := timers w;
                wlog := wlog w ++ [LogWatcherError err]; hub := hub w |}
      else None
  | TimerFires t =>
      match timers w !! t with
      | Some Pending =>
          Some {| looping := looping w; debounce := debounce w;
                  timers := <[t := Fired]> (timers w);
                  wlog := wlog w ++ [LogPushing]; hub := broadcast (hub w) |}
      | _ => None
      end
  end.

Fixpoint watcher_run (w : watcher) (evs : list watcher_event) : option watcher :=
  match evs with
  | [] => Some w
  | ev :: evs' => w' ← watcher_step w ev; watcher_run w' evs'
  end.

End Watcher.

(** An event that arms the timer: a write or a create. *)
Definition is_trigger (ev : watcher_event) : bool :=
  match ev with
  | FsEvent op => Op_Has op Op_Write || Op_Has op Op_Create
  | _ => false
  end.

Fixpoint triggers (evs : list watcher_event) : nat :=
  match evs with
  | [] => 0
  | ev :: evs' => (if is_trigger ev then 1 else 0) + triggers evs'
  end.

Fixpoint pushes (l : list watcher_log) : nat :=
  match l with
  | [] => 0
  | LogPushing :: l' => S (pushes l')
  | LogWatcherError _ :: l' => pushes l'
  end.

(** The one timer that can still fire, if any, is the one [debounce]
    holds. *)
Definition watcher_inv (w : watcher) : Prop :=
  ∀ t, timers w !! t = Some Pending → debounce w = Some t.

Definition pending_timers (w : watcher) : nat :=
  match debounce w with
  | Some t =>
      match timers w !! t with
      | Some Pending => 1
      | _ => 0
      end
  | None => 0
  end.

(** ** Request interceptors (package main) *)

Definition workloadHeader : string := "workload.spiffe.io".

(** [metadata.MD] of the incoming context, keys in lower case as the
    package keeps them; [None] is a context without metadata. *)
Abbreviation MD := (gmap string (list string)).

(** [md.Get(k)] for a key in lower case. *)
Definition MD_Get (md : MD) (k : string) : list string := default [] (md !! k).

(** What an interceptor answers: the handler's own answer, or a status. *)
Inductive reply (A : Type) : Type :=
| Handled (a : A)
| Refused (c : code) (msg : string).
Arguments Handled {A} a.
Arguments Refused {A} c msg.

Definition workloadHeaderUnaryInterceptor {Req Resp : Type}
    (ctx : option MD) (req : Req) (handler : option MD → Req → Resp) : reply Resp :=
  match ctx with
  | Some md =>
      if decide (length (MD_Get md workloadHeader) = 0)
      then Refused InvalidArgument ("missing required header: " +:+ workloadHeader)
      else Handled (handler ctx req)
  | None => Refused InvalidArgument ("missing required header: " +:+ workloadHeader)
  end.

Definition workloadHeaderStreamInterceptor {Srv Ret : Type}
    (srv : Srv) (ctx : option MD) (handler : Srv → option MD → Ret) : reply Ret :=
  match ctx with
  | Some md =>
      if decide (length (MD_Get md workloadHeader) = 0)
      then Refused InvalidArgument ("missing required header: " +:+ workloadHeader)
      else Handled (handler srv ctx)
  | None => Refused InvalidArgument ("missing required header: " +:+ workloadHeader)
  end.

(** ** Sample watcher runs and requests *)

Module Samples4.
Import Demo Samples.

Definition overflow : error := LibError "fsnotify: queue or buffer overflow".

(** A rotation that writes three files, the last event a write together
    with a chmod. *)
Definition burst : list N := [Op_Create; Op_Write; N.lor Op_Write Op_Chmod].

(** A chmod, a rotation of two files with an error reported in between and
    the timer expiring after it, one more write, the events channel
    closed, and the last timer expiring. *)
Definition watch : list watcher_event :=
  [ FsEvent Op_Chmod; FsEvent Op_Write; WatchError overflow; FsEvent Op_Create;
    TimerFires 1; FsEvent Op_Write; EventsClosed; TimerFires 2 ].

Definition watcher_after_watch : watcher :=
  {| looping := false;
     debounce := Some 2;
     timers := {[ 0 := Stopped; 1 := Fired; 2 := Fired ]};
     wlog := [LogWatcherError overflow; LogPushing; LogPushing];
     hub := broadcast (broadcast hub_two) |}.

(** The loop has returned with a timer pending. *)
Definition watcher_closed : watcher :=
  {| looping := false;
     debounce := Some 0;
     timers := {[ 0 := Pending ]};
     wlog := [];
     hub := hub_two |}.

(** The header with the value [false], and with no value. *)
Definition md_false : MD := {[ workloadHeader := ["false"] ]}.
Definition md_no_value : MD := {[ workloadHeader := [] ]}.

End Samples4.

(** ** A credential directory with real documents

    An EC key on P-256, a CA certificate and a leaf certificate with the
    URI SAN [spiffe://example.org/workload], made with OpenSSL 3.0; the
    texts below are the files as written. *)

Module Credentials.
Import Demo Documents.

Definition lf : string := String (Ascii.ascii_of_nat 10) EmptyString.

(** A PEM file of one block: the base64 text between the two lines. *)
Definition pem_file (ty b64 : string) : bytes :=
  bytes_of ("-----BEGIN " +:+ ty +:+ "-----" +:+ lf +:+ b64 +:+ lf
            +:+ "-----END " +:+ ty +:+ "-----" +:+ lf).

(** The bytes a base64 text stands for. *)
Definition der_of (b64 : string) : bytes := default [] (b64_decode (bytes_of b64)).

(** The key: the secret number and the public point. *)
Definition key : PrivateKey :=
  {| Curve := P256;
     PubX := 0x2146c5ced8126602a0715d84fed44690a30bd3a67645208a11d0c58be2a7db40;
     PubY := 0xcb985939687d22f0c64981e986f19640222a667e3499d8909f534a1c5a391670;
     D := 0xcbfe1b64f49ad0033460d63d22d011682d32a9a1e99b03dd32ace59c3ded5c50 |}.

(** [ec.pem], the key as [openssl ecparam -genkey] writes it. *)
Definition key_ec_b64 : string :=
  "MHcCAQEEIMv+G2T0mtADNGDWPSLQEWgtMqmh6ZsD3TKs5Zw97VxQoAoGCCqGSM49"
  +:+ lf +:+ "AwEHoUQDQgAEIUbFztgSZgKgcV2E/tRGkKML06Z2RSCKEdDFi+Kn20DLmFk5aH0i"
  +:+ lf +:+ "8MZJgemG8ZZAIipmfjSZ2JCfU0ocWjkWcA==".
Definition key_ec_pem : bytes := pem_file "EC PRIVATE KEY" key_ec_b64.

(** Its document, an [ECPrivateKey]: version 1, the secret number, the
    curve, the public point. *)
Definition key_ec_der : bytes :=
  element tagSEQUENCE
    (element tagINTEGER [Byte.x01]
     ++ element tagOCTETSTRING (Z_be 32 (D key))
     ++ element tagExplicit0 (element tagOID (oidNamedCurve P256))
     ++ element tagExplicit1
          (element tagBITSTRING (Byte.x00 :: Marshal P256 (PubX key) (PubY key)))).

(** [pkcs8.pem], the key as [openssl pkcs8 -topk8 -nocrypt] writes it. *)
Definition key_pkcs8_b64 : string :=
  "MIGHAgEAMBMGByqGSM49AgEGCCqGSM49AwEHBG0wawIBAQQgy/4bZPSa0AM0YNY9"
  +:+ lf +:+ "ItARaC0yqaHpmwPdMqzlnD3tXFChRANCAAQhRsXO2BJmAqBxXYT+1EaQowvTpnZF"
  +:+ lf +:+ "IIoR0MWL4qfbQMuYWTlofSLwxkmB6YbxlkAiKmZ+NJnYkJ9TShxaORZw".
Definition key_pkcs8_pem : bytes := pem_file "PRIVATE KEY" key_pkcs8_b64.

(** An [ECPrivateKey] inside a [PrivateKeyInfo] for [id-ecPublicKey] on
    P-256. *)
Definition pkcs8_of (ecPrivateKey : bytes) : bytes :=
  element tagSEQUENCE
    (element tagINTEGER [Byte.x00]
     ++ element tagSEQUENCE
          (element tagOID oidPublicKeyECDSA ++ element tagOID (oidNamedCurve P256))
     ++ element tagOCTETSTRING ecPrivateKey).

(** Its document: the [ECPrivateKey] with the public point and without the
    curve, which the algorithm identifier names. *)
Definition key_pkcs8_der : bytes :=
  pkcs8_of
    (element tagSEQUENCE
       (element tagINTEGER [Byte.x01]
        ++ element tagOCTETSTRING (Z_be 32 (D key))
        ++ element tagExplicit1
             (element tagBITSTRING (Byte.x00 :: Marshal P256 (PubX key) (PubY key))))).

(** [pkcs8_bare.pem], the key in PKCS#8 without the public point, which is
    an optional field of [ECPrivateKey] (RFC 5915); OpenSSL reads the file
    as the same key. *)
Definition key_pkcs8_bare_b64 : string :=
  "MEECAQAwEwYHKoZIzj0CAQYIKoZIzj0DAQcEJzAlAgEBBCDL/htk9JrQAzRg1j0i"
  +:+ lf +:+ "0BFoLTKpoembA90yrOWcPe1cUA==".
Definition key_pkcs8_bare_pem : bytes := pem_file "PRIVATE KEY" key_pkcs8_bare_b64.

Definition key_pkcs8_bare_der : bytes :=
  pkcs8_of
    (element tagSEQUENCE
       (element tagINTEGER [Byte.x01] ++ element tagOCTETSTRING (Z_be 32 (D key)))).

(** The leaf certificate, for the key above, with the URI SAN
    [spiffe://example.org/workload]. *)
Definition leaf_b64 : string :=
  "MIIBqzCCAVCgAwIBAgIBAjAKBggqhkjOPQQDAjAWMRQwEgYDVQQKDAtleGFtcGxl"
  +:+ lf +:+ "Lm9yZzAeFw0yNjExMDMwMTE5MDlaFw0zNjEwMzEwMTE5MDlaMBYxFDASBgNVBAoM"
  +:+ lf +:+ "C2V4YW1wbGUub3JnMFkwEwYHKoZIzj0CAQYIKoZIzj0DAQcDQgAEIUbFztgSZgKg"
  +:+ lf +:+ "cV2E/tRGkKML06Z2RSCKEdDFi+Kn20DLmFk5aH0i8MZJgemG8ZZAIipmfjSZ2JCf"
  +:+ lf +:+ "U0ocWjkWcKOBjjCBizArBgNVHREBAf8EITAfhh1zcGlmZmU6Ly9leGFtcGxlLm9y"
  +:+ lf +:+ "Zy93b3JrbG9hZDAMBgNVHRMBAf8EAjAAMA4GA1UdDwEB/wQEAwIHgDAdBgNVHQ4E"
  +:+ lf +:+ "FgQUG5CGcJhvKKWXNhAXLOOQxxCUhwswHwYDVR0jBBgwFoAU7zwBSL0UNr2MBxXv"
  +:+ lf +:+ "rI/O2voOcowwCgYIKoZIzj0EAwIDSQAwRgIhAMwE+wDwz6RvUy5e+WJjbxh/Drt+"
  +:+ lf +:+ "8u0+Y1zk7kOa4/3sAiEA5+2Y4n/dhABteYxM9tmxh1tTkxsqhnnBnucX+vi6CtE=".
Definition leaf_pem : bytes := pem_file "CERTIFICATE" leaf_b64.
Definition leaf_der : bytes := der_of leaf_b64.

(** The certificate of the CA that signed the leaf. *)
Definition ca_b64 : string :=
  "MIIBfjCCASSgAwIBAgIBATAKBggqhkjOPQQDAjAWMRQwEgYDVQQKDAtleGFtcGxl"
  +:+ lf +:+ "Lm9yZzAeFw0yNjExMDMwMTE5MDlaFw0zNjEwMzEwMTE5MDlaMBYxFDASBgNVBAoM"
  +:+ lf +:+ "C2V4YW1wbGUub3JnMFkwEwYHKoZIzj0CAQYIKoZIzj0DAQcDQgAEYSGAAq3cy6R0"
  +:+ lf +:+ "e8t1gUwFyLU2XAdOv8g+MJmG1Rl45z5/dmLc8Vr/1JKL7u7nNOq1jyPL5UiK6DCm"
  +:+ lf +:+ "armK5lUNzqNjMGEwHQYDVR0OBBYEFO88AUi9FDa9jAcV76yPztr6DnKMMB8GA1Ud"
  +:+ lf +:+ "IwQYMBaAFO88AUi9FDa9jAcV76yPztr6DnKMMA8GA1UdEwEB/wQFMAMBAf8wDgYD"
  +:+ lf +:+ "VR0PAQH/BAQDAgEGMAoGCCqGSM49BAMCA0gAMEUCIDrbjJom731B1B7Q+R95cqoU"
  +:+ lf +:+ "RLaag5fNfVHcnN6AqOuvAiEAn2Rs2N//1zZqI0Afs+Qnd6LS00TfnsNR7kVb/uCp"
  +:+ lf +:+ "vXc=".
Definition ca_pem : bytes := pem_file "CERTIFICATE" ca_b64.
Definition ca_der : bytes := der_of ca_b64.

(** The key files side by side. *)
Definition dir_keys : CredsDir :=
  {[ "ec.pem" := key_ec_pem; "pkcs8.pem" := key_pkcs8_pem;
     "pkcs8_bare.pem" := key_pkcs8_bare_pem ]}.

Definition dir_with (tb : bytes) : CredsDir :=
  {[ "certificates.pem" := leaf_pem;
     "private_key.pem" := key_ec_pem;
     "ca_certificates.pem" := ca_pem;
     "trust_bundles.json" := tb ]}.

(** A federated domain whose only [x5c] entry is the empty string. *)
Definition dir_empty_entry : CredsDir :=
  dir_with (bytes_of (render_file Samples.tb_empty_entry)).

(** A block whose body is not base64. *)
Definition malformed_block : bytes := pem_file "CERTIFICATE" "!!".

(** The start of a block's first line. *)
Definition begin_line : bytes := bytes_of "-----BEGIN ".

(** [certificates.pem] with a malformed block between the leaf and the CA
    certificate, a CA bundle file without a block, and the empty trust
    bundle document. *)
Definition dir_malformed_block : CredsDir :=
  {[ "certificates.pem" := leaf_pem ++ malformed_block ++ ca_pem;
     "private_key.pem" := key_ec_pem;
     "ca_certificates.pem" := bytes_of "# no certificates yet";
     "trust_bundles.json" := bytes_of "{}" ]}.

(** [certificates.pem] starting with the malformed block. *)
Definition dir_malformed_first : CredsDir :=
  <["certificates.pem" := malformed_block ++ leaf_pem]> dir_malformed_block.

End Credentials.

(** * Properties *)

(** ** The PEM loop *)

Section DecoderFacts.
Context {pem : PemPkg}.

(** The loop of [loadPEMDERs] without the fuel: the blocks [pem.Decode]
    yields one after the other from [data], up to the place where the
    input is used up or [pem.Decode] finds no block. *)
Inductive decoded : bytes → list Block → Prop :=
| decoded_end : decoded [] []
| decoded_stop data rest :
    data ≠ [] → pem_Decode data = (None, rest) → decoded data []
| decoded_block data block rest blocks :
    data ≠ [] → pem_Decode data = (Some block, rest) →
    decoded rest blocks → decoded data (block :: blocks).

Lemma decoded_functional data blocks1 blocks2 :
  decoded data blocks1 → decoded data blocks2 → blocks1 = blocks2.
Proof.
  intros H1. revert blocks2.
  induction H1 as [|data rest Hne Hd|data block rest blocks Hne Hd _ IH];
    intros blocks2 H2; inversion H2; subst; try congruence.
  assert (rest0 = rest) as -> by congruence.
  assert (block0 = block) as -> by congruence.
  f_equal. by apply IH.
Qed.

Lemma decodeLoop_decoded fuel data ders :
  length data ≤ fuel →
  ∃ blocks, decoded data blocks ∧ decodeLoop fuel data ders = ders ++ (Bytes <$> blocks).
Proof.
  revert data ders. induction fuel as [|fuel IH]; intros data ders Hlen.
  - destruct data; [|simpl in Hlen; lia].
    exists []. split; [constructor|]. by rewrite app_nil_r.
  - destruct data as [|c data].
    { exists []. split; [constructor|]. by rewrite app_nil_r. }
    simpl. destruct (pem_Decode (c :: data)) as [[block|] rest] eqn:Hd.
    + apply pem_Decode_shrinks in Hd as Hlt.
      destruct (IH rest (ders ++ [Bytes block])) as (blocks & Hb & ->); [simpl in *; lia|].
      exists (block :: blocks). split; [by econstructor|].
      by rewrite <- app_assoc.
    + exists []. split; [by econstructor|]. by rewrite app_nil_r.
Qed.

(** [length data] iterations are enough: more fuel changes nothing. *)
Lemma decodeLoop_fuel fuel data ders :
  length data ≤ fuel → decodeLoop fuel data ders = decodeLoop (length data) data ders.
Proof.
  intros Hlen.
  destruct (decodeLoop_decoded fuel data ders Hlen) as (b1 & H1 & ->).
  destruct (decodeLoop_decoded (length data) data ders (le_n _)) as (b2 & H2 & ->).
  by rewrite (decoded_functional _ _ _ H1 H2).
Qed.

Lemma loadPEMDERs_unreadable fs name :
  fs !! name = None → loadPEMDERs fs name = Err (ErrRead name (OSError name)).
Proof. intros H. unfold loadPEMDERs, ReadFile. by rewrite H. Qed.

Lemma loadPEMDERs_readable fs name data :
  fs !! name = Some data →
  ∃ blocks, decoded data blocks ∧ loadPEMDERs fs name = Ok (Bytes <$> blocks).
Proof.
  intros H. unfold loadPEMDERs, ReadFile. rewrite H. simpl.
  destruct (decodeLoop_decoded (length data) data [] (le_n _)) as (blocks & Hb & ->).
  by exists blocks.
Qed.

Lemma loadPEMDERs_Ok_inv fs name ders :
  loadPEMDERs fs name = Ok ders →
  ∃ data blocks, fs !! name = Some data ∧ decoded data blocks ∧ ders = Bytes <$> blocks.
Proof.
  intros H. destruct (fs !! name) as [data|] eqn:E.
  - destruct (loadPEMDERs_readable _ _ _ E) as (blocks & Hb & Hl).
    exists data, blocks. split_and!; [done..|congruence].
  - rewrite loadPEMDERs_unreadable in H; [discriminate|done].
Qed.

Lemma concatDERs_concat (ders : list bytes) : concatDERs ders = concat ders.
Proof.
  unfold concatDERs.
  enough (∀ out, fold_left (λ out d, out ++ d) ders out = out ++ concat ders) as H
    by apply (H []).
  induction ders as [|d ders IH]; intros out; simpl.
  - by rewrite app_nil_r.
  - by rewrite IH, app_assoc.
Qed.

(** The loop of [loadPEMDERs], its first turn taken. *)
Lemma decodeLoop_head (data : bytes) (ders : list bytes) :
  data ≠ [] →
  decodeLoop (length data) data ders
  = match pem_Decode data with
    | (None, _) => ders
    | (Some block, rest) => decodeLoop (length rest) rest (ders ++ [Bytes block])
    end.
Proof.
  intros Hne. destruct data as [|c data]; [done|]. simpl.
  destruct (pem_Decode (c :: data)) as [[block|] rest] eqn:Hd; [|done].
  apply pem_Decode_shrinks in Hd. apply decodeLoop_fuel. simpl in Hd. lia.
Qed.

End DecoderFacts.

(** ** A malformed block in front of a block *)

Section MalformedBlock.
#[local] Existing Instance Demo.pem.

Lemma try_block_begin rest rest' :
  Demo.begin rest = Demo.begin rest' → Demo.try_block rest = Demo.try_block rest'.
Proof. unfold Demo.try_block. by intros ->. Qed.

(** The turn of the loop that starts at the malformed block ends in
    [continue], with the text after the block's first line. *)
Lemma try_block_malformed_block (text : bytes) :
  Demo.try_block (Credentials.malformed_block ++ text)
  = Demo.Continue (bytes_of ("!!" +:+ Credentials.lf +:+ "-----END CERTIFICATE-----"
                             +:+ Credentials.lf) ++ text).
Proof. vm_compute. reflexivity. Qed.

(** The next [-----BEGIN] after it is that of the block that follows. *)
Lemma begin_after_malformed_block (next : bytes) :
  Demo.begin (bytes_of ("!!" +:+ Credentials.lf +:+ "-----END CERTIFICATE-----"
                        +:+ Credentials.lf) ++ Credentials.begin_line ++ next)
  = Demo.begin (Credentials.begin_line ++ next).
Proof. vm_compute. reflexivity. Qed.

(** What the loop finds does not depend on the turns it has left, nor on
    the text it would hand back had it found nothing. *)
Lemma decode_loop_found fuel1 fuel2 data1 data2 rest :
  length rest < fuel1 → length rest < fuel2 →
  Demo.decode_loop fuel1 data1 rest
  = match Demo.decode_loop fuel2 data2 rest with
    | (Some p, rest') => (Some p, rest')
    | (None, _) => (None, data1)
    end.
Proof.
  revert fuel2 rest. induction fuel1 as [|fuel1 IH]; intros fuel2 rest H1 H2; [lia|].
  destruct fuel2 as [|fuel2]; [lia|]. simpl.
  pose proof (Demo.try_block_shrinks rest) as Hs.
  destruct (Demo.try_block rest) as [p r|r|]; [done| |done].
  apply IH; lia.
Qed.

Lemma decode_loop_S fuel data rest :
  Demo.decode_loop (S fuel) data rest
  = match Demo.try_block rest with
    | Demo.Found p rest' => (Some p, rest')
    | Demo.Continue rest' => Demo.decode_loop fuel data rest'
    | Demo.NotFound => (None, data)
    end.
Proof. reflexivity. Qed.

Lemma decode_after_malformed_block (next : bytes) :
  Demo.decode (Credentials.malformed_block ++ Credentials.begin_line ++ next)
  = match Demo.decode (Credentials.begin_line ++ next) with
    | (Some p, rest) => (Some p, rest)
    | (None, _) => (None, Credentials.malformed_block ++ Credentials.begin_line ++ next)
    end.
Proof.
  set (next' := Credentials.begin_line ++ next).
  unfold Demo.decode.
  assert (∃ n, length (Credentials.malformed_block ++ next') = S n ∧ length next' ≤ n)
    as (n & -> & Hn).
  { rewrite length_app. eexists. split; [reflexivity|]. simpl. lia. }
  assert (∃ n', length next' = S n') as [n' Hl] by (eexists; reflexivity).
  rewrite Hl in *.
  rewrite (decode_loop_S (S n)), try_block_malformed_block.
  rewrite (decode_loop_S n).
  rewrite (try_block_begin (_ ++ next') next' (begin_after_malformed_block next)).
  rewrite (decode_loop_S (S n')).
  pose proof (Demo.try_block_shrinks next') as Hs. rewrite Hl in Hs.
  destruct (Demo.try_block next') as [p r|r|]; [done| |done].
  apply decode_loop_found; lia.
Qed.

(** A file that starts with the malformed block decodes to the chain of the
    file without that block. *)
Lemma loadPEMDERs_after_malformed_block (fs : CredsDir) (name : string) (next : bytes) :
  fs !! name = Some (Credentials.malformed_block ++ Credentials.begin_line ++ next) →
  loadPEMDERs fs name
  = loadPEMDERs (<[name := Credentials.begin_line ++ next]> fs) name.
Proof.
  intros H. unfold loadPEMDERs, ReadFile. rewrite H, lookup_insert_eq.
  cbn [wrap mbind result_bind]. f_equal.
  rewrite !decodeLoop_head by done.
  change (pem_Decode ?d) with (Demo.decode d).
  rewrite decode_after_malformed_block.
  by destruct (Demo.decode (Credentials.begin_line ++ next)) as [[p|] rest].
Qed.

End MalformedBlock.

(** ** The documents of [Module Credentials] *)

Section Documents_samples.
#[local] Existing Instances Demo.pem Documents.x509 Demo.base64 Demo.range Samples.json.

(** The base points are on their curves and have the curves' orders. *)
Example base_points_are_on_the_curves :
  (λ c, Documents.IsOnCurve c (Documents.Curve_Gx (Documents.Params c))
          (Documents.Curve_Gy (Documents.Params c)))
    <$> [Documents.P224; Documents.P256; Documents.P384; Documents.P521]
  = [true; true; true; true].
Proof. vm_compute. reflexivity. Qed.

Example base_points_have_the_orders :
  (λ c, Documents.ScalarBaseMult c (Documents.Curve_N (Documents.Params c)))
    <$> [Documents.P224; Documents.P256; Documents.P384; Documents.P521]
  = [(0, 0); (0, 0); (0, 0); (0, 0)]%Z.
Proof. vm_compute. reflexivity. Qed.

(** The files hold the documents as spelled out. *)
Example key_files_hold_the_documents :
  pem_Decode Credentials.key_ec_pem
  = (Some {| BlockType := "EC PRIVATE KEY"; Headers := [];
             Bytes := Credentials.key_ec_der |}, [])
  ∧ pem_Decode Credentials.key_pkcs8_pem
    = (Some {| BlockType := "PRIVATE KEY"; Headers := [];
               Bytes := Credentials.key_pkcs8_der |}, [])
  ∧ pem_Decode Credentials.key_pkcs8_bare_pem
    = (Some {| BlockType := "PRIVATE KEY"; Headers := [];
               Bytes := Credentials.key_pkcs8_bare_der |}, []).
Proof. split_and!; vm_compute; reflexivity. Qed.

(** All three documents are read as the key, and the marshaller writes
    the document of [pkcs8.pem] for it. *)
Example key_documents_hold_the_key :
  x509_ParseECPrivateKey Credentials.key_ec_der = Ok Credentials.key
  ∧ x509_ParsePKCS8PrivateKey Credentials.key_pkcs8_der = Ok (ECDSAKey Credentials.key)
  ∧ x509_ParsePKCS8PrivateKey Credentials.key_pkcs8_bare_der = Ok (ECDSAKey Credentials.key)
  ∧ x509_MarshalPKCS8PrivateKey (ECDSAKey Credentials.key) = Ok Credentials.key_pkcs8_der.
Proof. split_and!; vm_compute; reflexivity. Qed.

(** The leaf has the one URI SAN, the CA certificate none. *)
Example certificates_hold_the_identity :
  x509_ParseCertificate Credentials.leaf_der
  = Ok {| URIs := [ {| Scheme := "spiffe"; Host := "example.org"; Path := "/workload" |} ] |}
  ∧ x509_ParseCertificate Credentials.ca_der = Ok {| URIs := [] |}.
Proof. split; vm_compute; reflexivity. Qed.

End Documents_samples.

(** ** Sessions, whatever they build *)

Section SessionFacts.
Context {rng : MapRange} {R : Type}.
Variable name : string.
Variable build : CredsDir → result R.

Lemma session_initial_failure b (s : session R) fs send err :
  at_phase s = Start → build fs = Err err →
  session_step name build b s (Invoke fs send)
  = Some (b, mkSession (Returned (Some (Status Internal err))) (sent s) (logged s)).
Proof. intros Hp Hb. unfold session_step. by rewrite Hp, Hb. Qed.

Lemma session_initial_success b (s : session R) fs resp :
  at_phase s = Start → build fs = Ok resp →
  session_step name build b s (Invoke fs None)
  = Some (b, mkSession Sent (sent s ++ [resp]) (logged s)).
Proof. intros Hp Hb. unfold session_step. by rewrite Hp, Hb. Qed.

Lemma session_reload_failure b b' (s : session R) id rotated fs send err :
  at_phase s = Live id rotated → receive rotated b = Some b' → build fs = Err err →
  session_step name build b s (Rotated fs send)
  = Some (b', mkSession (Live id rotated) (sent s)
                        (logged s ++ [(name +:+ ": reload failed", err)])).
Proof. intros Hp Hr Hb. unfold session_step. rewrite Hp, Hr. simpl. by rewrite Hb. Qed.

Lemma session_reload_success b b' (s : session R) id rotated fs resp :
  at_phase s = Live id rotated → receive rotated b = Some b' → build fs = Ok resp →
  session_step name build b s (Rotated fs None)
  = Some (b', mkSession (Live id rotated) (sent s ++ [resp]) (logged s)).
Proof. intros Hp Hr Hb. unfold session_step. rewrite Hp, Hr. simpl. by rewrite Hb. Qed.

(** A [Rotated] input needs a notification in the handler's channel. *)
Lemma session_rotated_enabled b (s : session R) id rotated fs send :
  at_phase s = Live id rotated →
  (is_Some (session_step name build b s (Rotated fs send)) ↔ is_Some (receive rotated b)).
Proof.
  intros Hp. unfold session_step. rewrite Hp.
  destruct (receive rotated b) as [b'|]; simpl.
  - split; [eauto|intros _]. destruct (build fs); [destruct send|]; eauto.
  - split; intros [? ?]; discriminate.
Qed.

End SessionFacts.

(** ** What the builders need from the directory *)

Section BuilderFacts.
Context {pem : PemPkg} {x509 : X509Pkg} {b64 : Base64Pkg} {json : JsonPkg}
        {rng : MapRange}.

Lemma buildX509SVIDResponse_no_certificate fs :
  no_valid_certificate fs → is_Err (buildX509SVIDResponse fs).
Proof.
  unfold buildX509SVIDResponse.
  intros [H|[H|(der & ders & e & H & Hp)]].
  - rewrite (loadPEMDERs_unreadable _ _ H). by eexists.
  - rewrite H. by eexists.
  - rewrite H. simpl.
    destruct (loadPrivateKeyPKCS8DER fs "private_key.pem"); [|by eexists].
    destruct (loadPEMDERs fs "ca_certificates.pem"); [|by eexists].
    simpl. rewrite Hp. by eexists.
Qed.

Lemma buildX509BundlesResponse_no_certificate fs :
  no_valid_certificate fs → is_Err (buildX509BundlesResponse fs).
Proof.
  unfold buildX509BundlesResponse.
  intros [H|[H|(der & ders & e & H & Hp)]].
  - rewrite (loadPEMDERs_unreadable _ _ H). by eexists.
  - rewrite H. by eexists.
  - rewrite H. simpl. rewrite Hp. by eexists.
Qed.

Lemma loadTrustBundles_only_reads_its_file fs fs' :
  fs' !! "trust_bundles.json" = fs !! "trust_bundles.json" →
  loadTrustBundles fs' = loadTrustBundles fs.
Proof. intros H. unfold loadTrustBundles, ReadFile. by rewrite H. Qed.

Lemma buildJWTBundlesResponse_only_reads_trust_bundles fs fs' :
  fs' !! "trust_bundles.json" = fs !! "trust_bundles.json" →
  buildJWTBundlesResponse fs' = buildJWTBundlesResponse fs.
Proof.
  intros H. unfold buildJWTBundlesResponse.
  by rewrite (loadTrustBundles_only_reads_its_file _ _ H).
Qed.

End BuilderFacts.


(** ** C1: a missing or unusable certificates.pem *)

Section C1.
Context {pem : PemPkg} {x509 : X509Pkg} {b64 : Base64Pkg} {json : JsonPkg}
        {rng : MapRange}.

(** C1, as amended.  When [certificates.pem] is absent, holds no PEM block
    or holds a first block that is no certificate, the first build of the
    SVID stream and of the X.509-bundle stream fails: the handler returns
    an [Internal] status and has sent nothing.  The JWT-bundle build does
    not read [certificates.pem]: it is a function of [trust_bundles.json]
    alone. *)
Theorem certificates_needed_by_x509_streams_only (fs : CredsDir) :
  no_valid_certificate fs →
  (∃ err, ∀ b s send, at_phase s = Start →
     FetchX509SVID b s (Invoke fs send)
     = Some (b, mkSession (Returned (Some (Status Internal err))) (sent s) (logged s)))
  ∧ (∃ err, ∀ b s send, at_phase s = Start →
     FetchX509Bundles b s (Invoke fs send)
     = Some (b, mkSession (Returned (Some (Status Internal err))) (sent s) (logged s)))
  ∧ (∀ fs', fs' !! "trust_bundles.json" = fs !! "trust_bundles.json" →
     buildJWTBundlesResponse fs' = buildJWTBundlesResponse fs).
Proof.
  intros Hno. split_and!.
  - destruct (buildX509SVIDResponse_no_certificate fs Hno) as [err Herr].
    exists err. intros b s send Hs. by apply session_initial_failure.
  - destruct (buildX509BundlesResponse_no_certificate fs Hno) as [err Herr].
    exists err. intros b s send Hs. by apply session_initial_failure.
  - apply buildJWTBundlesResponse_only_reads_trust_bundles.
Qed.

End C1.

Section C1_samples.
#[local] Existing Instances Demo.pem Demo.x509 Demo.base64 Demo.range Samples.json.

(** C1 as the specification has it fails: in a directory without
    [certificates.pem] the JWT-bundle stream builds and sends its first
    response (an empty bundle map for the empty trust-bundle document). *)
Lemma jwt_stream_without_certificates :
  Samples.dir_no_certificates !! "certificates.pem" = None
  ∧ FetchJWTBundles newBroadcaster new_session (Invoke Samples.dir_no_certificates None)
    = Some (newBroadcaster, mkSession Sent [ {| JWTBundles := ∅ |} ] []).
Proof. split; vm_compute; reflexivity. Qed.

Lemma certificates_needed_by_x509_streams_only_witness :
  no_valid_certificate Samples.dir_garbled_certificates
  ∧ (∃ err, ∀ b s send, at_phase s = Start →
       FetchX509SVID b s (Invoke Samples.dir_garbled_certificates send)
       = Some (b, mkSession (Returned (Some (Status Internal err))) (sent s) (logged s)))
  ∧ (∃ err, ∀ b s send, at_phase s = Start →
       FetchX509Bundles b s (Invoke Samples.dir_garbled_certificates send)
       = Some (b, mkSession (Returned (Some (Status Internal err))) (sent s) (logged s)))
  ∧ (∀ fs', fs' !! "trust_bundles.json"
            = Samples.dir_garbled_certificates !! "trust_bundles.json" →
       buildJWTBundlesResponse fs'
       = buildJWTBundlesResponse Samples.dir_garbled_certificates).
Proof.
  assert (no_valid_certificate Samples.dir_garbled_certificates) as Hno
    by (right; left; vm_compute; reflexivity).
  split; [exact Hno|].
  exact (certificates_needed_by_x509_streams_only Samples.dir_garbled_certificates Hno).
Defined.

End C1_samples.

(** ** C10: block types are not inspected *)

Section C10.
Context {pem : PemPkg} {x509 : X509Pkg} {b64 : Base64Pkg} {json : JsonPkg}
        {rng : MapRange}.

Lemma decodeLoop_retype f fuel data ders :
  @decodeLoop (retype f pem) fuel data ders = decodeLoop fuel data ders.
Proof.
  revert data ders. induction fuel as [|fuel IH]; intros data ders; [done|].
  destruct data as [|c data]; [done|].
  cbn [decodeLoop]. change (@pem_Decode (retype f pem) (c :: data))
    with (retype_block f <$> (pem_Decode (c :: data)).1, (pem_Decode (c :: data)).2).
  destruct (pem_Decode (c :: data)) as [[block|] rest]; simpl; [|done].
  apply IH.
Qed.

Lemma loadPrivateKeyPKCS8DER_with_ParseCertificate g fs name :
  @loadPrivateKeyPKCS8DER pem (with_ParseCertificate g x509) fs name
  = loadPrivateKeyPKCS8DER fs name.
Proof. reflexivity. Qed.

Lemma buildX509SVIDResponse_Ok_inv fs resp :
  buildX509SVIDResponse fs = Ok resp →
  ∃ leafDER ders keyDER caDERs leaf uri uris,
    loadPEMDERs fs "certificates.pem" = Ok (leafDER :: ders)
    ∧ loadPrivateKeyPKCS8DER fs "private_key.pem" = Ok keyDER
    ∧ loadPEMDERs fs "ca_certificates.pem" = Ok caDERs
    ∧ x509_ParseCertificate leafDER = Ok leaf
    ∧ URIs leaf = uri :: uris
    ∧ resp = {| Svids := [ {| SpiffeId := URL_String uri;
                              X509Svid := concatDERs (leafDER :: ders);
                              X509SvidKey := keyDER;
                              Bundle := concatDERs caDERs |} ] |}.
Proof.
  unfold buildX509SVIDResponse. intros H.
  destruct (loadPEMDERs fs "certificates.pem") as [[|leafDER ders]|] eqn:E1; try done.
  simpl in H.
  destruct (loadPrivateKeyPKCS8DER fs "private_key.pem") as [keyDER|] eqn:E2; [|done].
  simpl in H.
  destruct (loadPEMDERs fs "ca_certificates.pem") as [caDERs|] eqn:E3; [|done].
  simpl in H.
  destruct (x509_ParseCertificate leafDER) as [leaf|] eqn:E4; [|done].
  simpl in H.
  destruct (URIs leaf) as [|uri uris] eqn:E5; [done|].
  injection H as <-. by exists leafDER, ders, keyDER, caDERs, leaf, uri, uris.
Qed.

(** C10.  [loadPEMDERs] gives the same sequence whatever the blocks' type
    labels are; a successful SVID build puts the bytes of every block of
    [certificates.pem] into [X509Svid] and of every block of
    [ca_certificates.pem] into [Bundle]; and of all these blocks the builds
    hand only the first of [certificates.pem] to [x509.ParseCertificate]. *)
Theorem block_types_are_not_inspected :
  (∀ f fs name, @loadPEMDERs (retype f pem) fs name = loadPEMDERs fs name)
  ∧ (∀ fs resp, buildX509SVIDResponse fs = Ok resp →
       ∃ data blocks cadata cablocks,
         fs !! "certificates.pem" = Some data ∧ decoded data blocks
         ∧ fs !! "ca_certificates.pem" = Some cadata ∧ decoded cadata cablocks
         ∧ ∀ svid, svid ∈ Svids resp →
             X509Svid svid = concat (Bytes <$> blocks)
             ∧ Bundle svid = concat (Bytes <$> cablocks))
  ∧ (∀ g fs der ders,
       loadPEMDERs fs "certificates.pem" = Ok (der :: ders) →
       g der = x509_ParseCertificate der →
       @buildX509SVIDResponse pem (with_ParseCertificate g x509) fs
       = buildX509SVIDResponse fs
       ∧ @buildX509BundlesResponse pem (with_ParseCertificate g x509) b64 json rng fs
         = buildX509BundlesResponse fs).
Proof.
  split_and!.
  - intros f fs name. unfold loadPEMDERs.
    destruct (ReadFile fs name) as [data|e]; simpl; [|done].
    by rewrite decodeLoop_retype.
  - intros fs resp H.
    apply buildX509SVIDResponse_Ok_inv in H
      as (leafDER & ders & keyDER & caDERs & leaf & uri & uris & H1 & _ & H3 & _ & _ & ->).
    apply loadPEMDERs_Ok_inv in H1 as (data & blocks & Hd & Hb & Heq).
    apply loadPEMDERs_Ok_inv in H3 as (cadata & cablocks & Hcd & Hcb & ->).
    exists data, blocks, cadata, cablocks. split_and!; try done.
    intros svid Hin. apply list_elem_of_singleton in Hin as ->. simpl.
    by rewrite Heq, !concatDERs_concat.
  - intros g fs der ders Hload Hg. split.
    + unfold buildX509SVIDResponse. rewrite Hload. simpl.
      rewrite loadPrivateKeyPKCS8DER_with_ParseCertificate.
      destruct (loadPrivateKeyPKCS8DER fs "private_key.pem"); [|done]. simpl.
      destruct (loadPEMDERs fs "ca_certificates.pem"); [|done]. simpl.
      by rewrite Hg.
    + unfold buildX509BundlesResponse. rewrite Hload. simpl. by rewrite Hg.
Qed.

End C10.

Section C10_samples.
#[local] Existing Instances Demo.pem Demo.x509 Demo.base64 Demo.range Samples.json.

(** A [PRIVATE KEY] block placed after the leaf in [certificates.pem] ends
    up in the SVID's certificate bytes: the leaf's 30 bytes, then the three
    bytes of the key document. *)
Example private_key_block_is_served_as_certificate :
  (λ r, X509Svid <$> Svids r) <$>
    match buildX509SVIDResponse Samples.dir_key_in_chain with
    | Ok r => Some r
    | Err _ => None
    end
  = Some [ (Byte.x30 :: bytes_of "spiffe://example.org/workload")
           ++ [Demo.tagPKCS8; Demo.tagEC; Byte.x07] ].
Proof. vm_compute. reflexivity. Qed.

Lemma block_types_are_not_inspected_witness :
  buildX509SVIDResponse Samples.dir_key_in_chain = Ok Samples.resp_key_in_chain
  ∧ (∃ data blocks cadata cablocks,
       Samples.dir_key_in_chain !! "certificates.pem" = Some data
       ∧ decoded data blocks
       ∧ Samples.dir_key_in_chain !! "ca_certificates.pem" = Some cadata
       ∧ decoded cadata cablocks
       ∧ ∀ svid, svid ∈ Svids Samples.resp_key_in_chain →
           X509Svid svid = concat (Bytes <$> blocks)
           ∧ Bundle svid = concat (Bytes <$> cablocks))
  ∧ loadPEMDERs Samples.dir_key_in_chain "certificates.pem"
    = Ok [Samples.leaf_der; [Demo.tagPKCS8; Demo.tagEC; Byte.x07]]
  ∧ Samples.parse_leaf_only Samples.leaf_der = x509_ParseCertificate Samples.leaf_der
  ∧ @buildX509SVIDResponse Demo.pem
      (with_ParseCertificate Samples.parse_leaf_only Demo.x509) Samples.dir_key_in_chain
    = buildX509SVIDResponse Samples.dir_key_in_chain.
Proof.
  destruct (@block_types_are_not_inspected Demo.pem Demo.x509 Demo.base64 Samples.json
              Demo.range) as (_ & H2 & H3).
  assert (buildX509SVIDResponse Samples.dir_key_in_chain = Ok Samples.resp_key_in_chain)
    as Hb by (vm_compute; reflexivity).
  assert (loadPEMDERs Samples.dir_key_in_chain "certificates.pem"
          = Ok [Samples.leaf_der; [Demo.tagPKCS8; Demo.tagEC; Byte.x07]])
    as Hl by (vm_compute; reflexivity).
  assert (Samples.parse_leaf_only Samples.leaf_der = x509_ParseCertificate Samples.leaf_der)
    as Hg by (vm_compute; reflexivity).
  split_and!; [exact Hb|exact (H2 _ _ Hb)|exact Hl|exact Hg|].
  exact (proj1 (H3 _ _ _ _ Hl Hg)).
Defined.

End C10_samples.

(** ** C3 and C4: the private key decoder *)

Section KeyDecoder.
Context {pem : PemPkg} {x509 : X509Pkg}.

Lemma loadPrivateKeyPKCS8DER_unreadable fs name :
  fs !! name = None → loadPrivateKeyPKCS8DER fs name = Err (ErrRead name (OSError name)).
Proof. intros H. unfold loadPrivateKeyPKCS8DER, ReadFile. by rewrite H. Qed.

Lemma loadPrivateKeyPKCS8DER_no_block fs name data rest :
  fs !! name = Some data → pem_Decode data = (None, rest) →
  loadPrivateKeyPKCS8DER fs name = Err (ErrNoPEMBlock name).
Proof. intros H Hd. unfold loadPrivateKeyPKCS8DER, ReadFile. rewrite H. simpl. by rewrite Hd. Qed.

(** What the [switch block.Type] does, branch by branch. *)
Lemma loadPrivateKeyPKCS8DER_block fs name data block rest :
  fs !! name = Some data → pem_Decode data = (Some block, rest) →
  loadPrivateKeyPKCS8DER fs name
  = if decide (BlockType block = "PRIVATE KEY") then Ok (Bytes block)
    else if decide (BlockType block = "EC PRIVATE KEY") then
      key ← wrap ErrParseEC (x509_ParseECPrivateKey (Bytes block));
      x509_MarshalPKCS8PrivateKey (ECDSAKey key)
    else if decide (BlockType block = "RSA PRIVATE KEY") then
      key ← wrap ErrParseRSA (x509_ParsePKCS1PrivateKey (Bytes block));
      x509_MarshalPKCS8PrivateKey (RSAKey key)
    else Err (ErrUnsupportedPEMType (BlockType block) name).
Proof. intros H Hd. unfold loadPrivateKeyPKCS8DER, ReadFile. rewrite H. simpl. by rewrite Hd. Qed.

Lemma loadPrivateKeyPKCS8DER_pkcs8 fs name data block rest :
  fs !! name = Some data → pem_Decode data = (Some block, rest) →
  BlockType block = "PRIVATE KEY" →
  loadPrivateKeyPKCS8DER fs name = Ok (Bytes block).
Proof.
  intros H Hd Ht. rewrite (loadPrivateKeyPKCS8DER_block _ _ _ _ _ H Hd).
  by rewrite decide_True.
Qed.

Lemma loadPrivateKeyPKCS8DER_converted fs name data block rest k :
  fs !! name = Some data → pem_Decode data = (Some block, rest) →
  converted_key block k →
  loadPrivateKeyPKCS8DER fs name = x509_MarshalPKCS8PrivateKey k.
Proof.
  intros H Hd Hk. rewrite (loadPrivateKeyPKCS8DER_block _ _ _ _ _ H Hd).
  destruct Hk as [k Ht Hp|k Ht Hp]; rewrite Ht; simpl.
  - by rewrite Hp.
  - by rewrite Hp.
Qed.

(** C3, as amended.  A [PRIVATE KEY] file is answered with its own bytes,
    unparsed; an EC or RSA file holding the key [k] is answered with what
    [x509.MarshalPKCS8PrivateKey] writes for [k].  So the answers for a
    native PKCS#8 file and for an EC or RSA file of the same key are the
    same bytes when the PKCS#8 file holds the marshaller's document for
    the key. *)
Theorem key_formats_agree_on_marshalled_document
    (fs : CredsDir) (name8 name : string) (data8 data : bytes)
    (block8 block : Block) (rest8 rest : bytes) (k : privateKey ecKey rsaKey) :
  fs !! name8 = Some data8 → pem_Decode data8 = (Some block8, rest8) →
  BlockType block8 = "PRIVATE KEY" →
  fs !! name = Some data → pem_Decode data = (Some block, rest) →
  converted_key block k →
  loadPrivateKeyPKCS8DER fs name8 = Ok (Bytes block8)
  ∧ loadPrivateKeyPKCS8DER fs name = x509_MarshalPKCS8PrivateKey k
  ∧ (x509_MarshalPKCS8PrivateKey k = Ok (Bytes block8) ↔
     loadPrivateKeyPKCS8DER fs name = loadPrivateKeyPKCS8DER fs name8).
Proof.
  intros H8 Hd8 Ht8 H Hd Hk.
  rewrite (loadPrivateKeyPKCS8DER_pkcs8 _ _ _ _ _ H8 Hd8 Ht8).
  rewrite (loadPrivateKeyPKCS8DER_converted _ _ _ _ _ _ H Hd Hk).
  done.
Qed.

(** C4, as amended.  An unreadable file is an [IOError]; malformed bytes in
    an EC or RSA block are a [ParseError]; a block of any type but
    [PRIVATE KEY], [EC PRIVATE KEY] and [RSA PRIVATE KEY] is an
    [UnsupportedFormat]; the bytes of a [PRIVATE KEY] block are returned
    without being parsed, whatever they are. *)
Theorem key_decoder_failures (fs : CredsDir) (name : string) :
  (fs !! name = None →
   ∃ e, loadPrivateKeyPKCS8DER fs name = Err e ∧ kind_of e = Some IOError)
  ∧ (∀ data block rest,
       fs !! name = Some data → pem_Decode data = (Some block, rest) →
       (BlockType block = "EC PRIVATE KEY" →
        is_Err (x509_ParseECPrivateKey (Bytes block)) →
        ∃ e, loadPrivateKeyPKCS8DER fs name = Err e ∧ kind_of e = Some ParseError)
       ∧ (BlockType block = "RSA PRIVATE KEY" →
          is_Err (x509_ParsePKCS1PrivateKey (Bytes block)) →
          ∃ e, loadPrivateKeyPKCS8DER fs name = Err e ∧ kind_of e = Some ParseError)
       ∧ (BlockType block ∉ ["PRIVATE KEY"; "EC PRIVATE KEY"; "RSA PRIVATE KEY"] →
          ∃ e, loadPrivateKeyPKCS8DER fs name = Err e
               ∧ kind_of e = Some UnsupportedFormat)
       ∧ (BlockType block = "PRIVATE KEY" →
          loadPrivateKeyPKCS8DER fs name = Ok (Bytes block))).
Proof.
  split.
  - intros H. rewrite (loadPrivateKeyPKCS8DER_unreadable _ _ H). by eexists.
  - intros data block rest H Hd.
    rewrite (loadPrivateKeyPKCS8DER_block _ _ _ _ _ H Hd). split_and!.
    + intros Ht [e He]. rewrite Ht, He. simpl. by eexists.
    + intros Ht [e He]. rewrite Ht, He. simpl. by eexists.
    + intros Ht. rewrite !not_elem_of_cons in Ht. destruct Ht as (? & ? & ? & _).
      rewrite !decide_False by done. by eexists.
    + intros Ht. by rewrite decide_True.
Qed.

End KeyDecoder.

Section KeyDecoder_samples.
#[local] Existing Instances Demo.pem Demo.x509 Demo.base64 Demo.range Samples.json.

(** The key [7] of the stand-in documents: the PKCS#8 file and the RSA file
    are answered with the same bytes. *)
Example rsa_key_formats_agree :
  loadPrivateKeyPKCS8DER Samples.dir_three_keys "pkcs8_rsa.pem"
  = loadPrivateKeyPKCS8DER Samples.dir_three_keys "rsa.pem".
Proof. vm_compute. reflexivity. Qed.

(** C4 as the specification has it fails.  The [PRIVATE KEY] block of
    [key_garbage_pem] holds the single byte [0x00], which the PKCS#8 parser
    rejects; the decoder succeeds with that byte. *)
Lemma garbage_pkcs8_is_accepted :
  pem_Decode Samples.key_garbage_pem
  = (Some {| BlockType := "PRIVATE KEY"; Headers := []; Bytes := [Byte.x00] |}, [])
  ∧ malformed_key {| BlockType := "PRIVATE KEY"; Headers := []; Bytes := [Byte.x00] |}
  ∧ loadPrivateKeyPKCS8DER (Samples.dir_with_key Samples.key_garbage_pem) "private_key.pem"
    = Ok [Byte.x00].
Proof.
  split_and!; [vm_compute; reflexivity| |vm_compute; reflexivity].
  left. split; [reflexivity|]. eexists. vm_compute. reflexivity.
Qed.

Lemma key_decoder_failures_witness :
  (∃ e, loadPrivateKeyPKCS8DER Samples.dir_no_certificates "private_key.pem" = Err e
        ∧ kind_of e = Some IOError)
  ∧ (∃ e, loadPrivateKeyPKCS8DER (Samples.dir_with_key Samples.key_ec_garbage_pem)
            "private_key.pem" = Err e
          ∧ kind_of e = Some ParseError)
  ∧ (∃ e, loadPrivateKeyPKCS8DER (Samples.dir_with_key Samples.key_dsa_pem)
            "private_key.pem" = Err e
          ∧ kind_of e = Some UnsupportedFormat)
  ∧ loadPrivateKeyPKCS8DER (Samples.dir_with_key Samples.key_garbage_pem) "private_key.pem"
    = Ok [Byte.x00].
Proof.
  split_and!.
  - apply (proj1 (key_decoder_failures Samples.dir_no_certificates "private_key.pem")).
    vm_compute. reflexivity.
  - refine (proj1 (proj2 (key_decoder_failures
                            (Samples.dir_with_key Samples.key_ec_garbage_pem)
                            "private_key.pem")
                     Samples.key_ec_garbage_pem
                     {| BlockType := "EC PRIVATE KEY"; Headers := []; Bytes := [Byte.x00] |}
                     [] _ _) _ _).
    + vm_compute; reflexivity.
    + vm_compute; reflexivity.
    + reflexivity.
    + eexists. vm_compute. reflexivity.
  - refine (proj1 (proj2 (proj2 (proj2 (key_decoder_failures
                            (Samples.dir_with_key Samples.key_dsa_pem)
                            "private_key.pem")
                     Samples.key_dsa_pem
                     {| BlockType := "DSA PRIVATE KEY"; Headers := []; Bytes := [Byte.x00] |}
                     [] _ _))) _).
    + vm_compute; reflexivity.
    + vm_compute; reflexivity.
    + rewrite !not_elem_of_cons. split_and!; try discriminate. apply not_elem_of_nil.
  - refine (proj2 (proj2 (proj2 (proj2 (key_decoder_failures
                            (Samples.dir_with_key Samples.key_garbage_pem)
                            "private_key.pem")
                     Samples.key_garbage_pem
                     {| BlockType := "PRIVATE KEY"; Headers := []; Bytes := [Byte.x00] |}
                     [] _ _))) _).
    + vm_compute; reflexivity.
    + vm_compute; reflexivity.
    + reflexivity.
Defined.

End KeyDecoder_samples.

Section KeyDocuments_samples.
#[local] Existing Instances Demo.pem Documents.x509 Demo.base64 Demo.range Samples.json.

(** C3 as the specification has it fails.  [pkcs8_bare.pem] and [ec.pem]
    hold the same key: the PKCS#8 parser reads the key from the one, the EC
    parser from the other.  The PKCS#8 document leaves out the public point,
    as the format allows.  The decoder answers the first file with its 67
    bytes and the second with the 138 bytes the marshaller writes, the
    public point among them. *)
Lemma same_key_different_pkcs8_bytes :
  pem_Decode Credentials.key_pkcs8_bare_pem
  = (Some {| BlockType := "PRIVATE KEY"; Headers := [];
             Bytes := Credentials.key_pkcs8_bare_der |}, [])
  ∧ pem_Decode Credentials.key_ec_pem
    = (Some {| BlockType := "EC PRIVATE KEY"; Headers := [];
               Bytes := Credentials.key_ec_der |}, [])
  ∧ x509_ParsePKCS8PrivateKey Credentials.key_pkcs8_bare_der = Ok (ECDSAKey Credentials.key)
  ∧ x509_ParseECPrivateKey Credentials.key_ec_der = Ok Credentials.key
  ∧ loadPrivateKeyPKCS8DER Credentials.dir_keys "pkcs8_bare.pem"
    = Ok Credentials.key_pkcs8_bare_der
  ∧ loadPrivateKeyPKCS8DER Credentials.dir_keys "ec.pem" = Ok Credentials.key_pkcs8_der
  ∧ length Credentials.key_pkcs8_bare_der = 67
  ∧ length Credentials.key_pkcs8_der = 138.
Proof. split_and!; vm_compute; reflexivity. Qed.

Lemma key_formats_agree_on_marshalled_document_witness :
  loadPrivateKeyPKCS8DER Credentials.dir_keys "pkcs8.pem" = Ok Credentials.key_pkcs8_der
  ∧ loadPrivateKeyPKCS8DER Credentials.dir_keys "ec.pem"
    = x509_MarshalPKCS8PrivateKey (ECDSAKey Credentials.key)
  ∧ (x509_MarshalPKCS8PrivateKey (ECDSAKey Credentials.key) = Ok Credentials.key_pkcs8_der ↔
     loadPrivateKeyPKCS8DER Credentials.dir_keys "ec.pem"
     = loadPrivateKeyPKCS8DER Credentials.dir_keys "pkcs8.pem").
Proof.
  apply (key_formats_agree_on_marshalled_document Credentials.dir_keys
           "pkcs8.pem" "ec.pem" Credentials.key_pkcs8_pem Credentials.key_ec_pem
           {| BlockType := "PRIVATE KEY"; Headers := [];
              Bytes := Credentials.key_pkcs8_der |}
           {| BlockType := "EC PRIVATE KEY"; Headers := [];
              Bytes := Credentials.key_ec_der |} [] []).
  - vm_compute; reflexivity.
  - vm_compute; reflexivity.
  - reflexivity.
  - vm_compute; reflexivity.
  - vm_compute; reflexivity.
  - apply (@converted_ec Documents.x509 _ Credentials.key); vm_compute; reflexivity.
Defined.

End KeyDocuments_samples.

(** ** C7: the broadcast hub *)

Lemma select_send_default_cap ch : cap (select_send_default ch) = cap ch.
Proof. unfold select_send_default, chan_send. by case_decide. Qed.

Lemma select_send_default_buffered ch :
  buffered (select_send_default ch)
  = if decide (buffered ch < cap ch) then S (buffered ch) else buffered ch.
Proof. unfold select_send_default, chan_send. by case_decide. Qed.

(** A full channel: the plain send would wait, the [select] drops it. *)
Lemma select_send_default_full ch :
  cap ch ≤ buffered ch → chan_send ch = None ∧ select_send_default ch = ch.
Proof.
  intros H. unfold select_send_default, chan_send.
  rewrite decide_False by lia. done.
Qed.

Lemma select_send_default_room ch :
  buffered ch < cap ch →
  chan_send ch = Some (select_send_default ch)
  ∧ buffered (select_send_default ch) = S (buffered ch).
Proof.
  intros H. unfold select_send_default, chan_send.
  rewrite decide_True by lia. done.
Qed.

Lemma single_slot_send ch : single_slot ch → single_slot (select_send_default ch).
Proof.
  intros [Hc Hb]. split.
  - by rewrite select_send_default_cap.
  - rewrite select_send_default_buffered. case_decide; lia.
Qed.

Lemma single_slot_send_pending ch :
  single_slot ch → buffered (select_send_default ch) = 1.
Proof.
  intros [Hc Hb]. rewrite select_send_default_buffered. case_decide; lia.
Qed.

Lemma single_slot_send_twice ch :
  single_slot ch → select_send_default (select_send_default ch) = select_send_default ch.
Proof.
  intros Hs. apply select_send_default_full.
  rewrite select_send_default_cap, (single_slot_send_pending _ Hs). destruct Hs. lia.
Qed.

Lemma single_slot_recv ch ch' : single_slot ch → chan_recv ch = Some ch' → single_slot ch'.
Proof.
  intros [Hc Hb]. unfold chan_recv. destruct (buffered ch) as [|n] eqn:E; [done|].
  intros [= <-]. split; simpl; lia.
Qed.

Lemma send_all_untouched store targets l :
  l ∉ targets.*2 → send_all store targets !! l = store !! l.
Proof.
  revert store. induction targets as [|[id l'] targets IH]; intros store Hl; [done|].
  rewrite fmap_cons, not_elem_of_cons in Hl. destruct Hl as [Hne Hl].
  simpl. unfold send_all in IH. rewrite IH by done. by rewrite lookup_alter_ne.
Qed.

Lemma send_all_single_slot store targets :
  map_Forall (λ _ ch, single_slot ch) store →
  map_Forall (λ _ ch, single_slot ch) (send_all store targets).
Proof.
  revert store. induction targets as [|[id l'] targets IH]; intros store Hs; [done|].
  simpl. apply IH. intros l ch. destruct (decide (l = l')) as [->|Hne].
  - rewrite lookup_alter_eq. destruct (store !! l') as [c|] eqn:E; [|done].
    intros [= <-]. apply single_slot_send. by apply (Hs l').
  - rewrite lookup_alter_ne by done. apply Hs.
Qed.

(** On single-slot channels, a channel that is a target once or more
    often ends as after one send. *)
Lemma send_all_target store targets l ch :
  map_Forall (λ _ ch, single_slot ch) store →
  l ∈ targets.*2 → store !! l = Some ch →
  send_all store targets !! l = Some (select_send_default ch).
Proof.
  revert store ch. induction targets as [|[id l'] targets IH]; intros store ch Hs Hl Hch.
  { by apply elem_of_nil in Hl. }
  simpl. set (store' := alter select_send_default l' store).
  assert (map_Forall (λ _ ch, single_slot ch) store') as Hs'
    by apply (send_all_single_slot store [(id, l')] Hs).
  destruct (decide (l = l')) as [->|Hne].
  - assert (store' !! l' = Some (select_send_default ch)) as Hch'
      by (unfold store'; by rewrite lookup_alter_eq, Hch).
    destruct (decide (l' ∈ targets.*2)) as [Hin|Hnin].
    + fold (send_all store' targets). rewrite (IH store' _ Hs' Hin Hch').
      f_equal. apply single_slot_send_twice. by apply (Hs l').
    + fold (send_all store' targets). by rewrite send_all_untouched.
  - rewrite fmap_cons, elem_of_cons in Hl. destruct Hl as [?|Hl]; [done|].
    fold (send_all store' targets). apply IH; [done..|].
    unfold store'. by rewrite lookup_alter_ne.
Qed.

Section HubFacts.
Context {rng : MapRange}.

Lemma broadcast_chans b : chans (broadcast b) = send_all (chans b) (range_order (subs b)).
Proof. reflexivity. Qed.

Lemma range_order_targets (m : gmap Z nat) l :
  l ∈ (range_order m).*2 ↔ ∃ id, m !! id = Some l.
Proof.
  rewrite (range_order_perm m). rewrite list_elem_of_fmap. split.
  - intros ([id l'] & -> & Hin). exists id. by apply elem_of_map_to_list in Hin.
  - intros [id Hid]. exists (id, l). split; [done|]. by apply elem_of_map_to_list.
Qed.

Lemma hub_inv_new : hub_inv newBroadcaster.
Proof. unfold hub_inv, newBroadcaster. simpl. apply map_Forall_empty. Qed.

Lemma hub_inv_step b b' : hub_step b b' → hub_inv b → hub_inv b'.
Proof.
  unfold hub_inv. intros Hstep Hinv. destruct Hstep as [b|b id|b|b ch b' Hr].
  - simpl. apply map_Forall_insert_2; [|done]. split; simpl; lia.
  - done.
  - rewrite broadcast_chans. by apply send_all_single_slot.
  - unfold receive in Hr.
    destruct (chans b !! ch) as [c|] eqn:E; [|done]. simpl in Hr.
    destruct (chan_recv c) as [c'|] eqn:E'; [|done]. simpl in Hr.
    injection Hr as <-. simpl.
    apply map_Forall_insert_2; [|done]. eapply single_slot_recv; [|done]. by apply (Hinv ch).
Qed.

Lemma hub_inv_reachable b : hub_reachable b → hub_inv b.
Proof.
  unfold hub_reachable. revert b.
  apply (rtc_ind_r (R := hub_step) hub_inv newBroadcaster); [apply hub_inv_new|].
  intros b1 b2 _ Hstep IH. by eapply hub_inv_step.
Qed.

Lemma broadcast_subscribed b id l ch :
  hub_inv b → subs b !! id = Some l → chans b !! l = Some ch →
  chans (broadcast b) !! l = Some (select_send_default ch).
Proof.
  intros Hinv Hid Hch. rewrite broadcast_chans.
  apply send_all_target; [done| |done]. apply range_order_targets. by exists id.
Qed.

Lemma broadcast_unsubscribed b l :
  (∀ id, subs b !! id ≠ Some l) → chans (broadcast b) !! l = chans b !! l.
Proof.
  intros Hno. rewrite broadcast_chans. apply send_all_untouched.
  rewrite range_order_targets. intros [id Hid]. by apply (Hno id).
Qed.

Lemma broadcast_reachable b : hub_reachable b → hub_reachable (broadcast b).
Proof. intros H. eapply rtc_r; [exact H|constructor]. Qed.

Lemma broadcasts_reachable n b : hub_reachable b → hub_reachable (Nat.iter n broadcast b).
Proof. intros H. induction n as [|n IH]; [done|]. simpl. by apply broadcast_reachable. Qed.

Lemma broadcasts_subs n b : subs (Nat.iter n broadcast b) = subs b.
Proof. induction n as [|n IH]; [done|]. simpl. exact IH. Qed.

(** C7.  In every state the hub can be in, each channel has one slot and
    at most one pending notification.  [broadcast] always returns a next
    state; in it a subscription's channel is as after one
    [select]-with-[default] send, which on a channel that already holds a
    notification changes nothing where a plain send would wait, and on an
    empty one stores the notification; the channels of no subscription are
    left alone.  However often [broadcast] runs without the subscriber
    receiving, its channel then holds exactly one notification. *)
Theorem broadcast_is_nonblocking_single_slot (b : broadcaster) :
  hub_reachable b →
  (∀ l ch, chans b !! l = Some ch → cap ch = 1 ∧ buffered ch ≤ 1)
  ∧ (∀ id l ch, subs b !! id = Some l → chans b !! l = Some ch →
       chans (broadcast b) !! l = Some (select_send_default ch)
       ∧ (buffered ch = 1 → chan_send ch = None ∧ select_send_default ch = ch)
       ∧ (buffered ch = 0 → chan_send ch = Some (select_send_default ch)
                             ∧ buffered (select_send_default ch) = 1))
  ∧ (∀ l, (∀ id, subs b !! id ≠ Some l) → chans (broadcast b) !! l = chans b !! l)
  ∧ (∀ n id l ch, subs b !! id = Some l → chans b !! l = Some ch →
       ∃ ch', chans (Nat.iter (S n) broadcast b) !! l = Some ch'
              ∧ cap ch' = 1 ∧ buffered ch' = 1).
Proof.
  intros Hreach. pose proof (hub_inv_reachable b Hreach) as Hinv. split_and!.
  - intros l ch Hch. by apply (Hinv l).
  - intros id l ch Hid Hch. pose proof (Hinv l ch Hch) as [Hcap Hbuf]. split_and!.
    + by apply broadcast_subscribed with id.
    + intros H1. apply select_send_default_full. lia.
    + intros H0. destruct (select_send_default_room ch) as [-> ->]; [lia|].
      by rewrite H0.
  - intros l Hno. by apply broadcast_unsubscribed.
  - intros n id l ch Hid Hch. revert ch Hch.
    induction n as [|n IH]; intros ch Hch.
    + exists (select_send_default ch). simpl. split_and!.
      * by apply broadcast_subscribed with id.
      * rewrite select_send_default_cap. by apply (Hinv l).
      * apply single_slot_send_pending. by apply (Hinv l).
    + destruct (IH ch Hch) as (ch1 & H1 & Hc1 & Hb1).
      exists (select_send_default ch1).
      change (Nat.iter (S (S n)) broadcast b) with (broadcast (Nat.iter (S n) broadcast b)).
      split_and!.
      * apply broadcast_subscribed with id; [|by rewrite broadcasts_subs|done].
        apply hub_inv_reachable. by apply broadcasts_reachable.
      * by rewrite select_send_default_cap.
      * apply single_slot_send_pending. split; lia.
Qed.

End HubFacts.

(** ** C2: errors at the first build and at a reload *)

Section ReloadFacts.
Context {rng : MapRange} {R : Type}.
Variable name : string.
Variable build : CredsDir → result R.

Lemma receive_Some_inv ch b b' :
  receive ch b = Some b' →
  ∃ c c', chans b !! ch = Some c ∧ chan_recv c = Some c'
          ∧ b' = {| chans := <[ch := c']> (chans b); subs := subs b; next := next b |}.
Proof.
  unfold receive. intros H.
  destruct (chans b !! ch) as [c|] eqn:E; [|done]. simpl in H.
  destruct (chan_recv c) as [c'|] eqn:E'; [|done]. simpl in H.
  injection H as <-. by exists c, c'.
Qed.

(** After a [broadcast] a subscriber finds a notification to receive. *)
Lemma receive_after_broadcast b id rotated :
  hub_inv b → subs b !! id = Some rotated → is_Some (chans b !! rotated) →
  is_Some (receive rotated (broadcast b)).
Proof.
  intros Hinv Hid [c Hc].
  pose proof (broadcast_subscribed b id rotated c Hinv Hid Hc) as Hb.
  pose proof (single_slot_send_pending c (Hinv rotated c Hc)) as Hp.
  unfold receive. rewrite Hb. simpl. unfold chan_recv. rewrite Hp. simpl. eauto.
Qed.

Lemma session_reload_failure_then_retry b (s : session R) id rotated fs send err :
  hub_inv b → at_phase s = Live id rotated → subs b !! id = Some rotated →
  is_Some (receive rotated b) → build fs = Err err →
  ∃ b' s',
    session_step name build b s (Rotated fs send) = Some (b', s')
    ∧ at_phase s' = Live id rotated
    ∧ sent s' = sent s
    ∧ logged s' = logged s ++ [(name +:+ ": reload failed", err)]
    ∧ subs b' = subs b
    ∧ ∀ fs2 resp, build fs2 = Ok resp →
        ∃ b'', session_step name build (broadcast b') s' (Rotated fs2 None)
               = Some (b'', mkSession (Live id rotated) (sent s ++ [resp]) (logged s')).
Proof.
  intros Hinv Hp Hid [b' Hr] Hb.
  exists b', (mkSession (Live id rotated) (sent s)
                        (logged s ++ [(name +:+ ": reload failed", err)])).
  split_and!; try done.
  - by apply session_reload_failure.
  - apply receive_Some_inv in Hr as (c & c' & _ & _ & ->). done.
  - intros fs2 resp Hb2.
    assert (hub_inv b') as Hinv' by (eapply hub_inv_step; [by econstructor|done]).
    apply receive_Some_inv in Hr as (c & c' & Hc & Hc' & ->).
    destruct (receive_after_broadcast
                {| chans := <[rotated := c']> (chans b); subs := subs b; next := next b |}
                id rotated Hinv' Hid) as [b'' Hr''].
    { simpl. rewrite lookup_insert_eq. eauto. }
    exists b''.
    exact (session_reload_success name build _ b''
             (mkSession (Live id rotated) (sent s)
                        (logged s ++ [(name +:+ ": reload failed", err)]))
             id rotated fs2 resp eq_refl Hr'' Hb2).
Qed.

End ReloadFacts.

Section C2.
Context {pem : PemPkg} {x509 : X509Pkg} {b64 : Base64Pkg} {json : JsonPkg}
        {rng : MapRange}.

(** C2.  For each of the three streaming operations: an error of the first
    build makes the handler return an [Internal] status with that error,
    and nothing is sent; an error of a build run on a rotation signal is
    logged, nothing is sent, and the handler stays in its loop with its
    subscription, where the next [broadcast] reaches it and a build that
    then succeeds is sent. *)
Theorem first_build_error_is_fatal_reload_error_is_logged (op : operation) :
  (∀ b s fs send err,
     at_phase s = Start → build_of op fs = Err err →
     Fetch op b s (Invoke fs send)
     = Some (b, mkSession (Returned (Some (Status Internal err))) (sent s) (logged s)))
  ∧ (∀ b s id rotated fs send err,
       hub_inv b → at_phase s = Live id rotated → subs b !! id = Some rotated →
       is_Some (receive rotated b) → build_of op fs = Err err →
       ∃ b' s',
         Fetch op b s (Rotated fs send) = Some (b', s')
         ∧ at_phase s' = Live id rotated
         ∧ sent s' = sent s
         ∧ logged s' = logged s ++ [(name_of op +:+ ": reload failed", err)]
         ∧ subs b' = subs b
         ∧ ∀ fs2 resp, build_of op fs2 = Ok resp →
             ∃ b'', Fetch op (broadcast b') s' (Rotated fs2 None)
                    = Some (b'', mkSession (Live id rotated) (sent s ++ [resp]) (logged s'))).
Proof.
  destruct op; (split;
    [ intros b s fs send err; apply session_initial_failure
    | intros b s id rotated fs send err; apply session_reload_failure_then_retry ]).
Qed.

(** The handler's subscription is in place once it has subscribed. *)
Lemma subscribed_is_linked (op : operation) b s b' s' :
  hub_inv b → at_phase s = Sent → Fetch op b s Subscribe = Some (b', s') →
  ∃ id rotated, at_phase s' = Live id rotated ∧ subs b' !! id = Some rotated
                ∧ chans b' !! rotated = Some (make_chan 1) ∧ hub_inv b'.
Proof.
  intros Hinv Hp H.
  assert (session_step (name_of op) (build_of op) b s Subscribe = Some (b', s')) as H'
    by (by destruct op).
  unfold session_step in H'. rewrite Hp in H'. simpl in H'. injection H' as <- <-.
  exists (next b), (fresh (dom (chans b))). simpl. split_and!; try done.
  - by rewrite lookup_insert_eq.
  - by rewrite lookup_insert_eq.
  - apply (hub_inv_step b (subscribe b).2); [constructor|done].
Qed.

End C2.

Section Hub_samples.
#[local] Existing Instances Demo.pem Demo.x509 Demo.base64 Demo.range Samples.json.

Lemma hub_one_reachable : hub_reachable Samples.hub_one.
Proof. apply rtc_once. constructor. Qed.

Lemma hub_one_notified_reachable : hub_reachable Samples.hub_one_notified.
Proof. apply broadcast_reachable, hub_one_reachable. Qed.

Lemma broadcast_is_nonblocking_single_slot_witness :
  hub_reachable Samples.hub_one_notified
  ∧ (∀ l ch, chans Samples.hub_one_notified !! l = Some ch → cap ch = 1 ∧ buffered ch ≤ 1)
  ∧ (∀ id l ch, subs Samples.hub_one_notified !! id = Some l →
       chans Samples.hub_one_notified !! l = Some ch →
       chans (broadcast Samples.hub_one_notified) !! l = Some (select_send_default ch)
       ∧ (buffered ch = 1 → chan_send ch = None ∧ select_send_default ch = ch)
       ∧ (buffered ch = 0 → chan_send ch = Some (select_send_default ch)
                             ∧ buffered (select_send_default ch) = 1))
  ∧ (∀ l, (∀ id, subs Samples.hub_one_notified !! id ≠ Some l) →
       chans (broadcast Samples.hub_one_notified) !! l = chans Samples.hub_one_notified !! l)
  ∧ (∀ n id l ch, subs Samples.hub_one_notified !! id = Some l →
       chans Samples.hub_one_notified !! l = Some ch →
       ∃ ch', chans (Nat.iter (S n) broadcast Samples.hub_one_notified) !! l = Some ch'
              ∧ cap ch' = 1 ∧ buffered ch' = 1).
Proof.
  split; [exact hub_one_notified_reachable|].
  exact (broadcast_is_nonblocking_single_slot Samples.hub_one_notified
           hub_one_notified_reachable).
Defined.

(** Two subscribers; the first never receives.  After a [broadcast] both
    channels hold one notification; the second subscriber takes its own;
    the next [broadcast] returns, leaves the first channel at one and
    fills the second again. *)
Example idle_subscriber_does_not_hold_up_the_others :
  (λ b, (chans b !! 0, chans b !! 1)) (broadcast Samples.hub_two)
  = (Some {| cap := 1; buffered := 1 |}, Some {| cap := 1; buffered := 1 |})
  ∧ (λ b, (chans b !! 0, chans b !! 1)) <$> receive 1 (broadcast Samples.hub_two)
    = Some (Some {| cap := 1; buffered := 1 |}, Some {| cap := 1; buffered := 0 |})
  ∧ (λ b, (chans (broadcast b) !! 0, chans (broadcast b) !! 1))
      <$> receive 1 (broadcast Samples.hub_two)
    = Some (Some {| cap := 1; buffered := 1 |}, Some {| cap := 1; buffered := 1 |}).
Proof. split_and!; vm_compute; reflexivity. Qed.

End Hub_samples.

Section C2_samples.
#[local] Existing Instances Demo.pem Demo.x509 Demo.base64 Demo.range Samples.json.

Lemma first_build_error_is_fatal_reload_error_is_logged_witness :
  build_of SVIDStream Samples.dir_no_key = Err Samples.err_no_key
  ∧ Fetch SVIDStream newBroadcaster new_session (Invoke Samples.dir_no_key None)
    = Some (newBroadcaster,
            mkSession (Returned (Some (Status Internal Samples.err_no_key))) [] [])
  ∧ (∃ b' s',
       Fetch SVIDStream Samples.hub_one_notified Samples.session_live
         (Rotated Samples.dir_no_key None) = Some (b', s')
       ∧ at_phase s' = Live 0 0
       ∧ sent s' = [Samples.resp_svid]
       ∧ logged s' = [("FetchX509SVID: reload failed", Samples.err_no_key)]
       ∧ subs b' = subs Samples.hub_one_notified
       ∧ ∀ fs2 resp, build_of SVIDStream fs2 = Ok resp →
           ∃ b'', Fetch SVIDStream (broadcast b') s' (Rotated fs2 None)
                  = Some (b'', mkSession (Live 0 0) ([Samples.resp_svid] ++ [resp])
                                         (logged s'))).
Proof.
  assert (build_of SVIDStream Samples.dir_no_key = Err Samples.err_no_key) as Hb
    by (vm_compute; reflexivity).
  destruct (first_build_error_is_fatal_reload_error_is_logged SVIDStream) as [H1 H2].
  split_and!.
  - exact Hb.
  - exact (H1 newBroadcaster new_session Samples.dir_no_key None Samples.err_no_key
              eq_refl Hb).
  - refine (H2 Samples.hub_one_notified Samples.session_live 0%Z 0 Samples.dir_no_key
               None Samples.err_no_key _ eq_refl _ _ Hb).
    + apply hub_inv_reachable, hub_one_notified_reachable.
    + vm_compute. reflexivity.
    + eexists. vm_compute. reflexivity.
Defined.

(** A whole SVID session: first response, subscription, a rotation seen
    while the key file is missing (logged, nothing sent), the next
    rotation with the directory whole again (sent), disconnect. *)
Example svid_session_over_a_rotation :
  snd <$> session_run "FetchX509SVID" buildX509SVIDResponse newBroadcaster new_session
            [Invoke Samples.dir_jwt_only None; Subscribe]
  = Some Samples.session_live
  ∧ snd <$> (session_run "FetchX509SVID" buildX509SVIDResponse
               Samples.hub_one_notified Samples.session_live
               [Rotated Samples.dir_no_key None]
             ≫= λ '(b, s), session_run "FetchX509SVID" buildX509SVIDResponse
                             (broadcast b) s [Rotated Samples.dir_jwt_only None; Done])
    = Some {| at_phase := Returned None;
              sent := [Samples.resp_svid; Samples.resp_svid];
              logged := [("FetchX509SVID: reload failed", Samples.err_no_key)] |}.
Proof. split; vm_compute; reflexivity. Qed.

(** Without a [broadcast] in between there is nothing to receive. *)
Example no_rotation_without_broadcast :
  session_step "FetchX509SVID" buildX509SVIDResponse Samples.hub_one Samples.session_live
    (Rotated Samples.dir_jwt_only None) = None.
Proof. vm_compute. reflexivity. Qed.

End C2_samples.

(** ** Loops that collect map entries *)

Section CollectFacts.
Context {A : Type}.
Variable key : A → string.
Variable contribution : A → result (option bytes).

Lemma collect_untouched l m out k :
  collect key contribution l m = Ok out → (∀ a, a ∈ l → key a ≠ k) → out !! k = m !! k.
Proof.
  revert m. induction l as [|a l IH]; intros m H Hk; simpl in H.
  - by injection H as <-.
  - destruct (contribution a) as [c|] eqn:Ec; [|done]. simpl in H.
    rewrite (IH _ H) by (intros a' Ha'; apply Hk; by right).
    destruct c as [v|]; [|done].
    rewrite lookup_insert_ne; [done|]. apply Hk. by left.
Qed.

Lemma collect_all_Ok l m out a :
  collect key contribution l m = Ok out → a ∈ l → ∃ c, contribution a = Ok c.
Proof.
  revert m. induction l as [|a' l IH]; intros m H Ha; simpl in H.
  - by apply elem_of_nil in Ha.
  - destruct (contribution a') as [c|] eqn:Ec; [|done]. simpl in H.
    apply elem_of_cons in Ha as [->|Ha]; [by exists c|]. by apply (IH _ H).
Qed.

Lemma collect_lookup l m out a c :
  NoDup (key <$> l) → collect key contribution l m = Ok out →
  a ∈ l → contribution a = Ok c →
  out !! key a = match c with
                 | Some v => Some v
                 | None => m !! key a
                 end.
Proof.
  revert m. induction l as [|a' l IH]; intros m Hnd H Ha Hc; simpl in H.
  - by apply elem_of_nil in Ha.
  - rewrite fmap_cons in Hnd. apply NoDup_cons in Hnd as [Hnin Hnd].
    destruct (contribution a') as [c'|] eqn:Ec; [|done]. simpl in H.
    apply elem_of_cons in Ha as [->|Ha].
    + assert (c' = c) as -> by congruence.
      rewrite (collect_untouched _ _ _ _ H).
      * destruct c as [v|]; [by rewrite lookup_insert_eq|done].
      * intros a Ha Heq. apply Hnin. rewrite <- Heq. by apply list_elem_of_fmap_2.
    + rewrite (IH _ Hnd H Ha Hc). destruct c as [v|]; [done|].
      destruct c' as [v'|]; [|done].
      rewrite lookup_insert_ne; [done|].
      intros Heq. apply Hnin. rewrite Heq. by apply list_elem_of_fmap_2.
Qed.

Lemma collect_Err l m a :
  a ∈ l → is_Err (contribution a) → is_Err (collect key contribution l m).
Proof.
  revert m. induction l as [|a' l IH]; intros m Ha He.
  - by apply elem_of_nil in Ha.
  - simpl. destruct (contribution a') as [c|e] eqn:Ec; [|by eexists]. simpl.
    apply elem_of_cons in Ha as [->|Ha].
    + destruct He as [e He]. congruence.
    + by apply IH.
Qed.

Lemma collect_Ok l m :
  (∀ a, a ∈ l → is_Ok (contribution a)) → is_Ok (collect key contribution l m).
Proof.
  revert m. induction l as [|a l IH]; intros m H; simpl; [by eexists|].
  destruct (H a) as [c ->]; [by left|]. simpl.
  apply IH. intros a' Ha'. apply H. by right.
Qed.

End CollectFacts.

(** Keys are unique, so the order of the elements does not matter to what
    is collected. *)
Lemma collect_Permutation {A : Type} (key : A → string) contribution (l l' : list A) m out :
  NoDup (key <$> l) → l ≡ₚ l' →
  collect key contribution l m = Ok out → collect key contribution l' m = Ok out.
Proof.
  intros Hnd Hp H.
  assert (NoDup (key <$> l')) as Hnd' by (by rewrite <- Hp).
  destruct (collect_Ok key contribution l' m) as [out' H'].
  { intros a Ha. rewrite <- Hp in Ha.
    destruct (collect_all_Ok _ _ _ _ _ _ H Ha) as [c Hc]. by exists c. }
  rewrite H'. f_equal. apply map_eq. intros k.
  destruct (decide (k ∈ key <$> l)) as [Hin|Hnin].
  - apply list_elem_of_fmap in Hin as (a & -> & Ha).
    destruct (collect_all_Ok _ _ _ _ _ _ H Ha) as [c Hc].
    rewrite (collect_lookup _ _ _ _ _ _ _ Hnd H Ha Hc).
    rewrite Hp in Ha. by rewrite (collect_lookup _ _ _ _ _ _ _ Hnd' H' Ha Hc).
  - rewrite (collect_untouched _ _ _ _ _ _ H), (collect_untouched _ _ _ _ _ _ H'); [done|..].
    + intros a Ha <-. apply Hnin. rewrite <- Hp in Ha. by apply list_elem_of_fmap_2.
    + intros a Ha <-. apply Hnin. by apply list_elem_of_fmap_2.
Qed.

#[global] Instance trust_domain_id_inj : Inj (=) (=) trust_domain_id.
Proof. intros a b H. unfold trust_domain_id in H. simpl in H. by simplify_eq. Qed.

Section BundleLoops.
Context {b64 : Base64Pkg} {json : JsonPkg} {rng : MapRange}.

Lemma decode_entries_app l1 l2 :
  decode_entries (l1 ++ l2)
  = (a ← decode_entries l1; b ← decode_entries l2; Ok (a ++ b)).
Proof.
  induction l1 as [|s l1 IH]; simpl.
  - by destruct (decode_entries l2).
  - destruct (base64_DecodeString s); [|done]. simpl. rewrite IH.
    destruct (decode_entries l1); [|done]. simpl.
    by destruct (decode_entries l2).
Qed.

Lemma x509_x5c_cons key keys :
  x509_x5c (key :: keys)
  = if decide (Use key = "x509-svid") then X5C key ++ x509_x5c keys else x509_x5c keys.
Proof. unfold x509_x5c. rewrite filter_cons. by case_decide. Qed.

Lemma jwt_svid_keys_cons key keys :
  jwt_svid_keys (key :: keys)
  = if decide (Use key = "jwt-svid") then key :: jwt_svid_keys keys else jwt_svid_keys keys.
Proof. unfold jwt_svid_keys. by rewrite filter_cons. Qed.

Lemma decodeX5C_spec domain x5c ders :
  decodeX5C domain x5c ders
  = wrap (ErrDecodeX5C domain) (new ← decode_entries x5c; Ok (ders ++ new)).
Proof.
  revert ders. induction x5c as [|s x5c IH]; intros ders; simpl.
  - by rewrite app_nil_r.
  - destruct (base64_DecodeString s) as [der|e]; [|done]. simpl. rewrite IH.
    destruct (decode_entries x5c) as [new|e]; [|done]. simpl.
    by rewrite <- app_assoc.
Qed.

Lemma x509KeyDERs_spec domain keys ders :
  x509KeyDERs domain keys ders
  = wrap (ErrDecodeX5C domain) (new ← decode_entries (x509_x5c keys); Ok (ders ++ new)).
Proof.
  revert ders. induction keys as [|key keys IH]; intros ders.
  - simpl. by rewrite app_nil_r.
  - cbn [x509KeyDERs]. rewrite x509_x5c_cons.
    destruct (decide (Use key = "x509-svid")) as [Hu|Hu].
    + rewrite decide_False by (intros ?; done).
      rewrite decodeX5C_spec, decode_entries_app.
      destruct (decode_entries (X5C key)) as [a|e]; [|done]. simpl. rewrite IH.
      destruct (decode_entries (x509_x5c keys)) as [b|e]; [|done]. simpl.
      by rewrite app_assoc.
    + rewrite decide_True by done. apply IH.
Qed.

Lemma rangeX509Domains_collect localTD entries bundles :
  rangeX509Domains localTD entries bundles
  = collect (trust_domain_id ∘ fst) (federated_bundle localTD) entries bundles.
Proof.
  revert bundles. induction entries as [|[domain entry] entries IH]; intros bundles; [done|].
  cbn [rangeX509Domains collect].
  change ("spiffe://" +:+ domain) with (trust_domain_id domain).
  assert (federated_bundle localTD (domain, entry)
          = if decide (trust_domain_id domain = localTD) then Ok None
            else ders ← wrap (ErrDecodeX5C domain)
                          (decode_entries (x509_x5c (Keys entry)));
                 if decide (0 < length ders) then Ok (Some (concatDERs ders))
                 else Ok None) as -> by reflexivity.
  destruct (decide (trust_domain_id domain = localTD)); [apply IH|].
  rewrite x509KeyDERs_spec.
  destruct (decode_entries (x509_x5c (Keys entry))) as [ders|e]; [|done]. simpl.
  destruct (decide (0 < length ders)); simpl; apply IH.
Qed.

Lemma jwtKeys_spec domain keys out :
  jwtKeys domain keys out
  = wrap (ErrMarshalJWTKey domain) (new ← marshal_keys (jwt_svid_keys keys); Ok (out ++ new)).
Proof.
  revert out. induction keys as [|key keys IH]; intros out.
  - simpl. by rewrite app_nil_r.
  - cbn [jwtKeys]. rewrite jwt_svid_keys_cons.
    destruct (decide (Use key = "jwt-svid")) as [Hu|Hu].
    + rewrite decide_False by (intros ?; done). simpl.
      destruct (json_Marshal_trustKey key) as [doc|e]; [|done]. simpl. rewrite IH.
      destruct (marshal_keys (jwt_svid_keys keys)) as [docs|e]; [|done]. simpl.
      by rewrite <- app_assoc.
    + rewrite decide_True by done. apply IH.
Qed.

Lemma rangeJWTDomains_collect entries bundles :
  rangeJWTDomains entries bundles
  = collect (trust_domain_id ∘ fst) jwt_bundle entries bundles.
Proof.
  revert bundles. induction entries as [|[domain entry] entries IH]; intros bundles; [done|].
  cbn [rangeJWTDomains collect].
  change ("spiffe://" +:+ domain) with (trust_domain_id domain).
  assert (jwt_bundle (domain, entry)
          = (docs ← wrap (ErrMarshalJWTKey domain)
                      (marshal_keys (jwt_svid_keys (Keys entry)));
             if decide (length docs = 0) then Ok None
             else jwksJSON ← wrap (ErrMarshalJWKS domain) (json_Marshal_jwks docs);
                  Ok (Some jwksJSON))) as -> by reflexivity.
  rewrite jwtKeys_spec.
  destruct (marshal_keys (jwt_svid_keys (Keys entry))) as [docs|e]; [|done]. simpl.
  destruct (decide (length docs = 0)); simpl; [apply IH|].
  destruct (json_Marshal_jwks docs) as [doc|e]; [|done]. simpl. apply IH.
Qed.

(** [range] visits the entries of the map, each domain once. *)
Lemma range_order_elem (m : gmap string trustDomainEntry) domain entry :
  (domain, entry) ∈ range_order m ↔ m !! domain = Some entry.
Proof. rewrite (range_order_perm m). apply elem_of_map_to_list. Qed.

Lemma range_order_NoDup (m : gmap string trustDomainEntry) :
  NoDup ((trust_domain_id ∘ fst) <$> range_order m).
Proof.
  rewrite (range_order_perm m), list_fmap_compose.
  apply NoDup_fmap; [apply _|]. apply NoDup_fst_map_to_list.
Qed.

End BundleLoops.

(** ** C5 and C9: the X.509 bundle map *)

Section X509Bundles.
Context {pem : PemPkg} {x509 : X509Pkg} {b64 : Base64Pkg} {json : JsonPkg}
        {rng : MapRange}.

Lemma buildX509BundlesResponse_Ok_inv fs resp :
  buildX509BundlesResponse fs = Ok resp →
  ∃ leafDER ders leaf uri uris caDERs tb,
    loadPEMDERs fs "certificates.pem" = Ok (leafDER :: ders)
    ∧ x509_ParseCertificate leafDER = Ok leaf
    ∧ URIs leaf = uri :: uris
    ∧ loadPEMDERs fs "ca_certificates.pem" = Ok caDERs
    ∧ loadTrustBundles fs = Ok tb
    ∧ rangeX509Domains (trust_domain_id (Host uri)) (range_order (TrustDomains tb))
        {[ trust_domain_id (Host uri) := concatDERs caDERs ]}
      = Ok (X509Bundles resp).
Proof.
  unfold buildX509BundlesResponse. intros H.
  destruct (loadPEMDERs fs "certificates.pem") as [[|leafDER ders]|] eqn:E1; try done.
  simpl in H.
  destruct (x509_ParseCertificate leafDER) as [leaf|] eqn:E2; [|done]. simpl in H.
  destruct (URIs leaf) as [|uri uris] eqn:E3; [done|].
  destruct (loadPEMDERs fs "ca_certificates.pem") as [caDERs|] eqn:E4; [|done].
  simpl in H.
  destruct (loadTrustBundles fs) as [tb|] eqn:E5; [|done]. simpl in H.
  change ("spiffe://" +:+ Host uri) with (trust_domain_id (Host uri)) in H.
  destruct (rangeX509Domains _ _ _) as [bundles|] eqn:E6; [|done]. simpl in H.
  injection H as <-. by exists leafDER, ders, leaf, uri, uris, caDERs, tb.
Qed.

(** The part of the build before the loop over the trust domains: the
    local trust domain and the CA bundle, then the trust domain map. *)
Lemma buildX509BundlesResponse_loop fs leafDER ders leaf uri uris caDERs tb :
  loadPEMDERs fs "certificates.pem" = Ok (leafDER :: ders) →
  x509_ParseCertificate leafDER = Ok leaf →
  URIs leaf = uri :: uris →
  loadPEMDERs fs "ca_certificates.pem" = Ok caDERs →
  loadTrustBundles fs = Ok tb →
  buildX509BundlesResponse fs
  = (bundles ← rangeX509Domains (trust_domain_id (Host uri))
                 (range_order (TrustDomains tb))
                 {[ trust_domain_id (Host uri) := concatDERs caDERs ]};
     Ok {| X509Bundles := bundles |}).
Proof.
  intros E1 E2 E3 E4 E5. unfold buildX509BundlesResponse.
  rewrite E1. simpl. rewrite E2. simpl. rewrite E3, E4. simpl. by rewrite E5.
Qed.

Lemma federated_bundle_Some localTD domain entry v :
  federated_bundle localTD (domain, entry) = Ok (Some v) ↔
  trust_domain_id domain ≠ localTD
  ∧ ∃ certs, decode_entries (x509_x5c (Keys entry)) = Ok certs
             ∧ certs ≠ [] ∧ v = concatDERs certs.
Proof.
  unfold federated_bundle. simpl. split.
  - intros H. case_decide; [done|]. split; [done|].
    destruct (decode_entries (x509_x5c (Keys entry))) as [certs|] eqn:E; [|done].
    simpl in H. case_decide; [|done]. injection H as <-.
    exists certs. split_and!; [done| |done]. by destruct certs; simpl in *; [lia|].
  - intros (Hne & certs & -> & Hnil & ->). rewrite decide_False by done. simpl.
    rewrite decide_True; [done|]. destruct certs; simpl; [done|lia].
Qed.

(** C5, as amended.  When the X.509 bundle build succeeds, its map has the
    local trust domain [spiffe://<host>], with [<host>] the host of the
    leaf's first URI SAN, bound to the concatenated CA bundle, whatever the
    Trust Domain Map holds; and any other key of the map is
    [spiffe://<domain>] for a domain of the Trust Domain Map with at least
    one decoded [x5c] entry among its [x509-svid] keys, bound to those
    entries concatenated.  The test is on the number of decoded entries
    ([len(ders) > 0]), not on their bytes: entries that decode to no bytes
    count. *)
Theorem x509_bundles_local_and_federated (fs : CredsDir) (resp : X509BundlesResponse) :
  buildX509BundlesResponse fs = Ok resp →
  ∃ leafDER ders leaf uri uris caDERs tb,
    loadPEMDERs fs "certificates.pem" = Ok (leafDER :: ders)
    ∧ x509_ParseCertificate leafDER = Ok leaf
    ∧ URIs leaf = uri :: uris
    ∧ loadPEMDERs fs "ca_certificates.pem" = Ok caDERs
    ∧ loadTrustBundles fs = Ok tb
    ∧ X509Bundles resp !! trust_domain_id (Host uri) = Some (concatDERs caDERs)
    ∧ ∀ k v, k ≠ trust_domain_id (Host uri) →
        (X509Bundles resp !! k = Some v ↔
         ∃ domain entry certs,
           k = trust_domain_id domain
           ∧ TrustDomains tb !! domain = Some entry
           ∧ decode_entries (x509_x5c (Keys entry)) = Ok certs
           ∧ certs ≠ []
           ∧ v = concatDERs certs).
Proof.
  intros H.
  apply buildX509BundlesResponse_Ok_inv in H
    as (leafDER & ders & leaf & uri & uris & caDERs & tb & E1 & E2 & E3 & E4 & E5 & Hloop).
  exists leafDER, ders, leaf, uri, uris, caDERs, tb. split_and!; try done.
  - rewrite rangeX509Domains_collect in Hloop.
    destruct (decide (trust_domain_id (Host uri)
                      ∈ (trust_domain_id ∘ fst) <$> range_order (TrustDomains tb)))
      as [Hin|Hnin].
    + apply list_elem_of_fmap in Hin as ([domain entry] & Hk & Hin). simpl in Hk.
      destruct (collect_all_Ok _ _ _ _ _ _ Hloop Hin) as [c Hc].
      pose proof (collect_lookup _ _ _ _ _ _ c (range_order_NoDup _) Hloop Hin Hc) as Hl.
      simpl in Hl. rewrite <- Hk in Hl. rewrite Hl.
      unfold federated_bundle in Hc. simpl in Hc. rewrite decide_True in Hc by done.
      injection Hc as <-. by rewrite lookup_singleton_eq.
    + rewrite (collect_untouched _ _ _ _ _ _ Hloop); [by rewrite lookup_singleton_eq|].
      intros a Ha Heq. apply Hnin. rewrite <- Heq. by apply list_elem_of_fmap_2.
  - intros k v Hk. rewrite rangeX509Domains_collect in Hloop. split.
    + intros Hv.
      destruct (decide (k ∈ (trust_domain_id ∘ fst) <$> range_order (TrustDomains tb)))
        as [Hin|Hnin].
      * apply list_elem_of_fmap in Hin as ([domain entry] & -> & Hin). simpl in *.
        destruct (collect_all_Ok _ _ _ _ _ _ Hloop Hin) as [c Hc].
        pose proof (collect_lookup _ _ _ _ _ _ c (range_order_NoDup _) Hloop Hin Hc) as Hl.
        simpl in Hl. rewrite Hv in Hl. destruct c as [v'|].
        -- injection Hl as ->. apply federated_bundle_Some in Hc as (_ & certs & ? & ? & ?).
           exists domain, entry, certs. split_and!; try done. by apply range_order_elem.
        -- rewrite lookup_singleton_ne in Hl by done. discriminate Hl.
      * rewrite (collect_untouched _ _ _ _ _ _ Hloop) in Hv.
        -- rewrite lookup_singleton_ne in Hv by done. discriminate Hv.
        -- intros a Ha Heq. apply Hnin. rewrite <- Heq. by apply list_elem_of_fmap_2.
    + intros (domain & entry & certs & -> & Hd & Hc & Hnil & ->).
      apply range_order_elem in Hd.
      assert (federated_bundle (trust_domain_id (Host uri)) (domain, entry)
              = Ok (Some (concatDERs certs))) as Hf.
      { apply federated_bundle_Some. split; [done|]. by exists certs. }
      exact (collect_lookup _ _ _ _ _ _ _ (range_order_NoDup _) Hloop Hd Hf).
Qed.

End X509Bundles.

Section X509BundleErrors.
Context {pem : PemPkg} {x509 : X509Pkg} {b64 : Base64Pkg} {json : JsonPkg}
        {rng : MapRange}.

Lemma decode_entries_Err x5c b64cert :
  b64cert ∈ x5c → is_Err (base64_DecodeString b64cert) → is_Err (decode_entries x5c).
Proof.
  intros Hin [e He]. induction x5c as [|s x5c IH]; [by apply elem_of_nil in Hin|].
  simpl. apply elem_of_cons in Hin as [<-|Hin].
  - rewrite He. by eexists.
  - destruct (base64_DecodeString s); [|by eexists]. simpl.
    destruct (IH Hin) as [e' ->]. by eexists.
Qed.

Lemma x509_x5c_elem keys key b64cert :
  key ∈ keys → Use key = "x509-svid" → b64cert ∈ X5C key → b64cert ∈ x509_x5c keys.
Proof.
  intros Hk Hu Hb. induction keys as [|key' keys IH]; [by apply elem_of_nil in Hk|].
  rewrite x509_x5c_cons. apply elem_of_cons in Hk as [<-|Hk].
  - rewrite decide_True by done. apply elem_of_app. by left.
  - case_decide; [apply elem_of_app; right|]; by apply IH.
Qed.

(** Up to the loop the build either has failed or has what the loop needs. *)
Lemma buildX509BundlesResponse_before_loop fs :
  is_Err (buildX509BundlesResponse fs)
  ∨ ∃ leafDER ders leaf uri uris caDERs tb,
      loadPEMDERs fs "certificates.pem" = Ok (leafDER :: ders)
      ∧ x509_ParseCertificate leafDER = Ok leaf
      ∧ URIs leaf = uri :: uris
      ∧ loadPEMDERs fs "ca_certificates.pem" = Ok caDERs
      ∧ loadTrustBundles fs = Ok tb.
Proof.
  unfold buildX509BundlesResponse.
  destruct (loadPEMDERs fs "certificates.pem") as [[|leafDER ders]|] eqn:E1;
    [left; by eexists| |left; by eexists]. simpl.
  destruct (x509_ParseCertificate leafDER) as [leaf|] eqn:E2; [|left; by eexists]. simpl.
  destruct (URIs leaf) as [|uri uris] eqn:E3; [left; by eexists|].
  destruct (loadPEMDERs fs "ca_certificates.pem") as [caDERs|] eqn:E4;
    [|left; by eexists]. simpl.
  destruct (loadTrustBundles fs) as [tb|] eqn:E5; [|left; by eexists].
  right. by exists leafDER, ders, leaf, uri, uris, caDERs, tb.
Qed.

(** C9.  One [x5c] entry that is not base64, in an [x509-svid] key of a
    trust domain other than the local one, makes the whole X.509 bundle
    build an error: there is no response, so none with the other domains.
    A handler in its loop that rebuilds on a rotation signal then logs the
    error, sends nothing and stays in the loop. *)
Theorem malformed_x5c_fails_whole_build
    (fs : CredsDir) (tb : trustBundlesFile) (domain : string) (entry : trustDomainEntry)
    (key : trustKey) (b64cert : string) :
  loadTrustBundles fs = Ok tb →
  TrustDomains tb !! domain = Some entry →
  key ∈ Keys entry → Use key = "x509-svid" → b64cert ∈ X5C key →
  is_Err (base64_DecodeString b64cert) →
  (∀ leafDER ders leaf uri uris,
     loadPEMDERs fs "certificates.pem" = Ok (leafDER :: ders) →
     x509_ParseCertificate leafDER = Ok leaf → URIs leaf = uri :: uris →
     domain ≠ Host uri) →
  is_Err (buildX509BundlesResponse fs)
  ∧ ∀ b s id rotated send,
      at_phase s = Live id rotated → is_Some (receive rotated b) →
      ∃ b' err,
        FetchX509Bundles b s (Rotated fs send)
        = Some (b', mkSession (Live id rotated) (sent s)
                              (logged s ++ [("FetchX509Bundles: reload failed", err)])).
Proof.
  intros Htb Hd Hk Hu Hb He Hlocal.
  assert (is_Err (buildX509BundlesResponse fs)) as [err Herr].
  { destruct (buildX509BundlesResponse_before_loop fs)
      as [?|(leafDER & ders & leaf & uri & uris & caDERs & tb' & E1 & E2 & E3 & E4 & E5)];
      [done|].
    assert (tb' = tb) as -> by congruence.
    rewrite (buildX509BundlesResponse_loop _ _ _ _ _ _ _ _ E1 E2 E3 E4 E5).
    rewrite rangeX509Domains_collect.
    destruct (collect_Err (trust_domain_id ∘ fst)
                (federated_bundle (trust_domain_id (Host uri)))
                (range_order (TrustDomains tb))
                {[ trust_domain_id (Host uri) := concatDERs caDERs ]} (domain, entry))
      as [e ->]; [by apply range_order_elem| |by eexists].
    unfold federated_bundle. simpl. rewrite decide_False.
    - destruct (decode_entries_Err (x509_x5c (Keys entry)) b64cert) as [e ->];
        [by eapply x509_x5c_elem|done|by eexists].
    - intros Heq. apply (inj trust_domain_id) in Heq. by eapply Hlocal. }
  split; [by exists err|].
  intros b s id rotated send Hp [b' Hr]. exists b', err.
  by apply session_reload_failure.
Qed.

End X509BundleErrors.

Section X509Bundles_samples.
#[local] Existing Instances Demo.pem Demo.x509 Demo.base64 Demo.range Samples.json.

Lemma x509_bundles_local_and_federated_witness :
  buildX509BundlesResponse Samples.dir_mixed = Ok Samples.resp_bundles_mixed
  ∧ ∃ leafDER ders leaf uri uris caDERs tb,
      loadPEMDERs Samples.dir_mixed "certificates.pem" = Ok (leafDER :: ders)
      ∧ x509_ParseCertificate leafDER = Ok leaf
      ∧ URIs leaf = uri :: uris
      ∧ loadPEMDERs Samples.dir_mixed "ca_certificates.pem" = Ok caDERs
      ∧ loadTrustBundles Samples.dir_mixed = Ok tb
      ∧ X509Bundles Samples.resp_bundles_mixed !! trust_domain_id (Host uri)
        = Some (concatDERs caDERs)
      ∧ ∀ k v, k ≠ trust_domain_id (Host uri) →
          (X509Bundles Samples.resp_bundles_mixed !! k = Some v ↔
           ∃ domain entry certs,
             k = trust_domain_id domain
             ∧ TrustDomains tb !! domain = Some entry
             ∧ decode_entries (x509_x5c (Keys entry)) = Ok certs
             ∧ certs ≠ []
             ∧ v = concatDERs certs).
Proof.
  assert (buildX509BundlesResponse Samples.dir_mixed = Ok Samples.resp_bundles_mixed) as H
    by (vm_compute; reflexivity).
  split; [exact H|].
  exact (x509_bundles_local_and_federated Samples.dir_mixed Samples.resp_bundles_mixed H).
Defined.

(** The Trust Domain Map of [dir_mixed] names the local domain
    [example.org] with certificates of its own: the local entry is the CA
    bundle all the same.  Of [other.org] the two entries of the [x509-svid]
    key are served, not the entry of the key of use [enc]. *)
Example mixed_bundles :
  X509Bundles Samples.resp_bundles_mixed
  = {[ "spiffe://example.org" := [Byte.x30];
       "spiffe://other.org" := [Byte.x00; Byte.x01; Byte.x02; Byte.x30] ]}.
Proof. vm_compute. reflexivity. Qed.

(** A federated domain with a [jwt-svid] key and no [x509-svid] key: the
    X.509 map has the local entry alone. *)
Example jwt_only_domain_has_no_x509_bundle :
  buildX509BundlesResponse Samples.dir_jwt_only
  = Ok {| X509Bundles := {[ "spiffe://example.org" := [Byte.x30] ]} |}.
Proof. vm_compute. reflexivity. Qed.

Lemma malformed_x5c_fails_whole_build_witness :
  is_Err (buildX509BundlesResponse Samples.dir_bad_x5c)
  ∧ ∀ b s id rotated send,
      at_phase s = Live id rotated → is_Some (receive rotated b) →
      ∃ b' err,
        FetchX509Bundles b s (Rotated Samples.dir_bad_x5c send)
        = Some (b', mkSession (Live id rotated) (sent s)
                              (logged s ++ [("FetchX509Bundles: reload failed", err)])).
Proof.
  apply (malformed_x5c_fails_whole_build Samples.dir_bad_x5c Samples.tb_bad_x5c
           "other.org" {| Keys := [Samples.x509_key ["AAEC"; "!!"]]; SpiffeSequence := 1 |}
           (Samples.x509_key ["AAEC"; "!!"]) "!!").
  - vm_compute. reflexivity.
  - vm_compute. reflexivity.
  - apply list_elem_of_singleton. reflexivity.
  - reflexivity.
  - right. left.
  - eexists. vm_compute. reflexivity.
  - intros leafDER ders leaf uri uris E1 E2 E3.
    assert (loadPEMDERs Samples.dir_bad_x5c "certificates.pem" = Ok [Samples.leaf_der])
      as E1' by (vm_compute; reflexivity).
    rewrite E1' in E1. injection E1 as <- <-.
    assert (x509_ParseCertificate Samples.leaf_der
            = Ok {| URIs := [ {| Scheme := "spiffe"; Host := "example.org";
                                 Path := "/workload" |} ] |})
      as E2' by (vm_compute; reflexivity).
    rewrite E2' in E2. injection E2 as <-. simpl in E3. injection E3 as <- <-.
    simpl. discriminate.
Defined.

(** The domain [good.org] of the same map is well-formed, and yet there is
    no response with it: the build is the error of [other.org]. *)
Example bad_x5c_build :
  buildX509BundlesResponse Samples.dir_bad_x5c
  = Err (ErrDecodeX5C "other.org" (LibError "illegal base64 data")).
Proof. vm_compute. reflexivity. Qed.

End X509Bundles_samples.

Section X509Bundles_documents.
#[local] Existing Instances Demo.pem Documents.x509 Demo.base64 Demo.range Samples.json.

(** C5 as the specification has it fails.  The one [x5c] entry of
    [other.org] is the empty string, which is base64 for no bytes: the
    domain has one decoded entry and no certificate material, and is in the
    map, with an empty bundle. *)
Lemma empty_entry_is_an_entry :
  loadTrustBundles Credentials.dir_empty_entry = Ok Samples.tb_empty_entry
  ∧ TrustDomains Samples.tb_empty_entry
    = {[ "other.org" := {| Keys := [Samples.x509_key [EmptyString]]; SpiffeSequence := 1 |} ]}
  ∧ base64_DecodeString EmptyString = Ok []
  ∧ buildX509BundlesResponse Credentials.dir_empty_entry
    = Ok {| X509Bundles := {[ "spiffe://example.org" := Credentials.ca_der;
                              "spiffe://other.org" := [] ]} |}.
Proof. split_and!; vm_compute; reflexivity. Qed.

End X509Bundles_documents.

(** ** C8: best-effort decoding of a chain *)

Section C8.
Context {pem : PemPkg} {x509 : X509Pkg} {b64 : Base64Pkg} {json : JsonPkg}
        {rng : MapRange}.


End C8.

Section C8_samples.
#[local] Existing Instances Demo.pem Documents.x509 Demo.base64 Demo.range Samples.json.



(** The chain cut off in its second block decodes to its first block. *)
Example truncated_chain_keeps_first_block :
  @loadPEMDERs Demo.pem Samples.dir_truncated_chain "certificates.pem"
  = Ok [Byte.x30 :: bytes_of "spiffe://example.org/workload"].
Proof. vm_compute. reflexivity. Qed.

End C8_samples.

(** ** C6: the JWT bundle map *)

Lemma collect_fmap {A B : Type} (f : A → B) key contribution (l : list A) m :
  collect key contribution (f <$> l) m = collect (key ∘ f) (contribution ∘ f) l m.
Proof.
  revert m. induction l as [|a l IH]; intros m; [done|].
  simpl. destruct (contribution (f a)) as [c|]; [|done]. simpl. apply IH.
Qed.

Lemma collect_ext {A : Type} key key' contribution contribution' (l : list A) m :
  (∀ a, key a = key' a) → (∀ a, contribution a = contribution' a) →
  collect key contribution l m = collect key' contribution' l m.
Proof.
  intros Hk Hc. revert m. induction l as [|a l IH]; intros m; [done|].
  simpl. rewrite <- Hc, <- Hk. destruct (contribution a) as [c|]; [|done]. simpl. apply IH.
Qed.

Section JWTBundles.
Context {json : JsonPkg} {rng : MapRange}.

Lemma marshal_keys_length keys docs :
  marshal_keys keys = Ok docs → length docs = length keys.
Proof.
  revert docs. induction keys as [|key keys IH]; intros docs H; simpl in H.
  - by injection H as <-.
  - destruct (json_Marshal_trustKey key) as [doc|]; [|done]. simpl in H.
    destruct (marshal_keys keys) as [docs'|]; [|done]. simpl in H.
    injection H as <-. simpl. f_equal. by apply IH.
Qed.

Lemma jwt_bundle_Ok_inv domain entry c :
  jwt_bundle (domain, entry) = Ok c →
  ∃ docs, marshal_keys (jwt_svid_keys (Keys entry)) = Ok docs
          ∧ match c with
            | Some v => jwt_svid_keys (Keys entry) ≠ [] ∧ json_Marshal_jwks docs = Ok v
            | None => jwt_svid_keys (Keys entry) = []
            end.
Proof.
  unfold jwt_bundle. simpl. intros H.
  destruct (marshal_keys (jwt_svid_keys (Keys entry))) as [docs|] eqn:E; [|done].
  simpl in H. exists docs. split; [done|].
  apply marshal_keys_length in E. case_decide.
  - injection H as <-. apply length_zero_iff_nil. lia.
  - destruct (json_Marshal_jwks docs) as [v|]; [|done]. simpl in H. injection H as <-.
    split; [|done]. intros Hnil. rewrite Hnil in E. simpl in E. lia.
Qed.

Lemma jwt_svid_keys_idemp keys : jwt_svid_keys (jwt_svid_keys keys) = jwt_svid_keys keys.
Proof.
  induction keys as [|key keys IH]; [done|].
  rewrite jwt_svid_keys_cons. case_decide; [|done].
  rewrite jwt_svid_keys_cons, decide_True by done. by rewrite IH.
Qed.

Lemma jwt_bundle_only_jwt_svid domain entry :
  jwt_bundle (domain, only_jwt_svid entry) = jwt_bundle (domain, entry).
Proof. unfold jwt_bundle. simpl. by rewrite jwt_svid_keys_idemp. Qed.

Lemma buildJWTBundlesResponse_Ok_inv fs resp :
  buildJWTBundlesResponse fs = Ok resp →
  ∃ tb, loadTrustBundles fs = Ok tb
        ∧ collect (trust_domain_id ∘ fst) jwt_bundle (range_order (TrustDomains tb)) ∅
          = Ok (JWTBundles resp).
Proof.
  unfold buildJWTBundlesResponse. intros H.
  destruct (loadTrustBundles fs) as [tb|] eqn:E; [|done]. simpl in H.
  rewrite rangeJWTDomains_collect in H.
  destruct (collect _ _ _ _) as [bundles|] eqn:E'; [|done]. simpl in H.
  injection H as <-. by exists tb.
Qed.

Lemma loadTrustBundles_with_Unmarshal_then f fs :
  @loadTrustBundles (with_Unmarshal_then f json) fs = f <$> loadTrustBundles fs.
Proof.
  unfold loadTrustBundles. destruct (ReadFile fs "trust_bundles.json"); simpl; [|done].
  by destruct (json_Unmarshal a).
Qed.

(** C6.  When the JWT bundle build succeeds on the Trust Domain Map [tb],
    its map has an entry for a trust domain exactly when the domain is in
    [tb] with at least one key of use [jwt-svid]; the entry is the key-set
    document of those keys, marshalled in their order; the map has no other
    keys; and with the keys of every other use taken out of [tb] the build
    gives the same response. *)
Theorem jwt_bundles_by_domain
    (fs : CredsDir) (tb : trustBundlesFile) (resp : JWTBundlesResponse) :
  loadTrustBundles fs = Ok tb →
  buildJWTBundlesResponse fs = Ok resp →
  (∀ domain, is_Some (JWTBundles resp !! trust_domain_id domain) ↔
             ∃ entry, TrustDomains tb !! domain = Some entry
                      ∧ jwt_svid_keys (Keys entry) ≠ [])
  ∧ (∀ domain entry v,
       TrustDomains tb !! domain = Some entry →
       JWTBundles resp !! trust_domain_id domain = Some v →
       ∃ docs, marshal_keys (jwt_svid_keys (Keys entry)) = Ok docs
               ∧ json_Marshal_jwks docs = Ok v)
  ∧ (∀ k, is_Some (JWTBundles resp !! k) →
          ∃ domain, k = trust_domain_id domain ∧ is_Some (TrustDomains tb !! domain))
  ∧ @buildJWTBundlesResponse (with_Unmarshal_then strip_other_uses json) rng fs = Ok resp.
Proof.
  intros Htb H.
  pose proof H as Hbuild.
  apply buildJWTBundlesResponse_Ok_inv in H as (tb' & Htb' & Hloop).
  assert (tb' = tb) as -> by congruence. clear Htb'.
  pose proof (range_order_NoDup (TrustDomains tb)) as Hnd.
  assert (∀ k, k ∉ (trust_domain_id ∘ fst) <$> range_order (TrustDomains tb) →
               JWTBundles resp !! k = None) as Hout.
  { intros k Hk. rewrite (collect_untouched _ _ _ _ _ _ Hloop); [done|].
    intros a Ha <-. apply Hk. by apply list_elem_of_fmap_2. }
  assert (∀ domain entry, TrustDomains tb !! domain = Some entry →
            ∃ c, jwt_bundle (domain, entry) = Ok c
                 ∧ JWTBundles resp !! trust_domain_id domain = c) as Hin.
  { intros domain entry Hd. apply range_order_elem in Hd.
    destruct (collect_all_Ok _ _ _ _ _ _ Hloop Hd) as [c Hc]. exists c. split; [done|].
    pose proof (collect_lookup _ _ _ _ _ _ c Hnd Hloop Hd Hc) as Hl. simpl in Hl.
    rewrite Hl. by destruct c. }
  assert (∀ k, is_Some (JWTBundles resp !! k) →
               ∃ domain entry, k = trust_domain_id domain
                               ∧ TrustDomains tb !! domain = Some entry) as Hkeys.
  { intros k Hk.
    destruct (decide (k ∈ (trust_domain_id ∘ fst) <$> range_order (TrustDomains tb)))
      as [Hel|Hnel].
    - apply list_elem_of_fmap in Hel as ([domain entry] & -> & Hel).
      exists domain, entry. split; [done|]. by apply range_order_elem.
    - rewrite (Hout k Hnel) in Hk. by destruct Hk. }
  split_and!.
  - intros domain. split.
    + intros Hs. destruct (Hkeys _ Hs) as (domain' & entry & Heq & Hd).
      apply (inj trust_domain_id) in Heq as <-.
      exists entry. split; [done|].
      destruct (Hin _ _ Hd) as (c & Hc & Hl). rewrite Hl in Hs. destruct Hs as [v ->].
      by apply jwt_bundle_Ok_inv in Hc as (docs & _ & ? & _).
    + intros (entry & Hd & Hne).
      destruct (Hin _ _ Hd) as (c & Hc & ->).
      apply jwt_bundle_Ok_inv in Hc as (docs & _ & Hc). destruct c; [by eexists|done].
  - intros domain entry v Hd Hv.
    destruct (Hin _ _ Hd) as (c & Hc & Hl). rewrite Hv in Hl. subst c.
    apply jwt_bundle_Ok_inv in Hc as (docs & Hm & _ & Hj). by exists docs.
  - intros k Hk. destruct (Hkeys _ Hk) as (domain & entry & -> & Hd).
    exists domain. by rewrite Hd.
  - unfold buildJWTBundlesResponse.
    rewrite loadTrustBundles_with_Unmarshal_then, Htb. simpl.
    rewrite rangeJWTDomains_collect.
    change (@jwt_bundle (with_Unmarshal_then strip_other_uses json)) with (@jwt_bundle json).
    assert (collect (trust_domain_id ∘ fst) jwt_bundle
              (range_order (only_jwt_svid <$> TrustDomains tb)) ∅ = Ok (JWTBundles resp))
      as ->; [|by destruct resp].
    apply (collect_Permutation _ _ (prod_map id only_jwt_svid <$> range_order (TrustDomains tb))).
    + rewrite <- list_fmap_compose.
      assert ((trust_domain_id ∘ fst ∘ prod_map id only_jwt_svid
               : string * trustDomainEntry → string) = trust_domain_id ∘ fst) as ->; [|done].
      reflexivity.
    + rewrite !range_order_perm. by rewrite map_to_list_fmap.
    + rewrite collect_fmap. rewrite <- Hloop. apply collect_ext.
      * by intros [??].
      * intros [??]. apply jwt_bundle_only_jwt_svid.
Qed.

End JWTBundles.

Section JWTBundles_samples.
#[local] Existing Instances Demo.pem Demo.x509 Demo.base64 Demo.range Samples.json.

Lemma jwt_bundles_by_domain_witness :
  loadTrustBundles Samples.dir_mixed = Ok Samples.tb_mixed
  ∧ buildJWTBundlesResponse Samples.dir_mixed = Ok Samples.resp_jwt
  ∧ (∀ domain, is_Some (JWTBundles Samples.resp_jwt !! trust_domain_id domain) ↔
               ∃ entry, TrustDomains Samples.tb_mixed !! domain = Some entry
                        ∧ jwt_svid_keys (Keys entry) ≠ [])
  ∧ (∀ domain entry v,
       TrustDomains Samples.tb_mixed !! domain = Some entry →
       JWTBundles Samples.resp_jwt !! trust_domain_id domain = Some v →
       ∃ docs, marshal_keys (jwt_svid_keys (Keys entry)) = Ok docs
               ∧ json_Marshal_jwks docs = Ok v)
  ∧ (∀ k, is_Some (JWTBundles Samples.resp_jwt !! k) →
          ∃ domain, k = trust_domain_id domain
                    ∧ is_Some (TrustDomains Samples.tb_mixed !! domain))
  ∧ @buildJWTBundlesResponse (with_Unmarshal_then strip_other_uses Samples.json)
      Demo.range Samples.dir_mixed = Ok Samples.resp_jwt.
Proof.
  assert (loadTrustBundles Samples.dir_mixed = Ok Samples.tb_mixed) as Htb
    by (vm_compute; reflexivity).
  assert (buildJWTBundlesResponse Samples.dir_mixed = Ok Samples.resp_jwt) as H
    by (vm_compute; reflexivity).
  split; [exact Htb|]. split; [exact H|].
  exact (jwt_bundles_by_domain Samples.dir_mixed Samples.tb_mixed Samples.resp_jwt Htb H).
Defined.

(** In [dir_mixed] the domain [example.org] has no [jwt-svid] key and is
    not in the map; of [other.org]'s three keys the one of use [jwt-svid]
    makes the key set, and the key of use [enc] is no error. *)
Example mixed_jwt_bundles :
  buildJWTBundlesResponse Samples.dir_mixed
  = Ok {| JWTBundles := {[ "spiffe://other.org" := Samples.jwks_other ]} |}
  ∧ String.string_of_list_byte Samples.jwks_other
    = Demo.object [ Demo.field "keys" (Demo.array [Demo.render_key Samples.jwt_key]) ].
Proof. split; vm_compute; reflexivity. Qed.

(** One federated domain with a [jwt-svid] key and no [x509-svid] key: the
    JWT map has that domain alone. *)
Example jwt_only_domain_has_a_jwt_bundle :
  buildJWTBundlesResponse Samples.dir_jwt_only = Ok Samples.resp_jwt.
Proof. vm_compute. reflexivity. Qed.

End JWTBundles_samples.

(** * Further properties of the code *)

(** ** Which files a build reads, and what their absence does *)

Section Files.
Context {pem : PemPkg} {x509 : X509Pkg} {b64 : Base64Pkg} {json : JsonPkg}
        {rng : MapRange}.

Lemma loadPEMDERs_same_file fs fs' name :
  same_file name fs fs' → loadPEMDERs fs' name = loadPEMDERs fs name.
Proof. intros H. unfold loadPEMDERs, ReadFile. by rewrite H. Qed.

Lemma loadPrivateKeyPKCS8DER_same_file fs fs' name :
  same_file name fs fs' → loadPrivateKeyPKCS8DER fs' name = loadPrivateKeyPKCS8DER fs name.
Proof. intros H. unfold loadPrivateKeyPKCS8DER, ReadFile. by rewrite H. Qed.

(** X1.  Each build is a function of the files it reads and of nothing
    else in the directory: the SVID build of the certificate chain, the key
    and the CA bundle; the X.509 bundle build of the chain, the CA bundle
    and the trust bundle document; the JWT bundle build of the trust bundle
    document. *)
Theorem builds_read_only_their_files (fs fs' : CredsDir) :
  (same_file "certificates.pem" fs fs' → same_file "private_key.pem" fs fs' →
   same_file "ca_certificates.pem" fs fs' →
   buildX509SVIDResponse fs' = buildX509SVIDResponse fs)
  ∧ (same_file "certificates.pem" fs fs' → same_file "ca_certificates.pem" fs fs' →
     same_file "trust_bundles.json" fs fs' →
     buildX509BundlesResponse fs' = buildX509BundlesResponse fs)
  ∧ (same_file "trust_bundles.json" fs fs' →
     buildJWTBundlesResponse fs' = buildJWTBundlesResponse fs).
Proof.
  split_and!.
  - intros Hc Hk Ha. unfold buildX509SVIDResponse.
    by rewrite (loadPEMDERs_same_file _ _ _ Hc), (loadPrivateKeyPKCS8DER_same_file _ _ _ Hk),
      (loadPEMDERs_same_file _ _ _ Ha).
  - intros Hc Ha Ht. unfold buildX509BundlesResponse.
    by rewrite (loadPEMDERs_same_file _ _ _ Hc), (loadPEMDERs_same_file _ _ _ Ha),
      (loadTrustBundles_only_reads_its_file _ _ Ht).
  - apply buildJWTBundlesResponse_only_reads_trust_bundles.
Qed.

Lemma loadTrustBundles_unreadable fs :
  fs !! "trust_bundles.json" = None → is_Err (loadTrustBundles fs).
Proof. intros H. unfold loadTrustBundles, ReadFile. rewrite H. by eexists. Qed.

Lemma loadTrustBundles_unparsable fs data :
  fs !! "trust_bundles.json" = Some data → is_Err (json_Unmarshal data) →
  is_Err (loadTrustBundles fs).
Proof.
  intros H [e He]. unfold loadTrustBundles, ReadFile. rewrite H. simpl. rewrite He.
  by eexists.
Qed.

Lemma buildX509SVIDResponse_needs_key fs :
  is_Err (loadPrivateKeyPKCS8DER fs "private_key.pem") → is_Err (buildX509SVIDResponse fs).
Proof.
  intros [e He]. unfold buildX509SVIDResponse.
  destruct (loadPEMDERs fs "certificates.pem") as [[|leafDER ders]|]; try by eexists.
  simpl. rewrite He. by eexists.
Qed.

Lemma buildX509SVIDResponse_needs_ca fs :
  is_Err (loadPEMDERs fs "ca_certificates.pem") → is_Err (buildX509SVIDResponse fs).
Proof.
  intros [e He]. unfold buildX509SVIDResponse.
  destruct (loadPEMDERs fs "certificates.pem") as [[|leafDER ders]|]; try by eexists.
  simpl. destruct (loadPrivateKeyPKCS8DER fs "private_key.pem"); [|by eexists].
  simpl. rewrite He. by eexists.
Qed.

Lemma buildX509BundlesResponse_needs_ca fs :
  is_Err (loadPEMDERs fs "ca_certificates.pem") → is_Err (buildX509BundlesResponse fs).
Proof.
  intros [e He]. unfold buildX509BundlesResponse.
  destruct (loadPEMDERs fs "certificates.pem") as [[|leafDER ders]|]; try by eexists.
  simpl. destruct (x509_ParseCertificate leafDER) as [leaf|]; [|by eexists]. simpl.
  destruct (URIs leaf); [by eexists|]. rewrite He. by eexists.
Qed.

Lemma buildX509BundlesResponse_needs_trust_bundles fs :
  is_Err (loadTrustBundles fs) → is_Err (buildX509BundlesResponse fs).
Proof.
  intros [e He]. unfold buildX509BundlesResponse.
  destruct (loadPEMDERs fs "certificates.pem") as [[|leafDER ders]|]; try by eexists.
  simpl. destruct (x509_ParseCertificate leafDER) as [leaf|]; [|by eexists]. simpl.
  destruct (URIs leaf); [by eexists|].
  destruct (loadPEMDERs fs "ca_certificates.pem"); [|by eexists]. simpl.
  rewrite He. by eexists.
Qed.

Lemma buildJWTBundlesResponse_needs_trust_bundles fs :
  is_Err (loadTrustBundles fs) → is_Err (buildJWTBundlesResponse fs).
Proof. intros [e He]. unfold buildJWTBundlesResponse. rewrite He. by eexists. Qed.

(** X2.  A build fails when a file it reads is not there, and so do the
    bundle builds when the trust bundle document does not parse: no key
    file, no SVID; no CA file, no SVID and no X.509 bundles; no usable
    trust bundle document, no X.509 bundles and no JWT bundles. *)
Theorem missing_file_fails_the_builds_that_read_it (fs : CredsDir) :
  (fs !! "private_key.pem" = None → is_Err (buildX509SVIDResponse fs))
  ∧ (fs !! "ca_certificates.pem" = None →
     is_Err (buildX509SVIDResponse fs) ∧ is_Err (buildX509BundlesResponse fs))
  ∧ (fs !! "trust_bundles.json" = None
     ∨ (∃ data, fs !! "trust_bundles.json" = Some data ∧ is_Err (json_Unmarshal data)) →
     is_Err (buildX509BundlesResponse fs) ∧ is_Err (buildJWTBundlesResponse fs)).
Proof.
  split_and!.
  - intros H. apply buildX509SVIDResponse_needs_key.
    rewrite (loadPrivateKeyPKCS8DER_unreadable _ _ H). by eexists.
  - intros H.
    assert (is_Err (loadPEMDERs fs "ca_certificates.pem")) as He
      by (rewrite (loadPEMDERs_unreadable _ _ H); by eexists).
    split; [by apply buildX509SVIDResponse_needs_ca|by apply buildX509BundlesResponse_needs_ca].
  - intros H.
    assert (is_Err (loadTrustBundles fs)) as He.
    { destruct H as [H|(data & H & Hp)];
        [by apply loadTrustBundles_unreadable|by eapply loadTrustBundles_unparsable]. }
    split; [by apply buildX509BundlesResponse_needs_trust_bundles
           |by apply buildJWTBundlesResponse_needs_trust_bundles].
Qed.

End Files.

(** ** Edge cases of the builds *)

Lemma collect_insert_unwritten {A : Type} (key : A → string) contribution (l : list A)
    m out k v :
  collect key contribution l m = Ok out →
  (∀ a, a ∈ l → key a = k → contribution a = Ok None) →
  collect key contribution l (<[k := v]> m) = Ok (<[k := v]> out).
Proof.
  revert m. induction l as [|a l IH]; intros m H Hk; simpl in *.
  - by injection H as <-.
  - destruct (contribution a) as [c|] eqn:Ec; [|done]. simpl in *.
    destruct c as [v'|].
    + assert (key a ≠ k) as Hne.
      { intros Heq. specialize (Hk a (list_elem_of_here _ _) Heq). congruence. }
      rewrite insert_insert_ne by done.
      apply IH; [done|]. intros a' Ha'. apply Hk. by right.
    + apply IH; [done|]. intros a' Ha'. apply Hk. by right.
Qed.

Section BuildEdges.
Context {pem : PemPkg} {x509 : X509Pkg} {b64 : Base64Pkg} {json : JsonPkg}
        {rng : MapRange}.

Lemma loadPEMDERs_no_block fs name data :
  fs !! name = Some data → data = [] ∨ (pem_Decode data).1 = None →
  loadPEMDERs fs name = Ok [].
Proof.
  intros H Hd. unfold loadPEMDERs, ReadFile. rewrite H. simpl. f_equal.
  destruct data as [|c data]; [done|]. simpl.
  destruct Hd as [?|Hd]; [done|].
  by destruct (pem_Decode (c :: data)) as [[?|] ?]; simpl in Hd.
Qed.

(** X3.  A CA bundle file that can be read and holds no PEM block is no
    error: where the build succeeded with another CA file it succeeds with
    this one, the SVID carrying an empty bundle and the X.509 bundle map
    an empty bundle for the local trust domain, everything else as it
    was. *)
Theorem ca_file_without_blocks_is_an_empty_bundle (fs : CredsDir) (data : bytes) :
  data = [] ∨ (pem_Decode data).1 = None →
  (∀ resp, buildX509SVIDResponse fs = Ok resp →
     buildX509SVIDResponse (<["ca_certificates.pem" := data]> fs)
     = Ok {| Svids := with_Bundle [] <$> Svids resp |})
  ∧ (∀ resp, buildX509BundlesResponse fs = Ok resp →
       ∃ localTD ca,
         X509Bundles resp !! localTD = Some ca
         ∧ buildX509BundlesResponse (<["ca_certificates.pem" := data]> fs)
           = Ok {| X509Bundles := <[localTD := []]> (X509Bundles resp) |}).
Proof.
  intros Hd.
  set (fs' := <["ca_certificates.pem" := data]> fs).
  assert (loadPEMDERs fs' "ca_certificates.pem" = Ok []) as Hca.
  { apply loadPEMDERs_no_block with data; [|done]. unfold fs'. by rewrite lookup_insert_eq. }
  assert (∀ name, name ≠ "ca_certificates.pem" → same_file name fs fs') as Hsame.
  { intros name Hne. unfold same_file, fs'. by rewrite lookup_insert_ne. }
  split.
  - intros resp H.
    apply buildX509SVIDResponse_Ok_inv in H
      as (leafDER & ders & keyDER & caDERs & leaf & uri & uris & E1 & E2 & _ & E4 & E5 & ->).
    unfold buildX509SVIDResponse.
    rewrite (loadPEMDERs_same_file fs fs' "certificates.pem"), E1 by (by apply Hsame).
    simpl.
    rewrite (loadPrivateKeyPKCS8DER_same_file fs fs' "private_key.pem"), E2
      by (by apply Hsame).
    simpl. rewrite Hca. simpl. rewrite E4. simpl. by rewrite E5.
  - intros resp H.
    apply buildX509BundlesResponse_Ok_inv in H
      as (leafDER & ders & leaf & uri & uris & caDERs & tb & E1 & E2 & E3 & _ & E5 & Hloop).
    exists (trust_domain_id (Host uri)), (concatDERs caDERs). split.
    + rewrite rangeX509Domains_collect in Hloop.
      destruct (decide (trust_domain_id (Host uri)
                        ∈ (trust_domain_id ∘ fst) <$> range_order (TrustDomains tb)))
        as [Hin|Hnin].
      * apply list_elem_of_fmap in Hin as ([domain entry] & Hk & Hin). simpl in Hk.
        assert (federated_bundle (trust_domain_id (Host uri)) (domain, entry) = Ok None)
          as Hc by (unfold federated_bundle; simpl; by rewrite decide_True).
        pose proof (collect_lookup _ _ _ _ _ _ None (range_order_NoDup _) Hloop Hin Hc)
          as Hl.
        simpl in Hl. rewrite <- Hk in Hl. by rewrite Hl, lookup_singleton_eq.
      * rewrite (collect_untouched _ _ _ _ _ _ Hloop); [by rewrite lookup_singleton_eq|].
        intros a Ha Heq. apply Hnin. rewrite <- Heq. by apply list_elem_of_fmap_2.
    + rewrite (buildX509BundlesResponse_loop fs' leafDER ders leaf uri uris [] tb);
        [|by rewrite (loadPEMDERs_same_file fs fs') by (by apply Hsame)|done|done|done
         |by rewrite (loadTrustBundles_only_reads_its_file fs fs') by (by apply Hsame)].
      rewrite rangeX509Domains_collect in *.
      assert (({[trust_domain_id (Host uri) := concatDERs []]} : gmap string bytes)
              = <[trust_domain_id (Host uri) := []]>
                  {[trust_domain_id (Host uri) := concatDERs caDERs]}) as ->
        by (by rewrite insert_singleton_eq).
      rewrite (collect_insert_unwritten _ _ _ _ _ _ _ Hloop); [done|].
      intros [domain entry] _ Hk. simpl in Hk.
      unfold federated_bundle. simpl. by rewrite decide_True.
Qed.

(** X5.  A leaf without a URI SAN has no identity: the X.509 bundle build
    fails with "leaf certificate has no URI SANs", and so does the SVID
    build once the key and the CA bundle have loaded (it fails in any
    case). *)
Theorem leaf_without_uri_san_fails (fs : CredsDir) (leafDER : bytes) (ders : list bytes)
    (leaf : Certificate) :
  loadPEMDERs fs "certificates.pem" = Ok (leafDER :: ders) →
  x509_ParseCertificate leafDER = Ok leaf →
  URIs leaf = [] →
  buildX509BundlesResponse fs = Err ErrNoURISANs
  ∧ is_Err (buildX509SVIDResponse fs)
  ∧ (is_Ok (loadPrivateKeyPKCS8DER fs "private_key.pem") →
     is_Ok (loadPEMDERs fs "ca_certificates.pem") →
     buildX509SVIDResponse fs = Err ErrNoURISANs)
  ∧ kind_of ErrNoURISANs = Some MissingIdentity.
Proof.
  intros E1 E2 E3. unfold buildX509BundlesResponse, buildX509SVIDResponse.
  rewrite E1. simpl. rewrite E2. simpl. rewrite E3. split_and!; try done.
  - destruct (loadPrivateKeyPKCS8DER fs "private_key.pem"); [|by eexists]. simpl.
    destruct (loadPEMDERs fs "ca_certificates.pem"); by eexists.
  - by intros [? ->] [? ->].
Qed.

(** X6.  With everything before the loop in place, the X.509 bundle build
    succeeds exactly when the [x5c] entries of the [x509-svid] keys of
    every trust domain other than the local one decode.  Entries of keys of
    other uses, and the entry of the Trust Domain Map for the local domain,
    are never decoded and cannot fail the build. *)
Theorem x509_bundle_build_succeeds_iff
    (fs : CredsDir) (leafDER : bytes) (ders : list bytes) (leaf : Certificate)
    (uri : URL) (uris : list URL) (caDERs : list bytes) (tb : trustBundlesFile) :
  loadPEMDERs fs "certificates.pem" = Ok (leafDER :: ders) →
  x509_ParseCertificate leafDER = Ok leaf →
  URIs leaf = uri :: uris →
  loadPEMDERs fs "ca_certificates.pem" = Ok caDERs →
  loadTrustBundles fs = Ok tb →
  (is_Ok (buildX509BundlesResponse fs) ↔
   ∀ domain entry, TrustDomains tb !! domain = Some entry → domain ≠ Host uri →
                   is_Ok (decode_entries (x509_x5c (Keys entry)))).
Proof.
  intros E1 E2 E3 E4 E5.
  rewrite (buildX509BundlesResponse_loop _ _ _ _ _ _ _ _ E1 E2 E3 E4 E5).
  rewrite rangeX509Domains_collect. split.
  - intros [resp H] domain entry Hd Hne.
    destruct (collect _ _ _ _) as [out|] eqn:Hloop; [|done].
    apply range_order_elem in Hd.
    destruct (collect_all_Ok _ _ _ _ _ _ Hloop Hd) as [c Hc].
    unfold federated_bundle in Hc. simpl in Hc.
    rewrite decide_False in Hc by (intros Heq; by apply (inj trust_domain_id) in Heq).
    destruct (decode_entries (x509_x5c (Keys entry))) as [certs|]; [by eexists|done].
  - intros Hall.
    destruct (collect_Ok (trust_domain_id ∘ fst)
                (federated_bundle (trust_domain_id (Host uri)))
                (range_order (TrustDomains tb))
                {[ trust_domain_id (Host uri) := concatDERs caDERs ]}) as [out ->];
      [|by eexists].
    intros [domain entry] Hd. apply range_order_elem in Hd.
    unfold federated_bundle. simpl. case_decide as Hk; [by eexists|].
    destruct (Hall domain entry Hd) as [certs ->]; [by intros ->|]. simpl.
    case_decide; by eexists.
Qed.

End BuildEdges.

(** ** The order of [range] *)

Section RangeOrder.
Context {pem : PemPkg} {x509 : X509Pkg} {b64 : Base64Pkg} {json : JsonPkg}.

Lemma range_orders_agree (r1 r2 : MapRange) (m : gmap string trustDomainEntry) :
  @range_order r1 _ _ _ _ m ≡ₚ @range_order r2 _ _ _ _ m.
Proof. by rewrite !range_order_perm. Qed.

Lemma buildX509BundlesResponse_any_order (r1 r2 : MapRange) fs resp :
  @buildX509BundlesResponse pem x509 b64 json r1 fs = Ok resp →
  @buildX509BundlesResponse pem x509 b64 json r2 fs = Ok resp.
Proof.
  intros H.
  apply buildX509BundlesResponse_Ok_inv in H
    as (leafDER & ders & leaf & uri & uris & caDERs & tb & E1 & E2 & E3 & E4 & E5 & Hloop).
  rewrite (@buildX509BundlesResponse_loop pem x509 b64 json r2 _ _ _ _ _ _ _ _
             E1 E2 E3 E4 E5).
  rewrite rangeX509Domains_collect in *.
  rewrite (collect_Permutation _ _ _ _ _ _ (@range_order_NoDup r1 _)
             (range_orders_agree r1 r2 _) Hloop).
  by destruct resp.
Qed.

Lemma buildJWTBundlesResponse_any_order (r1 r2 : MapRange) fs resp :
  @buildJWTBundlesResponse json r1 fs = Ok resp →
  @buildJWTBundlesResponse json r2 fs = Ok resp.
Proof.
  intros H.
  apply buildJWTBundlesResponse_Ok_inv in H as (tb & Htb & Hloop).
  unfold buildJWTBundlesResponse. rewrite Htb. simpl.
  rewrite rangeJWTDomains_collect.
  rewrite (collect_Permutation _ _ _ _ _ _ (@range_order_NoDup r1 _)
             (range_orders_agree r1 r2 _) Hloop).
  by destruct resp.
Qed.

(** X4.  The order in which [range] visits the trust domains does not show
    in a response: a bundle build that succeeds under one order succeeds
    under every order with the same response, so a build that fails under
    one fails under all (with the error of whichever failing domain came
    first).  Two builds over an unchanged directory give the same
    response. *)
Theorem bundle_responses_ignore_range_order (r1 r2 : MapRange) (fs : CredsDir) :
  (∀ resp, @buildX509BundlesResponse pem x509 b64 json r1 fs = Ok resp ↔
           @buildX509BundlesResponse pem x509 b64 json r2 fs = Ok resp)
  ∧ (∀ resp, @buildJWTBundlesResponse json r1 fs = Ok resp ↔
             @buildJWTBundlesResponse json r2 fs = Ok resp)
  ∧ (is_Err (@buildX509BundlesResponse pem x509 b64 json r1 fs) ↔
     is_Err (@buildX509BundlesResponse pem x509 b64 json r2 fs))
  ∧ (is_Err (@buildJWTBundlesResponse json r1 fs) ↔
     is_Err (@buildJWTBundlesResponse json r2 fs)).
Proof.
  assert (∀ ra rb, is_Err (@buildX509BundlesResponse pem x509 b64 json ra fs) →
                   is_Err (@buildX509BundlesResponse pem x509 b64 json rb fs)) as HX.
  { intros ra rb [e He].
    destruct (@buildX509BundlesResponse pem x509 b64 json rb fs) as [resp|e'] eqn:E;
      [|by eexists].
    apply (buildX509BundlesResponse_any_order rb ra) in E. congruence. }
  assert (∀ ra rb, is_Err (@buildJWTBundlesResponse json ra fs) →
                   is_Err (@buildJWTBundlesResponse json rb fs)) as HJ.
  { intros ra rb [e He].
    destruct (@buildJWTBundlesResponse json rb fs) as [resp|e'] eqn:E; [|by eexists].
    apply (buildJWTBundlesResponse_any_order rb ra) in E. congruence. }
  split_and!.
  - intros resp. split; apply buildX509BundlesResponse_any_order.
  - intros resp. split; apply buildJWTBundlesResponse_any_order.
  - split; apply HX.
  - split; apply HJ.
Qed.

End RangeOrder.

Section Build_samples.
#[local] Existing Instances Demo.pem Demo.x509 Demo.base64 Demo.range Samples.json.

Lemma builds_read_only_their_files_witness :
  (same_file "certificates.pem" Samples.dir_jwt_only Samples2.dir_other_bundles →
   same_file "private_key.pem" Samples.dir_jwt_only Samples2.dir_other_bundles →
   same_file "ca_certificates.pem" Samples.dir_jwt_only Samples2.dir_other_bundles →
   buildX509SVIDResponse Samples2.dir_other_bundles
   = buildX509SVIDResponse Samples.dir_jwt_only)
  ∧ same_file "certificates.pem" Samples.dir_jwt_only Samples2.dir_other_bundles
  ∧ same_file "private_key.pem" Samples.dir_jwt_only Samples2.dir_other_bundles
  ∧ same_file "ca_certificates.pem" Samples.dir_jwt_only Samples2.dir_other_bundles
  ∧ buildX509SVIDResponse Samples2.dir_other_bundles = Ok Samples.resp_svid.
Proof.
  pose proof (proj1 (builds_read_only_their_files Samples.dir_jwt_only
                       Samples2.dir_other_bundles)) as H.
  assert (same_file "certificates.pem" Samples.dir_jwt_only Samples2.dir_other_bundles)
    as H1 by (vm_compute; reflexivity).
  assert (same_file "private_key.pem" Samples.dir_jwt_only Samples2.dir_other_bundles)
    as H2 by (vm_compute; reflexivity).
  assert (same_file "ca_certificates.pem" Samples.dir_jwt_only Samples2.dir_other_bundles)
    as H3 by (vm_compute; reflexivity).
  split_and!; [exact H|exact H1|exact H2|exact H3|].
  rewrite (H H1 H2 H3). vm_compute. reflexivity.
Defined.

Lemma missing_file_fails_the_builds_that_read_it_witness :
  Samples.dir_no_key !! "private_key.pem" = None
  ∧ is_Err (buildX509SVIDResponse Samples.dir_no_key)
  ∧ Samples2.dir_no_ca !! "ca_certificates.pem" = None
  ∧ is_Err (buildX509SVIDResponse Samples2.dir_no_ca)
  ∧ is_Err (buildX509BundlesResponse Samples2.dir_no_ca)
  ∧ is_Err (buildX509BundlesResponse Samples2.dir_broken_bundles)
  ∧ is_Err (buildJWTBundlesResponse Samples2.dir_broken_bundles).
Proof.
  assert (Samples.dir_no_key !! "private_key.pem" = None) as H1
    by (vm_compute; reflexivity).
  assert (Samples2.dir_no_ca !! "ca_certificates.pem" = None) as H2
    by (vm_compute; reflexivity).
  assert (∃ data, Samples2.dir_broken_bundles !! "trust_bundles.json" = Some data
                  ∧ is_Err (json_Unmarshal data)) as H3.
  { exists (bytes_of "{"). split; [vm_compute; reflexivity|].
    eexists. vm_compute. reflexivity. }
  split_and!.
  - exact H1.
  - exact (proj1 (missing_file_fails_the_builds_that_read_it Samples.dir_no_key) H1).
  - exact H2.
  - exact (proj1 (proj1 (proj2 (missing_file_fails_the_builds_that_read_it
                                  Samples2.dir_no_ca)) H2)).
  - exact (proj2 (proj1 (proj2 (missing_file_fails_the_builds_that_read_it
                                  Samples2.dir_no_ca)) H2)).
  - exact (proj1 (proj2 (proj2 (missing_file_fails_the_builds_that_read_it
                                  Samples2.dir_broken_bundles)) (or_intror H3))).
  - exact (proj2 (proj2 (proj2 (missing_file_fails_the_builds_that_read_it
                                  Samples2.dir_broken_bundles)) (or_intror H3))).
Defined.

Lemma ca_file_without_blocks_is_an_empty_bundle_witness :
  (pem_Decode Samples2.no_blocks).1 = None
  ∧ buildX509SVIDResponse (<["ca_certificates.pem" := Samples2.no_blocks]> Samples.dir_mixed)
    = Ok {| Svids := with_Bundle [] <$> Svids Samples.resp_svid |}
  ∧ ∃ localTD ca,
      X509Bundles Samples.resp_bundles_mixed !! localTD = Some ca
      ∧ buildX509BundlesResponse
          (<["ca_certificates.pem" := Samples2.no_blocks]> Samples.dir_mixed)
        = Ok {| X509Bundles := <[localTD := []]> (X509Bundles Samples.resp_bundles_mixed) |}.
Proof.
  assert ((pem_Decode Samples2.no_blocks).1 = None) as H by (vm_compute; reflexivity).
  destruct (ca_file_without_blocks_is_an_empty_bundle Samples.dir_mixed Samples2.no_blocks
              (or_intror H)) as [H1 H2].
  split_and!.
  - exact H.
  - apply H1. vm_compute. reflexivity.
  - apply H2. vm_compute. reflexivity.
Defined.

Lemma leaf_without_uri_san_fails_witness :
  loadPEMDERs Samples2.dir_leaf_without_uri "certificates.pem" = Ok [[Byte.x30]]
  ∧ x509_ParseCertificate [Byte.x30] = Ok {| URIs := [] |}
  ∧ buildX509BundlesResponse Samples2.dir_leaf_without_uri = Err ErrNoURISANs
  ∧ is_Err (buildX509SVIDResponse Samples2.dir_leaf_without_uri)
  ∧ (is_Ok (loadPrivateKeyPKCS8DER Samples2.dir_leaf_without_uri "private_key.pem") →
     is_Ok (loadPEMDERs Samples2.dir_leaf_without_uri "ca_certificates.pem") →
     buildX509SVIDResponse Samples2.dir_leaf_without_uri = Err ErrNoURISANs)
  ∧ kind_of ErrNoURISANs = Some MissingIdentity.
Proof.
  assert (loadPEMDERs Samples2.dir_leaf_without_uri "certificates.pem" = Ok [[Byte.x30]])
    as H1 by (vm_compute; reflexivity).
  assert (x509_ParseCertificate [Byte.x30] = Ok {| URIs := [] |}) as H2
    by (vm_compute; reflexivity).
  split; [exact H1|]. split; [exact H2|].
  exact (leaf_without_uri_san_fails Samples2.dir_leaf_without_uri [Byte.x30] []
           {| URIs := [] |} H1 H2 eq_refl).
Defined.

Lemma x509_bundle_build_succeeds_iff_witness :
  @loadTrustBundles Samples2.json2 Samples2.dir_harmless = Ok Samples2.tb_harmless
  ∧ (is_Ok (@buildX509BundlesResponse Demo.pem Demo.x509 Demo.base64 Samples2.json2
              Demo.range Samples2.dir_harmless) ↔
     ∀ domain entry,
       TrustDomains Samples2.tb_harmless !! domain = Some entry → domain ≠ "example.org" →
       is_Ok (decode_entries (x509_x5c (Keys entry)))).
Proof.
  assert (@loadTrustBundles Samples2.json2 Samples2.dir_harmless = Ok Samples2.tb_harmless)
    as H5 by (vm_compute; reflexivity).
  split; [exact H5|].
  refine (@x509_bundle_build_succeeds_iff Demo.pem Demo.x509 Demo.base64 Samples2.json2
            Demo.range Samples2.dir_harmless Samples.leaf_der []
            {| URIs := [ {| Scheme := "spiffe"; Host := "example.org";
                            Path := "/workload" |} ] |}
            {| Scheme := "spiffe"; Host := "example.org"; Path := "/workload" |} []
            [[Byte.x30]] Samples2.tb_harmless _ _ eq_refl _ H5);
    vm_compute; reflexivity.
Defined.

(** The entries that are not base64 sit in the local domain's entry and in
    a key of use [enc]: the build succeeds and serves [other.org]. *)
Example undecodable_entries_nobody_reads :
  @buildX509BundlesResponse Demo.pem Demo.x509 Demo.base64 Samples2.json2 Demo.range
    Samples2.dir_harmless
  = Ok {| X509Bundles := {[ "spiffe://example.org" := [Byte.x30];
                            "spiffe://other.org" := [Byte.x00; Byte.x01; Byte.x02] ]} |}.
Proof. vm_compute. reflexivity. Qed.

(** Two failing domains: the build fails under both orders, with the
    error of the domain that came first. *)
Example first_failing_domain_is_reported :
  @buildX509BundlesResponse Demo.pem Demo.x509 Demo.base64 Samples2.json2 Demo.range
    Samples2.dir_two_bad
  = Err (ErrDecodeX5C "second.org" (LibError "illegal base64 data"))
  ∧ @buildX509BundlesResponse Demo.pem Demo.x509 Demo.base64 Samples2.json2
      Samples2.range_backwards Samples2.dir_two_bad
    = Err (ErrDecodeX5C "first.org" (LibError "illegal base64 data")).
Proof. split; vm_compute; reflexivity. Qed.

End Build_samples.

(** ** More about the hub *)

Lemma send_all_None store targets l :
  store !! l = None → send_all store targets !! l = None.
Proof.
  revert store. induction targets as [|[id l'] targets IH]; intros store H; [done|].
  simpl. apply IH. destruct (decide (l = l')) as [->|Hne].
  - by rewrite lookup_alter_eq, H.
  - by rewrite lookup_alter_ne.
Qed.

Section MoreHubFacts.
Context {rng : MapRange}.

Lemma broadcast_is_Some b l :
  is_Some (chans (broadcast b) !! l) ↔ is_Some (chans b !! l).
Proof.
  rewrite broadcast_chans.
  enough (∀ targets store, is_Some (send_all store targets !! l) ↔ is_Some (store !! l))
    as H by apply H.
  induction targets as [|[id l'] targets IH]; intros store; [done|].
  simpl. fold (send_all (alter select_send_default l' store) targets). rewrite IH.
  destruct (decide (l = l')) as [->|Hne].
  - rewrite lookup_alter_eq. by rewrite fmap_is_Some.
  - by rewrite lookup_alter_ne.
Qed.

Lemma hub_linked_step b b' : hub_step b b' → hub_linked b → hub_linked b'.
Proof.
  intros Hstep [Hin Hinj]. destruct Hstep as [b|b id|b|b ch b' Hr].
  - assert (∀ id, subs b !! id ≠ Some (fresh (dom (chans b)))) as Hfresh.
    { intros id Hid. destruct (Hin _ _ Hid) as [c Hc].
      apply (is_fresh (dom (chans b))). apply elem_of_dom. by exists c. }
    split; simpl.
    + intros id ch. destruct (decide (id = next b)) as [->|Hne].
      * rewrite lookup_insert_eq. intros [= <-]. by rewrite lookup_insert_eq.
      * rewrite lookup_insert_ne by done. intros Hid.
        rewrite lookup_insert_ne; [by eapply Hin|]. intros <-. by apply (Hfresh id).
    + intros id1 id2 ch.
      destruct (decide (id1 = next b)) as [->|Hne1];
        destruct (decide (id2 = next b)) as [->|Hne2]; [done|..].
      * rewrite lookup_insert_eq, lookup_insert_ne by done. intros [= <-] H2.
        by destruct (Hfresh id2).
      * rewrite lookup_insert_eq, lookup_insert_ne by done. intros H1 [= <-].
        by destruct (Hfresh id1).
      * rewrite !lookup_insert_ne by done. apply Hinj.
  - split; simpl.
    + intros id' ch. rewrite lookup_delete_Some. intros [_ H]. by eapply Hin.
    + intros id1 id2 ch. rewrite !lookup_delete_Some. intros [_ H1] [_ H2].
      by eapply Hinj.
  - split; simpl.
    + intros id ch Hid. apply broadcast_is_Some. by eapply Hin.
    + apply Hinj.
  - apply receive_Some_inv in Hr as (c & c' & Hc & _ & ->). split; simpl.
    + intros id l Hid. destruct (decide (l = ch)) as [->|Hne].
      * by rewrite lookup_insert_eq.
      * rewrite lookup_insert_ne by done. by eapply Hin.
    + apply Hinj.
Qed.

Lemma hub_linked_reachable b : hub_reachable b → hub_linked b.
Proof.
  unfold hub_reachable. revert b.
  apply (rtc_ind_r (R := hub_step) hub_linked newBroadcaster).
  - split; simpl; intros *; by rewrite lookup_empty.
  - intros b1 b2 _ Hstep IH. by eapply hub_linked_step.
Qed.

(** X7.  In every state the hub can be in, each subscription has a channel
    of its own.  So once a subscription is removed its channel is out of
    the hub's reach: a [broadcast] after [unsubscribe] leaves it as it
    was, whereas the channels of the remaining subscriptions are
    notified as before. *)
Theorem unsubscribed_channel_is_left_alone (b : broadcaster) (id : Z) (ch : nat) :
  hub_reachable b → subs b !! id = Some ch →
  (∀ id', subs b !! id' = Some ch → id' = id)
  ∧ is_Some (chans b !! ch)
  ∧ chans (broadcast (unsubscribe id b)) !! ch = chans b !! ch
  ∧ (∀ id' ch', id' ≠ id → subs b !! id' = Some ch' →
       chans (broadcast (unsubscribe id b)) !! ch' = chans (broadcast b) !! ch').
Proof.
  intros Hreach Hid. destruct (hub_linked_reachable b Hreach) as [Hin Hinj].
  pose proof (hub_inv_reachable b Hreach) as Hinv.
  split_and!.
  - intros id' Hid'. by eapply Hinj.
  - by eapply Hin.
  - rewrite (broadcast_unsubscribed (unsubscribe id b) ch); [done|].
    simpl. intros id'. rewrite lookup_delete_Some.
    intros [Hne Hid']. apply Hne. symmetry. by eapply Hinj.
  - intros id' ch' Hne Hid'. destruct (Hin _ _ Hid') as [c Hc].
    rewrite (broadcast_subscribed b id' ch' c Hinv Hid' Hc).
    apply (broadcast_subscribed (unsubscribe id b) id' ch' c); [done| |done].
    simpl. by rewrite lookup_delete_ne.
Qed.

(** X8.  A second [broadcast] with no receive in between changes nothing:
    rotations that follow one another faster than the subscribers read are
    one notification to each of them. *)
Theorem broadcast_twice_is_broadcast_once (b : broadcaster) :
  hub_reachable b → broadcast (broadcast b) = broadcast b.
Proof.
  intros Hreach. pose proof (hub_inv_reachable b Hreach) as Hinv.
  assert (chans (broadcast (broadcast b)) = chans (broadcast b)) as Hch.
  { apply map_eq. intros l.
    change (chans (broadcast (broadcast b)))
      with (send_all (chans (broadcast b)) (range_order (subs b))).
    destruct (chans (broadcast b) !! l) as [c|] eqn:Hc; [|by apply send_all_None].
    destruct (decide (l ∈ (range_order (subs b)).*2)) as [Hin|Hnin].
    - assert (hub_inv (broadcast b)) as Hinv'
        by (apply hub_inv_reachable; by apply broadcast_reachable).
      rewrite (send_all_target _ _ _ c Hinv' Hin Hc). f_equal.
      destruct (chans b !! l) as [c0|] eqn:Hc0.
      + rewrite broadcast_chans, (send_all_target _ _ _ c0 Hinv Hin Hc0) in Hc.
        injection Hc as <-. apply single_slot_send_twice. by apply (Hinv l).
      + rewrite broadcast_chans, (send_all_None _ _ _ Hc0) in Hc. discriminate Hc.
    - by rewrite send_all_untouched. }
  destruct (broadcast b) as [c s n] eqn:E. unfold broadcast at 1. simpl in *.
  f_equal. exact Hch.
Qed.

(** X9.  After any number of [broadcast]s a subscriber finds one
    notification: the first receive succeeds and empties the channel, the
    next one has to wait for another [broadcast]. *)
Theorem one_notification_per_burst (b : broadcaster) (n : nat) (id : Z) (ch : nat) :
  hub_reachable b → subs b !! id = Some ch →
  ∃ b1, receive ch (Nat.iter (S n) broadcast b) = Some b1
        ∧ chans b1 !! ch = Some {| cap := 1; buffered := 0 |}
        ∧ receive ch b1 = None.
Proof.
  intros Hreach Hid.
  set (b0 := Nat.iter n broadcast b).
  assert (hub_reachable b0) as Hreach0 by (by apply broadcasts_reachable).
  destruct (hub_linked_reachable b0 Hreach0) as [Hin _].
  assert (subs b0 !! id = Some ch) as Hid0 by (unfold b0; by rewrite broadcasts_subs).
  destruct (Hin _ _ Hid0) as [c Hc].
  pose proof (hub_inv_reachable b0 Hreach0) as Hinv.
  pose proof (broadcast_subscribed b0 id ch c Hinv Hid0 Hc) as Hb.
  pose proof (single_slot_send_pending c (Hinv ch c Hc)) as Hp.
  pose proof (select_send_default_cap c) as Hcap.
  destruct (Hinv ch c Hc) as [Hc1 _]. rewrite Hc1 in Hcap.
  change (Nat.iter (S n) broadcast b) with (broadcast b0).
  destruct (select_send_default c) as [cap' buf'] eqn:Es. simpl in Hp, Hcap. subst.
  eexists. split_and!.
  - unfold receive. rewrite Hb. simpl. reflexivity.
  - simpl. by rewrite lookup_insert_eq.
  - unfold receive. simpl. by rewrite lookup_insert_eq.
Qed.

Lemma wrap_int_small z : (0 ≤ z < 2 ^ 63)%Z → wrap_int z = z.
Proof.
  intros H. unfold wrap_int.
  change (2 ^ 63)%Z with 9223372036854775808%Z in *.
  change (2 ^ 64)%Z with 18446744073709551616%Z.
  rewrite Z.mod_small; lia.
Qed.

Lemma hub_reached_ids k b :
  hub_reached k b → (Z.of_nat k < 2 ^ 63)%Z →
  next b = Z.of_nat k ∧ ∀ id, is_Some (subs b !! id) → (0 ≤ id < Z.of_nat k)%Z.
Proof.
  induction 1 as [|k b _ IH|k b id _ IH|k b _ IH|k b ch b' _ IH Hr]; intros Hk.
  - split; [done|]. intros id [? H]. simpl in H. by rewrite lookup_empty in H.
  - destruct IH as [Hn Hids]; [lia|]. simpl. split.
    + rewrite Hn, wrap_int_small; lia.
    + intros id. destruct (decide (id = next b)) as [->|Hne].
      * intros _. lia.
      * rewrite lookup_insert_ne by done. intros Hs. specialize (Hids _ Hs). lia.
  - destruct (IH Hk) as [Hn Hids]. simpl. split; [done|].
    intros id' [l Hl]. apply lookup_delete_Some in Hl as [_ Hl]. apply Hids. by eexists.
  - destruct (IH Hk) as [Hn Hids]. done.
  - destruct (IH Hk) as [Hn Hids].
    apply receive_Some_inv in Hr as (c & c' & _ & _ & ->). done.
Qed.

(** X10.  Until the counter wraps, that is for the first [2^63]
    subscriptions, [subscribe] hands out the ids [0, 1, 2, ...] in turn, an
    id is never in use when it is handed out, and unsubscribing it again
    leaves the set of subscriptions as it was before. *)
Theorem subscription_ids_are_fresh (k : nat) (b : broadcaster) :
  hub_reached k b → (Z.of_nat k < 2 ^ 63)%Z →
  (subscribe b).1.1 = Z.of_nat k
  ∧ subs b !! (subscribe b).1.1 = None
  ∧ subs (unsubscribe (subscribe b).1.1 (subscribe b).2) = subs b.
Proof.
  intros Hr Hk. destruct (hub_reached_ids k b Hr Hk) as [Hn Hids]. simpl.
  assert (subs b !! next b = None) as Hfresh.
  { destruct (subs b !! next b) eqn:E; [|done].
    specialize (Hids (next b) (ex_intro _ _ E)). lia. }
  split_and!; [done|done|]. by rewrite delete_insert_eq, delete_id.
Qed.

End MoreHubFacts.

(** ** A handler over its whole life *)

Section Lifecycle.
Context {rng : MapRange} {R : Type}.
Variable name : string.
Variable build : CredsDir → result R.

Lemma session_step_sent b (s : session R) i b' s' :
  session_step name build b s i = Some (b', s') →
  sent s `prefix_of` sent s' ∧ logged s `prefix_of` logged s'
  ∧ length (sent s') + length (logged s') ≤ S (length (sent s) + length (logged s)).
Proof.
  unfold session_step. intros H.
  destruct (at_phase s) as [| |id ch|ret], i as [fs send| |fs send|]; try done.
  - destruct (build fs), send; injection H as <- <-; simpl;
      rewrite ?length_app; simpl; split_and!; try done; try lia.
    by apply prefix_app_r.
  - injection H as <- <-. simpl. split_and!; [done..|lia].
  - destruct (receive ch b) as [b1|]; [|done]. simpl in H.
    destruct (build fs), send; injection H as <- <-; simpl;
      rewrite ?length_app; simpl; split_and!; try done; try lia;
      by apply prefix_app_r.
  - injection H as <- <-. simpl. split_and!; [done..|lia].
Qed.

(** X12.  A handler in its loop returns for two reasons only: the client
    is gone ([Done], returning [nil]), or a [Send] of a rebuilt response
    failed (returning that error).  A failed rebuild never ends it.  On
    either way out its subscription is removed, and a handler that has
    returned takes no further input. *)
Theorem handler_returns_only_on_done_or_send_error
    (b : broadcaster) (s : session R) (i : input) :
  (∀ id ch b' s' ret,
     at_phase s = Live id ch → session_step name build b s i = Some (b', s') →
     at_phase s' = Returned ret →
     ((i = Done ∧ ret = None)
      ∨ ∃ fs err resp, i = Rotated fs (Some err) ∧ build fs = Ok resp
                       ∧ ret = Some (SendError err))
     ∧ subs b' !! id = None ∧ sent s' = sent s ∧ logged s' = logged s)
  ∧ (∀ ret, at_phase s = Returned ret → session_step name build b s i = None).
Proof.
  split.
  - intros id ch b' s' ret Hp H Hret. unfold session_step in H. rewrite Hp in H.
    destruct i as [fs send| |fs send|]; try done.
    + destruct (receive ch b) as [b1|] eqn:Hr; [|done]. simpl in H.
      destruct (build fs) as [resp|e] eqn:Hb.
      * destruct send as [err|]; injection H as <- <-; simpl in Hret; [|done].
        injection Hret as <-. simpl. split_and!; try done.
        -- right. by exists fs, err, resp.
        -- apply lookup_delete_eq.
      * injection H as <- <-. done.
    + injection H as <- <-. simpl in *. injection Hret as <-. split_and!; try done.
      * by left.
      * apply lookup_delete_eq.
  - intros ret Hp. unfold session_step. rewrite Hp. by destruct i.
Qed.

Lemma lifecycle_inv_step subs0 b s ev b' s' :
  lifecycle_inv subs0 b s → system_step name build b s ev = Some (b', s') →
  lifecycle_inv subs0 b' s'.
Proof.
  unfold lifecycle_inv. intros Hinv H. destruct ev as [i|]; simpl in H.
  - unfold session_step in H.
    destruct (at_phase s) as [| |id ch|ret] eqn:Hp, i as [fs send| |fs send|]; try done.
    + destruct Hinv as [Hs Hf].
      destruct (build fs), send; injection H as <- <-; simpl; split; try done;
        try (intros _; apply Hf; by left); by intros [?|?].
    + destruct Hinv as [Hs Hf]. injection H as <- <-. simpl.
      split; [apply Hf; by right|by rewrite Hs].
    + destruct Hinv as [Hf Hs].
      destruct (receive ch b) as [b1|] eqn:Hr; [|done]. simpl in H.
      apply receive_Some_inv in Hr as (c & c' & _ & _ & ->).
      destruct (build fs), send; injection H as <- <-; simpl; try done.
      split; [|by intros [?|?]]. by rewrite Hs, delete_insert_eq, delete_id.
    + destruct Hinv as [Hf Hs]. injection H as <- <-. simpl.
      split; [|by intros [?|?]]. by rewrite Hs, delete_insert_eq, delete_id.
  - injection H as <- <-. simpl. by destruct (at_phase s).
Qed.

Lemma lifecycle_inv_run subs0 b s evs b' s' :
  lifecycle_inv subs0 b s → system_run name build b s evs = Some (b', s') →
  lifecycle_inv subs0 b' s'.
Proof.
  revert b s. induction evs as [|ev evs IH]; intros b s H0 H; simpl in H.
  - by injection H as <- <-.
  - destruct (system_step name build b s ev) as [[b1 s1]|] eqn:E; [|done]. simpl in H.
    eapply IH; [|done]. by eapply lifecycle_inv_step.
Qed.

(** X13.  A handler leaves the hub's subscriptions as it found them: run
    from its start over any inputs and rotations, it holds exactly one
    subscription more while it is in its loop, and none once it has
    returned or before it subscribed.  (The id it is handed must be free,
    as it is until the counter wraps.) *)
Theorem handler_does_not_leak_its_subscription
    (b : broadcaster) (evs : list sys_event) (b' : broadcaster) (s' : session R) :
  subs b !! next b = None →
  system_run name build b new_session evs = Some (b', s') →
  match at_phase s' with
  | Live id ch => subs b !! id = None ∧ subs b' = <[id := ch]> (subs b)
  | _ => subs b' = subs b
  end.
Proof.
  intros Hfree H.
  assert (lifecycle_inv (subs b) b (@new_session R)) as H0 by (by split).
  pose proof (lifecycle_inv_run _ _ _ _ _ _ H0 H) as Hinv.
  unfold lifecycle_inv in Hinv. destruct (at_phase s'); by destruct Hinv.
Qed.

(** X14.  The handler subscribes after it has sent its first response, and
    its channel starts empty: rotations broadcast between the first build
    and [subscribe] are not seen by it, and until the next [broadcast]
    there is nothing for it to receive. *)
Theorem rotation_before_subscribe_is_missed
    (b : broadcaster) (s : session R) (n : nat) (fs : CredsDir) (send : option error) :
  at_phase s = Sent →
  (∃ b' id ch, system_run name build b s (replicate n Rotation ++ [Handler Subscribe])
               = Some (b', mkSession (Live id ch) (sent s) (logged s))
               ∧ chans b' !! ch = Some (make_chan 1))
  ∧ system_run name build b s
      (replicate n Rotation ++ [Handler Subscribe; Handler (Rotated fs send)]) = None.
Proof.
  intros Hp.
  assert (∀ tl, system_run name build b s (replicate n Rotation ++ tl)
                = system_run name build (Nat.iter n broadcast b) s tl) as Hn.
  { intros tl. revert b. induction n as [|n IH]; intros b; [done|].
    simpl. rewrite IH. f_equal. clear. induction n as [|n IH]; [done|]. simpl. by rewrite IH. }
  rewrite !Hn. set (b0 := Nat.iter n broadcast b). simpl.
  unfold session_step. rewrite Hp. simpl. split.
  - eexists _, _, _. split; [reflexivity|]. simpl. by rewrite lookup_insert_eq.
  - unfold receive. simpl. by rewrite lookup_insert_eq.
Qed.

Lemma updates_inv_step r b s ev b' s' :
  updates_inv r b s → system_step name build b s ev = Some (b', s') →
  updates_inv (r + rotations [ev]) b' s'.
Proof.
  unfold updates_inv. intros [Hinv Hs] H. destruct ev as [i|]; simpl in H.
  - simpl. rewrite Nat.add_0_r. unfold session_step in H.
    destruct (at_phase s) as [| |id ch|ret] eqn:Hp, i as [fs send| |fs send|]; try done.
    + destruct Hs as [Hs Hl].
      destruct (build fs), send; injection H as <- <-; simpl; (split; [done|]);
        rewrite ?Hs, ?Hl; simpl; lia.
    + injection H as <- <-. simpl. split.
      * apply (hub_inv_step b (subscribe b).2); [constructor|done].
      * rewrite lookup_insert_eq. split; [done|]. exists (make_chan 1).
        rewrite lookup_insert_eq. split; [done|]. simpl. lia.
    + destruct Hs as (Hid & c & Hc & Hle).
      destruct (receive ch b) as [b1|] eqn:Hr; [|done]. simpl in H.
      assert (hub_inv b1) as Hinv1 by (eapply hub_inv_step; [by econstructor|done]).
      apply receive_Some_inv in Hr as (c0 & c' & Hc0 & Hrecv & ->).
      assert (c0 = c) as -> by congruence.
      assert (buffered c = S (buffered c')) as Hbuf.
      { unfold chan_recv in Hrecv. destruct (buffered c); [done|]. by injection Hrecv as <-. }
      destruct (build fs), send; injection H as <- <-; simpl; (split; [done|]);
        rewrite ?length_app, ?lookup_insert_eq; simpl; try lia;
        (split; [done|]); exists c'; (split; [done|]); lia.
    + destruct Hs as (Hid & c & Hc & Hle). injection H as <- <-. simpl.
      split; [done|]. lia.
  - simpl. rewrite Nat.add_1_r. injection H as <- <-. split.
    + apply (hub_inv_step b (broadcast b)); [constructor|done].
    + destruct (at_phase s) as [| |id ch|ret]; try done; try lia.
      destruct Hs as (Hid & c & Hc & Hle). split; [done|].
      exists (select_send_default c). split; [by apply broadcast_subscribed with id|].
      rewrite select_send_default_buffered. case_decide; lia.
Qed.

Lemma updates_inv_run r b s evs b' s' :
  updates_inv r b s → system_run name build b s evs = Some (b', s') →
  updates_inv (r + rotations evs) b' s'.
Proof.
  revert r b s. induction evs as [|ev evs IH]; intros r b s Hinv H; simpl in H.
  - injection H as <- <-. simpl. by rewrite Nat.add_0_r.
  - destruct (system_step name build b s ev) as [[b1 s1]|] eqn:E; [|done]. simpl in H.
    pose proof (IH _ _ _ (updates_inv_step _ _ _ _ _ _ Hinv E) H) as Hinv'.
    replace (r + rotations (ev :: evs)) with (r + rotations [ev] + rotations evs);
      [done|]. destruct ev; simpl; lia.
Qed.

(** X15.  A handler sends or logs at most once per rotation: over any run
    from its start, the payloads the client got and the reload failures
    logged are together at most one (the first response) more than the
    [broadcast]s that happened. *)
Theorem at_most_one_update_per_rotation
    (b : broadcaster) (evs : list sys_event) (b' : broadcaster) (s' : session R) :
  hub_inv b →
  system_run name build b new_session evs = Some (b', s') →
  length (sent s') + length (logged s') ≤ 1 + rotations evs.
Proof.
  intros Hinv H.
  assert (updates_inv 0 b (@new_session R)) as H0 by (by split).
  pose proof (updates_inv_run _ _ _ _ _ _ H0 H) as [_ Hs]. simpl in Hs.
  destruct (at_phase s') as [| |id ch|ret].
  - destruct Hs as [-> ->]. simpl. lia.
  - lia.
  - destruct Hs as (_ & c & _ & Hle). lia.
  - lia.
Qed.

End Lifecycle.

Section Lifecycle_samples.
#[local] Existing Instances Demo.pem Demo.x509 Demo.base64 Demo.range Samples.json.

Lemma hub_two_reachable : hub_reachable Samples.hub_two.
Proof. eapply rtc_r; [apply hub_one_reachable|constructor]. Qed.

Lemma hub_two_reached : hub_reached 2 Samples.hub_two.
Proof. repeat constructor. Qed.

Lemma unsubscribed_channel_is_left_alone_witness :
  hub_reachable Samples.hub_two
  ∧ subs Samples.hub_two !! 0%Z = Some 0
  ∧ (∀ id', subs Samples.hub_two !! id' = Some 0 → id' = 0%Z)
  ∧ is_Some (chans Samples.hub_two !! 0)
  ∧ chans (broadcast (unsubscribe 0 Samples.hub_two)) !! 0 = chans Samples.hub_two !! 0
  ∧ (∀ id' ch', id' ≠ 0%Z → subs Samples.hub_two !! id' = Some ch' →
       chans (broadcast (unsubscribe 0 Samples.hub_two)) !! ch'
       = chans (broadcast Samples.hub_two) !! ch').
Proof.
  assert (subs Samples.hub_two !! 0%Z = Some 0) as H by (vm_compute; reflexivity).
  split; [exact hub_two_reachable|]. split; [exact H|].
  exact (unsubscribed_channel_is_left_alone Samples.hub_two 0 0 hub_two_reachable H).
Defined.

Lemma broadcast_twice_is_broadcast_once_witness :
  hub_reachable Samples.hub_two
  ∧ broadcast (broadcast Samples.hub_two) = broadcast Samples.hub_two.
Proof.
  split; [exact hub_two_reachable|].
  exact (broadcast_twice_is_broadcast_once Samples.hub_two hub_two_reachable).
Defined.

Lemma one_notification_per_burst_witness :
  hub_reachable Samples.hub_two
  ∧ subs Samples.hub_two !! 1%Z = Some 1
  ∧ ∃ b1, receive 1 (Nat.iter 3 broadcast Samples.hub_two) = Some b1
          ∧ chans b1 !! 1 = Some {| cap := 1; buffered := 0 |}
          ∧ receive 1 b1 = None.
Proof.
  assert (subs Samples.hub_two !! 1%Z = Some 1) as H by (vm_compute; reflexivity).
  split; [exact hub_two_reachable|]. split; [exact H|].
  exact (one_notification_per_burst Samples.hub_two 2 1 1 hub_two_reachable H).
Defined.

Lemma subscription_ids_are_fresh_witness :
  hub_reached 2 Samples.hub_two
  ∧ (Z.of_nat 2 < 2 ^ 63)%Z
  ∧ (subscribe Samples.hub_two).1.1 = Z.of_nat 2
  ∧ subs Samples.hub_two !! (subscribe Samples.hub_two).1.1 = None
  ∧ subs (unsubscribe (subscribe Samples.hub_two).1.1 (subscribe Samples.hub_two).2)
    = subs Samples.hub_two.
Proof.
  assert (Z.of_nat 2 < 2 ^ 63)%Z as H by (vm_compute; reflexivity).
  split; [exact hub_two_reached|]. split; [exact H|].
  exact (subscription_ids_are_fresh 2 Samples.hub_two hub_two_reached H).
Defined.

(** The counter after [2^63 - 1] wraps to the least [int]. *)
Example subscription_counter_wraps :
  wrap_int (2 ^ 63 - 1 + 1) = (- 2 ^ 63)%Z.
Proof. vm_compute. reflexivity. Qed.

Lemma sample_life :
  system_run "FetchX509SVID" buildX509SVIDResponse newBroadcaster new_session Samples3.life
  = Some (Samples3.hub_after_life, Samples3.session_after_life).
Proof. vm_compute. reflexivity. Qed.

Lemma sample_life_done :
  system_run "FetchX509SVID" buildX509SVIDResponse newBroadcaster new_session
    (Samples3.life ++ [Handler Done])
  = Some (Samples3.hub_after_done, Samples3.session_after_done).
Proof. vm_compute. reflexivity. Qed.

Lemma handler_returns_only_on_done_or_send_error_witness :
  at_phase Samples3.session_after_life = Live 0 0
  ∧ session_step "FetchX509SVID" buildX509SVIDResponse Samples3.hub_after_life
      Samples3.session_after_life Done
    = Some (Samples3.hub_after_done, Samples3.session_after_done)
  ∧ ((Done = Done ∧ (None : option rpcError) = None)
     ∨ ∃ fs err resp, Done = Rotated fs (Some err) ∧ buildX509SVIDResponse fs = Ok resp
                      ∧ None = Some (SendError err))
  ∧ subs Samples3.hub_after_done !! 0%Z = None
  ∧ sent Samples3.session_after_done = sent Samples3.session_after_life
  ∧ logged Samples3.session_after_done = logged Samples3.session_after_life.
Proof.
  assert (session_step "FetchX509SVID" buildX509SVIDResponse Samples3.hub_after_life
            Samples3.session_after_life Done
          = Some (Samples3.hub_after_done, Samples3.session_after_done)) as H
    by (vm_compute; reflexivity).
  split; [reflexivity|]. split; [exact H|].
  exact (proj1 (handler_returns_only_on_done_or_send_error "FetchX509SVID"
                  buildX509SVIDResponse Samples3.hub_after_life
                  Samples3.session_after_life Done)
           0%Z 0 _ _ None eq_refl H eq_refl).
Defined.

Lemma handler_does_not_leak_its_subscription_witness :
  subs newBroadcaster !! next newBroadcaster = None
  ∧ subs Samples3.hub_after_done = subs newBroadcaster
  ∧ subs newBroadcaster !! 0%Z = None
  ∧ subs Samples3.hub_after_life = <[0%Z := 0]> (subs newBroadcaster).
Proof.
  assert (subs newBroadcaster !! next newBroadcaster = None) as H by reflexivity.
  split; [exact H|]. split.
  - exact (handler_does_not_leak_its_subscription "FetchX509SVID" buildX509SVIDResponse
             newBroadcaster _ _ _ H sample_life_done).
  - exact (handler_does_not_leak_its_subscription "FetchX509SVID" buildX509SVIDResponse
             newBroadcaster _ _ _ H sample_life).
Defined.

Lemma rotation_before_subscribe_is_missed_witness :
  at_phase Samples3.session_sent = Sent
  ∧ (∃ b' id ch,
       system_run "FetchX509SVID" buildX509SVIDResponse Samples.hub_one
         Samples3.session_sent (replicate 2 Rotation ++ [Handler Subscribe])
       = Some (b', mkSession (Live id ch) (sent Samples3.session_sent)
                             (logged Samples3.session_sent))
       ∧ chans b' !! ch = Some (make_chan 1))
  ∧ system_run "FetchX509SVID" buildX509SVIDResponse Samples.hub_one Samples3.session_sent
      (replicate 2 Rotation
       ++ [Handler Subscribe; Handler (Rotated Samples.dir_jwt_only None)]) = None.
Proof.
  split; [reflexivity|].
  exact (rotation_before_subscribe_is_missed "FetchX509SVID" buildX509SVIDResponse
           Samples.hub_one Samples3.session_sent 2 Samples.dir_jwt_only None eq_refl).
Defined.

Lemma at_most_one_update_per_rotation_witness :
  hub_inv newBroadcaster
  ∧ length (sent Samples3.session_after_life) + length (logged Samples3.session_after_life)
    ≤ 1 + rotations Samples3.life.
Proof.
  split; [exact hub_inv_new|].
  exact (at_most_one_update_per_rotation "FetchX509SVID" buildX509SVIDResponse
           newBroadcaster _ _ _ hub_inv_new sample_life).
Defined.

End Lifecycle_samples.

(** ** The rotation watcher *)

Lemma pushes_app l1 l2 : pushes (l1 ++ l2) = pushes l1 + pushes l2.
Proof. induction l1 as [|[|e] l1 IH]; simpl; lia. Qed.

Lemma timer_stop_lookup t ts t' :
  timer_stop t ts !! t' = Some Pending ↔ t' ≠ t ∧ ts !! t' = Some Pending.
Proof.
  unfold timer_stop. destruct (decide (t' = t)) as [->|Hne].
  - destruct (ts !! t) as [[| |]|] eqn:E; rewrite ?lookup_insert_eq, ?E;
      split; try done; by intros [? ?].
  - destruct (ts !! t) as [[| |]|] eqn:E; rewrite ?lookup_insert_ne by done;
      split; try done; by intros [? ?].
Qed.

Section WatcherFacts.
Context {rng : MapRange}.

Lemma watcher_run_app w evs1 evs2 :
  watcher_run w (evs1 ++ evs2) = watcher_run w evs1 ≫= λ w', watcher_run w' evs2.
Proof.
  revert w. induction evs1 as [|ev evs1 IH]; intros w; [done|].
  simpl. destruct (watcher_step w ev) as [w1|]; [|done]. simpl. apply IH.
Qed.

(** What a write or create event leaves behind: the timer it has made is
    the one pending timer; nothing is logged or broadcast. *)
Lemma watcher_step_trigger w op :
  watcher_inv w → looping w = true → is_trigger (FsEvent op) = true →
  ∃ w1 t, watcher_step w (FsEvent op) = Some w1
          ∧ looping w1 = true ∧ debounce w1 = Some t
          ∧ (∀ t', timers w1 !! t' = Some Pending ↔ t' = t)
          ∧ hub w1 = hub w ∧ wlog w1 = wlog w ∧ watcher_inv w1.
Proof.
  intros Hinv Hl Ht. simpl in Ht. unfold watcher_step. rewrite Hl, Ht.
  set (ts := match debounce w with
             | Some t => timer_stop t (timers w)
             | None => timers w
             end).
  assert (∀ t', ts !! t' ≠ Some Pending) as Hnone.
  { intros t' Hp. unfold ts in Hp. destruct (debounce w) as [t0|] eqn:Hd.
    - apply timer_stop_lookup in Hp as [Hne Hp]. apply Hinv in Hp. congruence.
    - apply Hinv in Hp. congruence. }
  assert (∀ t', <[fresh (dom ts) := Pending]> ts !! t' = Some Pending ↔ t' = fresh (dom ts))
    as Hone.
  { intros t'. destruct (decide (t' = fresh (dom ts))) as [->|Hne].
    - by rewrite lookup_insert_eq.
    - rewrite lookup_insert_ne by done. split; [by intros ?%Hnone|done]. }
  eexists _, (fresh (dom ts)). split; [reflexivity|]. simpl. split_and!; try done.
  intros t' Hp. simpl in *. by apply Hone in Hp as ->.
Qed.

Lemma watcher_inv_step w ev w' :
  watcher_inv w → watcher_step w ev = Some w' → watcher_inv w'.
Proof.
  intros Hinv H. destruct ev as [op| |err| |t].
  - destruct (looping w) eqn:Hl; [|by simpl in H; rewrite Hl in H].
    destruct (is_trigger (FsEvent op)) eqn:Ht.
    + destruct (watcher_step_trigger w op Hinv Hl Ht)
        as (w1 & t & Hs & _ & _ & _ & _ & _ & Hi).
      rewrite Hs in H. by injection H as <-.
    + simpl in H, Ht. rewrite Hl, Ht in H. by injection H as <-.
  - simpl in H. destruct (looping w); [|done]. by injection H as <-.
  - simpl in H. destruct (looping w); [|done]. by injection H as <-.
  - simpl in H. destruct (looping w); [|done]. by injection H as <-.
  - simpl in H. destruct (timers w !! t) as [[| |]|] eqn:E; try done. injection H as <-.
    intros t' Hp. simpl in *. destruct (decide (t' = t)) as [->|Hne].
    + by rewrite lookup_insert_eq in Hp.
    + rewrite lookup_insert_ne in Hp by done. by apply Hinv.
Qed.

(** Pushes done and the push still to come never exceed the pushes there
    were plus the triggers met; once the loop has returned it stays so. *)
Lemma watcher_step_count w ev w' :
  watcher_inv w → watcher_step w ev = Some w' →
  pushes (wlog w') + pending_timers w'
  ≤ pushes (wlog w) + pending_timers w + (if is_trigger ev then 1 else 0)
  ∧ hub w' = Nat.iter (pushes (wlog w') - pushes (wlog w)) broadcast (hub w)
  ∧ pushes (wlog w) ≤ pushes (wlog w')
  ∧ (looping w = false → looping w' = false ∧ is_trigger ev = false).
Proof.
  intros Hinv H. destruct ev as [op| |err| |t].
  - simpl in H. destruct (looping w) eqn:Hl; [|done].
    destruct (is_trigger (FsEvent op)) eqn:Ht.
    + destruct (watcher_step_trigger w op Hinv Hl Ht)
        as (w1 & t & Hs & _ & Hd & Hp & Hh & Hlog & _).
      simpl in Hs. rewrite Hl in Hs. rewrite H in Hs. injection Hs as <-.
      unfold pending_timers at 1. rewrite Hd, (proj2 (Hp t) eq_refl), Hlog, Hh.
      rewrite Nat.sub_diag. split_and!; [lia|done|lia|done].
    + simpl in Ht. rewrite Ht in H. injection H as <-.
      rewrite Nat.sub_diag. split_and!; [lia|done|lia|done].
  - simpl in H. destruct (looping w) eqn:Hl; [|done]. injection H as <-.
    unfold pending_timers. simpl. rewrite Nat.sub_diag. split_and!; [lia|done|lia|done].
  - simpl in H. destruct (looping w) eqn:Hl; [|done]. injection H as <-.
    unfold pending_timers. simpl. rewrite pushes_app. simpl.
    replace (pushes (wlog w) + 0 - pushes (wlog w)) with 0 by lia.
    split_and!; [lia|done|lia|done].
  - simpl in H. destruct (looping w) eqn:Hl; [|done]. injection H as <-.
    unfold pending_timers. simpl. rewrite Nat.sub_diag. split_and!; [lia|done|lia|done].
  - simpl in H. destruct (timers w !! t) as [[| |]|] eqn:E; try done. injection H as <-.
    pose proof (Hinv t E) as Hd.
    unfold pending_timers. simpl. rewrite Hd, E, lookup_insert_eq, pushes_app. simpl.
    replace (pushes (wlog w) + 1 - pushes (wlog w)) with 1 by lia.
    split_and!; [lia|done|lia|done].
Qed.

Lemma watcher_run_count w evs w' :
  watcher_inv w → watcher_run w evs = Some w' →
  watcher_inv w'
  ∧ pushes (wlog w') + pending_timers w'
    ≤ pushes (wlog w) + pending_timers w + triggers evs
  ∧ hub w' = Nat.iter (pushes (wlog w') - pushes (wlog w)) broadcast (hub w)
  ∧ pushes (wlog w) ≤ pushes (wlog w')
  ∧ (looping w = false → looping w' = false ∧ triggers evs = 0).
Proof.
  revert w. induction evs as [|ev evs IH]; intros w Hinv H; simpl in H.
  - injection H as <-. rewrite Nat.sub_diag. simpl. split_and!; [done|lia|done|lia|done].
  - destruct (watcher_step w ev) as [w1|] eqn:E; [|done]. simpl in H.
    pose proof (watcher_inv_step _ _ _ Hinv E) as Hinv1.
    destruct (watcher_step_count _ _ _ Hinv E) as (Hc1 & Hh1 & Hm1 & Hl1).
    destruct (IH _ Hinv1 H) as (Hinv' & Hc & Hh & Hm & Hl).
    split_and!; [done|simpl; lia| |lia|].
    + rewrite Hh, Hh1, <- Nat.iter_add. f_equal. lia.
    + intros Hf. destruct (Hl1 Hf) as [Hf1 Ht]. destruct (Hl Hf1) as [? Hz].
      split; [done|]. simpl. by rewrite Ht, Hz.
Qed.

(** X16.  A burst is one broadcast.  After one or more write or create
    events with no timer expiring in between, exactly one timer is pending
    (the one the last event made), nothing has been logged or broadcast
    yet, and when that timer expires the hub is broadcast to once, after
    which no timer is left to fire. *)
Theorem burst_of_writes_is_one_broadcast (w : watcher) (ops : list N) :
  watcher_inv w → looping w = true → ops ≠ [] →
  Forall (λ op, is_trigger (FsEvent op) = true) ops →
  ∃ w1 t,
    watcher_run w (FsEvent <$> ops) = Some w1
    ∧ hub w1 = hub w ∧ wlog w1 = wlog w
    ∧ (∀ t', is_Some (watcher_step w1 (TimerFires t')) ↔ t' = t)
    ∧ ∃ w2, watcher_step w1 (TimerFires t) = Some w2
            ∧ hub w2 = broadcast (hub w)
            ∧ wlog w2 = wlog w ++ [LogPushing]
            ∧ ∀ t', watcher_step w2 (TimerFires t') = None.
Proof.
  intros Hinv Hl Hne Hall.
  assert (∃ w1 t, watcher_run w (FsEvent <$> ops) = Some w1
                  ∧ debounce w1 = Some t
                  ∧ (∀ t', timers w1 !! t' = Some Pending ↔ t' = t)
                  ∧ hub w1 = hub w ∧ wlog w1 = wlog w) as (w1 & t & Hrun & Hd & Hp & Hh & Hlog).
  { revert w Hinv Hl. induction ops as [|op ops IH]; intros w Hinv Hl; [done|].
    apply Forall_cons in Hall as [Hop Hall].
    destruct (watcher_step_trigger w op Hinv Hl Hop)
      as (w1 & t & Hs & Hl1 & Hd & Hp & Hh & Hlog & Hinv1).
    rewrite fmap_cons. cbn [watcher_run]. rewrite Hs. simpl.
    destruct ops as [|op' ops].
    - exists w1, t. by split_and!.
    - destruct (IH ltac:(done) Hall w1 Hinv1 Hl1) as (w2 & t2 & ? & ? & ? & Hh2 & Hlog2).
      exists w2, t2. split_and!; try done; congruence. }
  exists w1, t. split_and!; try done.
  - intros t'. rewrite <- Hp. unfold watcher_step.
    destruct (timers w1 !! t') as [[| |]|]; split; intros H; try done;
      try (by destruct H); by eexists.
  - unfold watcher_step. rewrite (proj2 (Hp t) eq_refl).
    eexists. split; [reflexivity|]. simpl. split_and!; [by rewrite Hh|by rewrite Hlog|].
    intros t'. destruct (decide (t' = t)) as [->|Hne'].
    + by rewrite lookup_insert_eq.
    + rewrite lookup_insert_ne by done.
      destruct (timers w1 !! t') as [[| |]|] eqn:E; try done.
      by apply Hp in E.
Qed.

(** X17.  Over any run of the watcher from its start, the hub has been
    broadcast to once per "credentials rotated" line of the log and never
    otherwise, and these broadcasts, with the one a pending timer may
    still bring, are at most as many as the write and create events seen:
    events of other kinds, watcher errors and closed channels cause no
    broadcast, and at no time are two timers pending. *)
Theorem broadcasts_are_bounded_by_writes
    (b : broadcaster) (evs : list watcher_event) (w : watcher) :
  watcher_run (watcher_start b) evs = Some w →
  hub w = Nat.iter (pushes (wlog w)) broadcast b
  ∧ pushes (wlog w) + pending_timers w ≤ triggers evs
  ∧ (∀ t1 t2, timers w !! t1 = Some Pending → timers w !! t2 = Some Pending → t1 = t2).
Proof.
  intros H.
  assert (watcher_inv (watcher_start b)) as H0 by (intros t Ht; by simpl in Ht).
  destruct (watcher_run_count _ _ _ H0 H) as (Hinv & Hc & Hh & _ & _).
  simpl in *. rewrite Nat.sub_0_r in Hh. split_and!; [done|done|].
  intros t1 t2 H1 H2. apply Hinv in H1, H2. congruence.
Qed.

(** X18.  When the loop has returned (a channel of the watcher was closed)
    no event or error is taken any more, but the timer is not stopped: a
    rotation seen just before is still broadcast when its timer expires,
    and that is the last broadcast there is. *)
Theorem pending_broadcast_outlives_the_loop (w : watcher) :
  watcher_inv w → looping w = false →
  (∀ ev, (∀ t, ev ≠ TimerFires t) → watcher_step w ev = None)
  ∧ (∀ t, debounce w = Some t → timers w !! t = Some Pending →
       ∃ w', watcher_step w (TimerFires t) = Some w'
             ∧ hub w' = broadcast (hub w) ∧ pending_timers w' = 0)
  ∧ (∀ evs w', watcher_run w evs = Some w' →
       looping w' = false
       ∧ pushes (wlog w') ≤ pushes (wlog w) + pending_timers w).
Proof.
  intros Hinv Hl. split_and!.
  - intros ev Hev. destruct ev as [op| |err| |t]; simpl; rewrite ?Hl; try done.
    by destruct (Hev t).
  - intros t Hd Hp. unfold watcher_step. rewrite Hp. eexists. split; [reflexivity|].
    simpl. split; [done|]. unfold pending_timers. simpl. by rewrite Hd, lookup_insert_eq.
  - intros evs w' H.
    destruct (watcher_run_count _ _ _ Hinv H) as (_ & Hc & _ & _ & Hf).
    destruct (Hf Hl) as [Hl' Hz]. split; [done|]. lia.
Qed.

End WatcherFacts.

Section Watcher_samples.
#[local] Existing Instances Demo.pem Demo.x509 Demo.base64 Demo.range Samples.json.

Lemma watcher_start_inv b : watcher_inv (watcher_start b).
Proof. intros t Ht. by simpl in Ht. Qed.

Lemma burst_of_writes_is_one_broadcast_witness :
  watcher_inv (watcher_start Samples.hub_two)
  ∧ Forall (λ op, is_trigger (FsEvent op) = true) Samples4.burst
  ∧ ∃ w1 t,
      watcher_run (watcher_start Samples.hub_two) (FsEvent <$> Samples4.burst) = Some w1
      ∧ hub w1 = Samples.hub_two ∧ wlog w1 = []
      ∧ (∀ t', is_Some (watcher_step w1 (TimerFires t')) ↔ t' = t)
      ∧ ∃ w2, watcher_step w1 (TimerFires t) = Some w2
              ∧ hub w2 = broadcast Samples.hub_two
              ∧ wlog w2 = [] ++ [LogPushing]
              ∧ ∀ t', watcher_step w2 (TimerFires t') = None.
Proof.
  assert (Forall (λ op, is_trigger (FsEvent op) = true) Samples4.burst) as H
    by (repeat constructor).
  split; [apply watcher_start_inv|]. split; [exact H|].
  exact (burst_of_writes_is_one_broadcast (watcher_start Samples.hub_two) Samples4.burst
           (watcher_start_inv _) eq_refl ltac:(discriminate) H).
Defined.

Lemma sample_watch :
  watcher_run (watcher_start Samples.hub_two) Samples4.watch = Some Samples4.watcher_after_watch.
Proof. vm_compute. reflexivity. Qed.

Lemma broadcasts_are_bounded_by_writes_witness :
  watcher_run (watcher_start Samples.hub_two) Samples4.watch = Some Samples4.watcher_after_watch
  ∧ hub Samples4.watcher_after_watch
    = Nat.iter (pushes (wlog Samples4.watcher_after_watch)) broadcast Samples.hub_two
  ∧ pushes (wlog Samples4.watcher_after_watch) + pending_timers Samples4.watcher_after_watch
    ≤ triggers Samples4.watch
  ∧ (∀ t1 t2, timers Samples4.watcher_after_watch !! t1 = Some Pending →
              timers Samples4.watcher_after_watch !! t2 = Some Pending → t1 = t2).
Proof.
  split; [exact sample_watch|].
  exact (broadcasts_are_bounded_by_writes Samples.hub_two Samples4.watch
           Samples4.watcher_after_watch sample_watch).
Defined.

(** In [watch] three events are a write or a create and two broadcasts
    were made: the first two events of the rotation were one burst. *)
Example sample_watch_counts :
  triggers Samples4.watch = 3 ∧ pushes (wlog Samples4.watcher_after_watch) = 2.
Proof. split; reflexivity. Qed.

Lemma watcher_closed_inv : watcher_inv Samples4.watcher_closed.
Proof.
  intros t Ht. simpl in *. destruct (decide (t = 0)) as [->|Hne]; [done|].
  by rewrite lookup_singleton_ne in Ht.
Qed.

Lemma pending_broadcast_outlives_the_loop_witness :
  watcher_inv Samples4.watcher_closed
  ∧ looping Samples4.watcher_closed = false
  ∧ (∀ ev, (∀ t, ev ≠ TimerFires t) → watcher_step Samples4.watcher_closed ev = None)
  ∧ (∀ t, debounce Samples4.watcher_closed = Some t →
       timers Samples4.watcher_closed !! t = Some Pending →
       ∃ w', watcher_step Samples4.watcher_closed (TimerFires t) = Some w'
             ∧ hub w' = broadcast (hub Samples4.watcher_closed) ∧ pending_timers w' = 0)
  ∧ (∀ evs w', watcher_run Samples4.watcher_closed evs = Some w' →
       looping w' = false
       ∧ pushes (wlog w')
         ≤ pushes (wlog Samples4.watcher_closed) + pending_timers Samples4.watcher_closed).
Proof.
  split; [exact watcher_closed_inv|]. split; [reflexivity|].
  exact (pending_broadcast_outlives_the_loop Samples4.watcher_closed
           watcher_closed_inv eq_refl).
Defined.

End Watcher_samples.

(** ** The header check *)

(** X19.  The interceptors pass a call on to its handler, and answer with
    the handler's answer, exactly when the incoming context has metadata in
    which the header [workload.spiffe.io] has at least one value; what the
    value is plays no part.  Every other call is refused with
    [InvalidArgument] whatever the handler would have done. *)
Theorem header_presence_decides
    {Req Resp Srv Ret : Type} (ctx : option MD) (req : Req) (srv : Srv)
    (unary : option MD → Req → Resp) (stream : Srv → option MD → Ret) :
  ((∃ md v vs, ctx = Some md ∧ md !! workloadHeader = Some (v :: vs)) →
   workloadHeaderUnaryInterceptor ctx req unary = Handled (unary ctx req)
   ∧ workloadHeaderStreamInterceptor srv ctx stream = Handled (stream srv ctx))
  ∧ (ctx = None
     ∨ (∃ md, ctx = Some md
              ∧ (md !! workloadHeader = None ∨ md !! workloadHeader = Some [])) →
     workloadHeaderUnaryInterceptor ctx req unary
     = Refused InvalidArgument "missing required header: workload.spiffe.io"
     ∧ workloadHeaderStreamInterceptor srv ctx stream
       = Refused InvalidArgument "missing required header: workload.spiffe.io").
Proof.
  unfold workloadHeaderUnaryInterceptor, workloadHeaderStreamInterceptor, MD_Get. split.
  - intros (md & v & vs & -> & ->). done.
  - intros [->|(md & -> & [->| ->])]; done.
Qed.

Section Header_samples.
#[local] Existing Instances Demo.pem Demo.x509 Demo.base64 Demo.range Samples.json.

Lemma header_presence_decides_witness :
  (∃ md v vs, Some Samples4.md_false = Some md ∧ md !! workloadHeader = Some (v :: vs))
  ∧ workloadHeaderStreamInterceptor (newBroadcaster, @new_session X509SVIDResponse)
      (Some Samples4.md_false)
      (λ '(b, s) _, FetchX509SVID b s (Invoke Samples.dir_jwt_only None))
    = Handled (FetchX509SVID newBroadcaster new_session (Invoke Samples.dir_jwt_only None))
  ∧ workloadHeaderStreamInterceptor (newBroadcaster, @new_session X509SVIDResponse)
      (Some Samples4.md_no_value)
      (λ '(b, s) _, FetchX509SVID b s (Invoke Samples.dir_jwt_only None))
    = Refused InvalidArgument "missing required header: workload.spiffe.io".
Proof.
  assert (∃ md v vs, Some Samples4.md_false = Some md
                     ∧ md !! workloadHeader = Some (v :: vs)) as H1.
  { exists Samples4.md_false, "false", []. split; [done|]. vm_compute. reflexivity. }
  assert (Some Samples4.md_no_value = None
          ∨ (∃ md, Some Samples4.md_no_value = Some md
                   ∧ (md !! workloadHeader = None ∨ md !! workloadHeader = Some []))) as H2.
  { right. exists Samples4.md_no_value. split; [done|]. right. vm_compute. reflexivity. }
  split; [exact H1|]. split.
  - exact (proj2 (proj1 (header_presence_decides (Some Samples4.md_false) tt
                           (newBroadcaster, @new_session X509SVIDResponse)
                           (λ _ _, tt)
                           (λ '(b, s) _, FetchX509SVID b s
                                           (Invoke Samples.dir_jwt_only None))) H1)).
  - exact (proj2 (proj2 (header_presence_decides (Some Samples4.md_no_value) tt
                           (newBroadcaster, @new_session X509SVIDResponse)
                           (λ _ _, tt)
                           (λ '(b, s) _, FetchX509SVID b s
                                           (Invoke Samples.dir_jwt_only None))) H2)).
Defined.

End Header_samples.

(** ** When the JWT bundle build succeeds *)

Section JWTTotal.
Context {json : JsonPkg} {rng : MapRange}.

Lemma marshal_keys_Ok keys :
  (∀ key, is_Ok (json_Marshal_trustKey key)) → is_Ok (marshal_keys keys).
Proof.
  intros Hm. induction keys as [|key keys [docs IH]]; simpl; [by eexists|].
  destruct (Hm key) as [doc ->]. simpl. rewrite IH. by eexists.
Qed.

(** X20.  The JWT bundle build has two ways to fail: the trust bundle
    document does not load, or [json.Marshal] fails.  Where marshalling
    succeeds (as it does on these types) every Trust Domain Map that loads
    gives a response, whatever uses, key types or [x5c] entries its keys
    have. *)
Theorem jwt_build_fails_only_on_load_or_marshal (fs : CredsDir) (tb : trustBundlesFile) :
  loadTrustBundles fs = Ok tb →
  (∀ key, is_Ok (json_Marshal_trustKey key)) →
  (∀ docs, is_Ok (json_Marshal_jwks docs)) →
  is_Ok (buildJWTBundlesResponse fs).
Proof.
  intros Htb Hk Hj. unfold buildJWTBundlesResponse. rewrite Htb. simpl.
  rewrite rangeJWTDomains_collect.
  destruct (collect_Ok (trust_domain_id ∘ fst) jwt_bundle
              (range_order (TrustDomains tb)) ∅) as [out ->]; [|by eexists].
  intros [domain entry] _. unfold jwt_bundle. simpl.
  destruct (marshal_keys_Ok (jwt_svid_keys (Keys entry)) Hk) as [docs ->]. simpl.
  case_decide; [by eexists|]. destruct (Hj docs) as [doc ->]. by eexists.
Qed.

End JWTTotal.

Section JWTTotal_samples.
#[local] Existing Instances Demo.pem Demo.x509 Demo.base64 Demo.range Samples.json.

Lemma jwt_build_fails_only_on_load_or_marshal_witness :
  loadTrustBundles Samples.dir_bad_x5c = Ok Samples.tb_bad_x5c
  ∧ (∀ key, is_Ok (json_Marshal_trustKey key))
  ∧ (∀ docs, is_Ok (json_Marshal_jwks docs))
  ∧ is_Ok (buildJWTBundlesResponse Samples.dir_bad_x5c).
Proof.
  assert (loadTrustBundles Samples.dir_bad_x5c = Ok Samples.tb_bad_x5c) as H1
    by (vm_compute; reflexivity).
  assert (∀ key, is_Ok (json_Marshal_trustKey key)) as H2 by (intros key; by eexists).
  assert (∀ docs, is_Ok (json_Marshal_jwks docs)) as H3 by (intros docs; by eexists).
  split_and!; [exact H1|exact H2|exact H3|].
  exact (jwt_build_fails_only_on_load_or_marshal Samples.dir_bad_x5c Samples.tb_bad_x5c
           H1 H2 H3).
Defined.

End JWTTotal_samples.
